(** * Market-data utilities: classifier, OI aggregation, loader, backtest

    A shallow embedding of the rule-based parts of the repository:
    - [Text]: Python [str] values as sequences of code points, with the
      Unicode tables the scripts consult kept behind an interface;
    - [Numpy], [Pandas], [Frame]: the [int64] and [float64] columns, grouping,
      sorting and the lag columns of the aggregation passes;
    - [Charting], [TxoDbUi]: alert levels, OI aggregation and anomaly flags;
    - [DataLoader]: header-row search and the aggregation of the robust loader;
    - [Extractor]: header scoring, type classification and symbol extraction
      of the exchange data extractor;
    - [Sqlite], [FinancialDatabase]: transactions, and the batch insert of the
      extractor into [options_raw];
    - [Downloader]: the delete-then-append persistence of the TXO downloader,
      with the [id] and [created_time] the table gives each row;
    - [Backtest]: the equity curve and the running-peak drawdown.

    Definitions come first, the lemmas and theorems about them follow. *)

From stdpp Require Import base decidable option numbers list sorting lexico gmap strings.
From Stdlib Require Import QArith Qcanon Qcabs.
Close Scope Qc_scope.
Close Scope Q_scope.

Set Default Proof Using "Type".

(* ================================================================== *)
(** * Part I: definitions *)
(* ================================================================== *)

(** ** Text: Python strings *)

Module Text.

Local Open Scope N_scope.

(** A Python [str] is a sequence of Unicode code points; [len] is the
    number of code points, not of bytes. *)
Definition codepoint := N.
Definition pystr := list codepoint.

Definition byte_of_ascii (a : Ascii.ascii) : N := Ascii.N_of_ascii a.

Fixpoint bytes_of_string (s : string) : list N :=
  match s with
  | EmptyString => []
  | String a r => byte_of_ascii a :: bytes_of_string r
  end.

(** UTF-8 decoding of the source literals (1 to 4 byte sequences); a
    truncated sequence is kept byte by byte. *)
Fixpoint utf8_decode (bs : list N) : pystr :=
  match bs with
  | [] => []
  | b1 :: t1 =>
    if b1 <? 128 then b1 :: utf8_decode t1
    else match t1 with
      | [] => [b1]
      | b2 :: t2 =>
        if b1 <? 224 then ((b1 - 192) * 64 + (b2 - 128)) :: utf8_decode t2
        else match t2 with
          | [] => [b1; b2]
          | b3 :: t3 =>
            if b1 <? 240
            then ((b1 - 224) * 4096 + (b2 - 128) * 64 + (b3 - 128))
                   :: utf8_decode t3
            else match t3 with
              | [] => [b1; b2; b3]
              | b4 :: t4 =>
                ((b1 - 240) * 262144 + (b2 - 128) * 4096
                 + (b3 - 128) * 64 + (b4 - 128)) :: utf8_decode t4
              end
          end
      end
  end.

(** [U "..."] is the Python string written by the literal. *)
Definition U (s : string) : pystr := utf8_decode (bytes_of_string s).

Definition in_range (lo hi c : codepoint) : bool := (lo <=? c) && (c <=? hi).

(** [[A-Za-z]] *)
Definition is_ascii_letter (c : codepoint) : bool :=
  in_range 65 90 c || in_range 97 122 c.

(** [[一-鿿]] *)
Definition is_cjk (c : codepoint) : bool := in_range 19968 40959 c.

Definition ascii_digit (c : codepoint) : bool := in_range 48 57 c.

(** Whitespace of the ASCII range as Python classifies it: TAB..CR,
    FS..US and SPACE. *)
Definition ascii_space (c : codepoint) : bool :=
  in_range 9 13 c || in_range 28 32 c.

Definition ascii_lower_cp (c : codepoint) : codepoint :=
  if in_range 65 90 c then c + 32 else c.

(** Code points on which the tables below are pinned down: the ASCII range
    and the CJK unified ideographs. *)
Definition basic (c : codepoint) : bool := (c <? 128) || is_cjk c.

(** The Unicode character database as the interpreter sees it.  [isspace]
    is [str.isspace] (also [\s] and the set removed by [strip]),
    [isdecimal] is [\d], [isdigit] is one character of [str.isdigit] and
    [lower] is [str.lower].  The laws state what holds of every Unicode
    version on the ASCII range and on CJK ideographs, and that decimal
    digits are not whitespace. *)
Class UnicodeData := {
  isspace : codepoint -> bool;
  isdecimal : codepoint -> bool;
  isdigit : codepoint -> bool;
  lower : pystr -> pystr;
  isspace_ascii : forall c, c < 128 -> isspace c = ascii_space c;
  isdecimal_ascii : forall c, c < 128 -> isdecimal c = ascii_digit c;
  isdigit_ascii : forall c, c < 128 -> isdigit c = ascii_digit c;
  isspace_cjk : forall c, is_cjk c = true -> isspace c = false;
  isdecimal_cjk : forall c, is_cjk c = true -> isdecimal c = false;
  isdigit_cjk : forall c, is_cjk c = true -> isdigit c = false;
  isdecimal_not_space : forall c, isdecimal c = true -> isspace c = false;
  lower_basic : forall s, forallb basic s = true -> lower s = map ascii_lower_cp s
}.

(** The tables restricted to ASCII and CJK text: every other code point is
    taken as caseless, not a digit and not whitespace.  They are the tables
    used to evaluate the functions on concrete ASCII and CJK inputs. *)
Definition basic_isspace (c : codepoint) : bool := (c <? 128) && ascii_space c.
Definition basic_isdecimal (c : codepoint) : bool := (c <? 128) && ascii_digit c.
Definition basic_lower (s : pystr) : pystr := map ascii_lower_cp s.

Section Strings.
Context {UD : UnicodeData}.

Fixpoint takeWhile (p : codepoint -> bool) (s : pystr) : pystr :=
  match s with
  | [] => []
  | c :: r => if p c then c :: takeWhile p r else []
  end.

Fixpoint dropWhile (p : codepoint -> bool) (s : pystr) : pystr :=
  match s with
  | [] => []
  | c :: r => if p c then dropWhile p r else s
  end.

(** [s.strip()] *)
Definition strip (s : pystr) : pystr :=
  reverse (dropWhile isspace (reverse (dropWhile isspace s))).

(** [s.startswith(p)] *)
Fixpoint startswith (p s : pystr) : bool :=
  match p, s with
  | [], _ => true
  | _ :: _, [] => false
  | a :: p', b :: s' => (a =? b) && startswith p' s'
  end.

(** [k in t] for strings: [k] occurs in [t] as a substring. *)
Fixpoint contains (k t : pystr) : bool :=
  startswith k t ||
  match t with
  | [] => false
  | _ :: t' => contains k t'
  end.

(** [s.replace(c, '')] for a one-character [c]. *)
Definition remove_char (c : codepoint) (s : pystr) : pystr :=
  filter (fun x => x <> c) s.

(** [s.isdigit()]: non-empty and made of digits only. *)
Definition str_isdigit (s : pystr) : bool :=
  match s with
  | [] => false
  | _ => forallb isdigit s
  end.

(** [s.split(sep)] for a non-empty separator: [go] scans left to right,
    [skip] counts the characters of a separator just recognised that are
    still to be passed over, [acc] is the current piece in reverse.  An
    empty separator raises [ValueError]. *)
Fixpoint split_go (sep : pystr) (skip : nat) (s acc : pystr) : list pystr :=
  match s with
  | [] => [reverse acc]
  | c :: r =>
    match skip with
    | S k => split_go sep k r acc
    | O =>
      if startswith sep s
      then reverse acc :: split_go sep (length sep - 1) r []
      else split_go sep O r (c :: acc)
    end
  end.

Definition split (sep s : pystr) : option (list pystr) :=
  match sep with
  | [] => None
  | _ => Some (split_go sep O s [])
  end.

End Strings.

End Text.

Import Text.

(** The restricted tables satisfy the interface. *)
Module BasicTables.

Local Open Scope N_scope.

Lemma basic_isspace_ascii c : c < 128 -> basic_isspace c = ascii_space c.
Proof. intros Hc. unfold basic_isspace. apply N.ltb_lt in Hc. by rewrite Hc. Qed.

Lemma basic_isdecimal_ascii c : c < 128 -> basic_isdecimal c = ascii_digit c.
Proof. intros Hc. unfold basic_isdecimal. apply N.ltb_lt in Hc. by rewrite Hc. Qed.

Lemma cjk_above_ascii c : is_cjk c = true -> (c <? 128) = false.
Proof.
  unfold is_cjk, in_range. intros [H1 _]%andb_prop.
  apply N.leb_le in H1. apply N.ltb_ge. lia.
Qed.

Lemma basic_isspace_cjk c : is_cjk c = true -> basic_isspace c = false.
Proof. intros H. unfold basic_isspace. by rewrite (cjk_above_ascii c H). Qed.

Lemma basic_isdecimal_cjk c : is_cjk c = true -> basic_isdecimal c = false.
Proof. intros H. unfold basic_isdecimal. by rewrite (cjk_above_ascii c H). Qed.

Lemma basic_isdecimal_not_space c :
  basic_isdecimal c = true -> basic_isspace c = false.
Proof.
  unfold basic_isdecimal, basic_isspace, ascii_digit, ascii_space, in_range.
  intros [_ [H1 H2]%andb_prop]%andb_prop.
  apply N.leb_le in H1. apply N.leb_le in H2.
  apply andb_false_iff. right. apply orb_false_iff. split.
  - apply andb_false_iff. right. apply N.leb_gt. lia.
  - apply andb_false_iff. right. apply N.leb_gt. lia.
Qed.

Lemma basic_lower_basic s :
  forallb basic s = true -> basic_lower s = map ascii_lower_cp s.
Proof. reflexivity. Qed.

#[export] Instance basic_unicode : UnicodeData := {|
  isspace := basic_isspace;
  isdecimal := basic_isdecimal;
  isdigit := basic_isdecimal;
  lower := basic_lower;
  isspace_ascii := basic_isspace_ascii;
  isdecimal_ascii := basic_isdecimal_ascii;
  isdigit_ascii := basic_isdecimal_ascii;
  isspace_cjk := basic_isspace_cjk;
  isdecimal_cjk := basic_isdecimal_cjk;
  isdigit_cjk := basic_isdecimal_cjk;
  isdecimal_not_space := basic_isdecimal_not_space;
  lower_basic := basic_lower_basic
|}.

End BasicTables.

(** ** charting.py *)

Module Charting.

Local Open Scope Z_scope.

(** [detect_alert_level(value)]; the labels are the strings of the
    source, [None] is Python's [None]. *)
Definition detect_alert_level (value : Z) : option string :=
  let a := Z.abs value in
  if 1200 <=? a then Some "極端"
  else if 800 <=? a then Some "重大布局"
  else if 400 <=? a then Some "大單"
  else None.

End Charting.

(** ** 回測程式.py: the shared performance calculator *)

Module Backtest.

Local Open Scope Qc_scope.

(** One entry of the [trades] list: the keys the calculator reads. *)
Record trade := {
  t_type : string;        (* 'entry' or 'exit' *)
  t_position : string;    (* 'long' or anything else *)
  t_price : Qc
}.

Record trade_record := {
  r_entry_price : Qc;
  r_exit_price : Qc;
  r_position : string;
  r_pnl : Qc;
  r_cumulative_equity : Qc
}.

Record performance := {
  total_trades : nat;
  winning_trades : nat;
  losing_trades : nat;
  total_profit : Qc;
  total_loss : Qc;
  max_drawdown : Qc;
  final_equity : Qc;
  total_return : Qc;
  equity_curve : list Qc;
  trade_records : list trade_record
}.

Definition initial_equity : Qc := Q2Qc 100000.

(** The loop of [calculate_max_drawdown]: [peak] and [max_dd] are the two
    loop variables; dividing by a zero peak raises [ZeroDivisionError]. *)
Fixpoint max_drawdown_loop (curve : list Qc) (peak max_dd : Qc) : option Qc :=
  match curve with
  | [] => Some max_dd
  | equity :: rest =>
    let peak := if bool_decide (peak < equity) then equity else peak in
    if bool_decide (peak = 0) then None
    else
      let dd := (peak - equity) / peak in
      max_drawdown_loop rest peak (if bool_decide (max_dd < dd) then dd else max_dd)
  end.

(** [calculate_max_drawdown(equity_curve)]; [equity_curve[0]] of an empty
    list raises [IndexError]. *)
Definition calculate_max_drawdown (equity_curve : list Qc) : option Qc :=
  match equity_curve with
  | [] => None
  | e0 :: _ => max_drawdown_loop equity_curve e0 0
  end.

(** The pairing loop [for i in range(0, len(trades)-1, 2)] of
    [calculate_performance]: [equity] is [current_equity], the result is
    the list of appended trade records, oldest first. *)
Fixpoint pair_trades (commission : Qc) (trades : list trade) (equity : Qc)
  : list trade_record :=
  match trades with
  | entry :: exit_trade :: rest =>
    if String.eqb (t_type entry) "entry" && String.eqb (t_type exit_trade) "exit"
    then
      let pnl_points :=
        if String.eqb (t_position entry) "long"
        then t_price exit_trade - t_price entry
        else t_price entry - t_price exit_trade in
      let trade_cost := (t_price entry + t_price exit_trade) * commission in
      let net_pnl := pnl_points - trade_cost in
      let equity := equity + net_pnl in
      {| r_entry_price := t_price entry;
         r_exit_price := t_price exit_trade;
         r_position := t_position entry;
         r_pnl := net_pnl;
         r_cumulative_equity := equity |} :: pair_trades commission rest equity
    else pair_trades commission rest equity
  | _ => []
  end.

Definition sum_Qc (l : list Qc) : Qc := foldr Qcplus 0 l.

(** [calculate_performance(trades)]: [None] for fewer than two trades or
    no matched pair, and when the drawdown computation raises. *)
Definition calculate_performance (commission : Qc) (trades : list trade)
  : option performance :=
  if (length trades <? 2)%nat then None
  else
    let recs := pair_trades commission trades initial_equity in
    let curve := initial_equity :: map r_cumulative_equity recs in
    let current_equity := List.last curve initial_equity in
    match recs with
    | [] => None
    | _ =>
      let wins := filter (fun r => 0 < r_pnl r) recs in
      let losses := filter (fun r => r_pnl r < 0) recs in
      match calculate_max_drawdown curve with
      | None => None
      | Some dd =>
        Some {| total_trades := length recs;
                winning_trades := length wins;
                losing_trades := length losses;
                total_profit := sum_Qc (map r_pnl wins);
                total_loss := Qcabs (sum_Qc (map r_pnl losses));
                max_drawdown := dd;
                final_equity := current_equity;
                total_return := (current_equity - initial_equity) / initial_equity;
                equity_curve := curve;
                trade_records := recs |}
      end
    end.

End Backtest.

(** ** The machine numbers behind the integer columns *)

Module Numpy.

Local Open Scope Z_scope.

(** What an [int64] operation leaves of the exact result [z]: the value
    modulo 2^64 in the signed range. *)
Definition int64_wrap (z : Z) : Z :=
  (z + 9223372036854775808) mod 18446744073709551616 - 9223372036854775808.

Definition in_int64 (z : Z) : Prop :=
  - 9223372036854775808 <= z < 9223372036854775808.

(** The sum of an [int64] column, element by element. *)
Definition int64_sum (l : list Z) : Z :=
  foldl (fun acc x => int64_wrap (acc + x)) 0 l.

(** An integer stored in a [float64] column: the nearest number with a
    significand of 53 bits, a tie going to the even significand.  The
    result is again an integer and is kept as one. *)
Definition float64_of_int (z : Z) : Z :=
  let a := Z.abs z in
  if a <? 9007199254740992 then z
  else
    let q := 2 ^ (Z.log2 a - 52) in
    let n := a / q in
    let rem := a mod q in
    let n' := if (q <? 2 * rem) || ((2 * rem =? q) && Z.odd n) then n + 1 else n in
    Z.sgn z * (n' * q).

(** [astype(int)] of an integer-valued [float64].  The one value a lag of
    an [int64] column can reach outside the range is 2^63, where the cast
    of the processor gives -2^63. *)
Definition int64_of_float (x : Z) : Z :=
  if (- 9223372036854775808 <=? x) && (x <? 9223372036854775808) then x
  else - 9223372036854775808.

End Numpy.

(** ** The pandas operations of the aggregation passes *)

Module Pandas.

Section Ordered.
Context {K : Type} `{Lexico K, !StrictOrder (@lexico K _)}.
Context `{!TrichotomyT (@lexico K _)}.

(** The ascending order of [sort_values] and of the group keys:
    lexicographic on the key columns, strings by code point. *)
Definition lex_le (x y : K) : Prop := x = y \/ lexico x y.

#[export] Instance lex_le_dec : RelDecision lex_le.
Proof using Type*.
  intros x y. unfold lex_le.
  destruct (trichotomyT lexico x y) as [[Hlt|Heq]|Hgt].
  - left. by right.
  - left. by left.
  - right. intros [->|Hlt].
    + by apply (irreflexivity lexico y).
    + apply (irreflexivity lexico x). by transitivity y.
Defined.

(** [df.sort_values(cols)] with [key] the tuple of the sort columns. *)
Definition sort_values {R : Type} (key : R -> K) (rows : list R) : list R :=
  @merge_sort R (fun a b => lex_le (key a) (key b))
    (fun a b => lex_le_dec (key a) (key b)) rows.

(** [df.sort_values(cols, ascending=False)]. *)
Definition sort_values_desc {R : Type} (key : R -> K) (rows : list R) : list R :=
  @merge_sort R (fun a b => lex_le (key b) (key a))
    (fun a b => lex_le_dec (key b) (key a)) rows.

Context `{EqDecision K}.

(** The distinct group keys of [df.groupby(cols)], ascending. *)
Definition group_keys {R : Type} (key : R -> K) (rows : list R) : list K :=
  merge_sort lex_le (remove_dups (key <$> rows)).

(** [df.groupby(cols, as_index=False).agg(...)]: one output row per
    distinct key, in ascending key order; [agg] receives the key and the
    rows of the group in frame order. *)
Definition groupby_agg {R S : Type} (key : R -> K)
    (agg : K -> list R -> S) (rows : list R) : list S :=
  (fun k => agg k (filter (fun r => key r = k) rows)) <$> group_keys key rows.
End Ordered.

(** [df.groupby(group)[col].shift(n)] read at one row: [above] holds the
    rows above it in the frame, nearest first; the result is the value [n]
    rows up inside the row's own group, [None] (NaN) when the group has
    fewer than [n] rows above. *)
Definition group_shift {R G V : Type} `{EqDecision G}
    (group : R -> G) (val : R -> V) (n : nat) (above : list R) (r : R) : option V :=
  val <$> filter (fun x => group x = group r) above !! pred n.

End Pandas.

(** ** The aggregated open-interest frame shared by the two aggregators *)

Module Frame.

Local Open Scope Z_scope.

(** One row after [groupby(...).agg(...)]. *)
Record agg_row := {
  Date : Z;             (* trading day *)
  Strike : Z;
  CP : pystr;
  OI : Z;
  orig_OI_str : pystr
}.

(** A row of the finished frame with the lag and delta columns. *)
Record oi_row := {
  base : agg_row;
  OI_prev1 : Z;
  OI_prev2 : Z;
  delta_1 : Z;
  delta_2 : Z
}.

#[export] Instance agg_row_eq_dec : EqDecision agg_row.
Proof. solve_decision. Defined.

#[export] Instance oi_row_eq_dec : EqDecision oi_row.
Proof. solve_decision. Defined.

Definition contract (r : agg_row) : Z * pystr := (Strike r, CP r).

(** [groupby([Strike, CP])[OI].shift(n).fillna(0).astype(int)] at one
    row: the shifted column holds NaN for the first rows of each group, so
    it is a [float64] column; the NaN becomes 0 and the column is cast
    back to [int64]. *)
Definition lag (n : nat) (above : list agg_row) (r : agg_row) : Z :=
  Numpy.int64_of_float
    (default 0 (Numpy.float64_of_int <$> Pandas.group_shift contract OI n above r)).

(** The four column assignments [OI_prev1 = ... shift(1) ...],
    [OI_prev2 = ... shift(2) ...], [delta_1 = OI - OI_prev1],
    [delta_2 = OI - OI_prev2] at one row; the differences are [int64]
    differences. *)
Definition lagged (above : list agg_row) (r : agg_row) : oi_row :=
  let prev1 := lag 1 above r in
  let prev2 := lag 2 above r in
  {| base := r; OI_prev1 := prev1; OI_prev2 := prev2;
     delta_1 := Numpy.int64_wrap (OI r - prev1);
     delta_2 := Numpy.int64_wrap (OI r - prev2) |}.

(** The same assignments over the whole frame, top to bottom. *)
Fixpoint add_lags (above rows : list agg_row) : list oi_row :=
  match rows with
  | [] => []
  | r :: rest => lagged above r :: add_lags (r :: above) rest
  end.

Definition sum_Z (l : list Z) : Z := foldr Z.add 0 l.

End Frame.

(** ** data_loader.py *)

Module DataLoader.

Import Frame.
Local Open Scope Z_scope.

(** [sniff_delimiters(sample)] *)
Definition sniff_delimiters (sample : pystr) : list pystr :=
  let cand := [U ","; [9%N]; U ";"; U "|"] in
  let found := filter (fun d => contains d sample = true) cand in
  if bool_decide (U "," ∈ found) then found else found ++ [U ","].

Definition keywords : list pystr := [U "交易日期"; U "履約"; U "買賣權"].

Section WithTables.
Context {UD : UnicodeData}.

(** [all(any(k in t for t in toks) for k in keywords)] *)
Definition has_keywords (toks : list pystr) : bool :=
  forallb (fun k => existsb (fun t => contains k t) toks) keywords.

(** The loop of [find_header_row] from line index [i] on; [None] stands
    for the [ValueError] of splitting on an empty delimiter. *)
Fixpoint scan_lines (delimiter : pystr) (i : nat) (lines : list pystr)
  : option nat :=
  match lines with
  | [] => Some 0%nat
  | ln :: rest =>
    match split delimiter ln with
    | None => None
    | Some pieces =>
      let toks := strip <$> pieces in
      if has_keywords toks then Some i else scan_lines delimiter (S i) rest
    end
  end.

(** [find_header_row(lines, delimiter)] *)
Definition find_header_row (lines : list pystr) (delimiter : pystr) : option nat :=
  scan_lines delimiter 0 (take 10 lines).
End WithTables.

(** A row of [df2] after cleaning: parsed day, strike, call/put text,
    integer open interest and the original OI text. *)
Record clean_row := {
  c_Date : Z;
  c_Strike : Z;
  c_CP : pystr;
  c_OI : Z;
  c_orig_OI_str : pystr
}.

Definition group_key (r : clean_row) : Z * Z * pystr :=
  (c_Date r, c_Strike r, c_CP r).

(** ["|".join(...)] *)
Fixpoint join_bar (l : list pystr) : pystr :=
  match l with
  | [] => []
  | [s] => s
  | s :: r => s ++ U "|" ++ join_bar r
  end.

(** Step 5 of [load_and_process]: group by (Date, Strike, CP), sum the
    [int64] column OI and join the OI texts. *)
Definition group_sum (df2 : list clean_row) : list agg_row :=
  Pandas.groupby_agg group_key
    (fun k g => {| Date := k.1.1; Strike := k.1.2; CP := k.2;
                   OI := Numpy.int64_sum (c_OI <$> g);
                   orig_OI_str := join_bar (c_orig_OI_str <$> g) |})
    df2.

Definition sort_key (r : agg_row) : Z * pystr * Z := (Strike r, CP r, Date r).

(** The aggregate of [load_and_process]: grouping, then
    [sort_values(["Strike", "CP", "Date"])], then the lag columns. *)
Definition aggregate (df2 : list clean_row) : list oi_row :=
  add_lags [] (Pandas.sort_values sort_key (group_sum df2)).

End DataLoader.

(** ** txo_db_ui.py *)

Module TxoDbUi.

Import Frame.
Local Open Scope Z_scope.

Definition DEFAULT_STRIKE_WINDOW : Z := 10.

(** [ANOM_THRESH] *)
Definition ANOM_THRESH_big_order : Z * Z := (400, 800).
Definition ANOM_THRESH_major : Z * Z := (800, 1200).
Definition ANOM_THRESH_extreme : Z := 1200.

(** A row of the frame built from the database: 交易日期, 履約價, 買賣權,
    未沖銷契約數 ([None] is NaN), orig_OI_str and 交易時段. *)
Record db_row := {
  d_date : Z;
  d_strike : Z;
  d_cp : pystr;
  d_oi : option Z;
  d_orig_OI_str : pystr;
  d_session : pystr
}.

(** The choice of [gen]: the regular session, else every row outside the
    after-hours markers, else the whole frame. *)
Definition select_session (dfc : list db_row) : list db_row :=
  let gen := filter (fun r => d_session r = U "一般") dfc in
  match gen with
  | _ :: _ => gen
  | [] =>
    let gen := filter (fun r => d_session r ∉ [U "-"; U "盤後"; U "後市"; []]) dfc in
    match gen with
    | _ :: _ => gen
    | [] => dfc
    end
  end.

(** [OI_val = pd.to_numeric(未沖銷契約數)] is a [float64] column as soon
    as one value of the frame is NaN. *)
Definition has_nan (dfc : list db_row) : bool :=
  existsb (fun r => bool_decide (d_oi r = None)) dfc.

(** [OI_for_calc = OI_val.fillna(0).astype(int)]; [float_column] tells
    whether [OI_val] is a [float64] column. *)
Definition OI_for_calc (float_column : bool) (r : db_row) : Z :=
  match d_oi r with
  | None => 0
  | Some v =>
    if float_column then Numpy.int64_of_float (Numpy.float64_of_int v) else v
  end.

Definition group_key (r : db_row) : Z * Z * pystr :=
  (d_date r, d_strike r, d_cp r).

Definition sort_key (r : agg_row) : Z * Z * pystr := (Date r, Strike r, CP r).

(** [aggregate_daily_from_df(df)]: an empty frame gives an empty frame;
    otherwise group by (交易日期, 履約價, 買賣權) with the OI summed and the
    first OI text kept, sort on the same three columns and add the lag
    columns per (履約價, 買賣權). *)
Definition aggregate_daily_from_df (df : list db_row) : list oi_row :=
  match df with
  | [] => []
  | _ =>
    let gen := select_session df in
    let agg :=
      Pandas.groupby_agg group_key
        (fun k g => {| Date := k.1.1; Strike := k.1.2; CP := k.2;
                       OI := Numpy.int64_sum (OI_for_calc (has_nan df) <$> g);
                       orig_OI_str := default [] (head (d_orig_OI_str <$> g)) |})
        gen in
    add_lags [] (Pandas.sort_values sort_key agg)
  end.

(** The level assigned inside the loop of [detect_anomalies_for_date]. *)
Definition anomaly_level (delta : Z) : option string :=
  let absd := Z.abs delta in
  if ANOM_THRESH_extreme <=? absd then Some "極端"
  else if ANOM_THRESH_major.1 <=? absd then Some "重大"
  else if ANOM_THRESH_big_order.1 <=? absd then Some "大單"
  else None.

Definition Zq (z : Z) : Qc := Q2Qc (inject_Z z).

(** [hist_recent]: the rows of [all_agg] of the same (履約價, 買賣權),
    dated before the row, latest first, at most five. *)
Definition hist_recent (all_agg : list oi_row) (r : oi_row) : list oi_row :=
  let hist := filter (fun h => contract (base h) = contract (base r)) all_agg in
  let before := filter (fun h => Date (base h) < Date (base r)) hist in
  take 5 (Pandas.sort_values_desc (fun h => Date (base h)) before).

(** [hist_recent["delta_1"].abs().mean()], [0.0] for an empty history. *)
Definition mean_recent (recent : list oi_row) : Qc :=
  match recent with
  | [] => 0%Qc
  | _ => (Zq (sum_Z ((fun h => Z.abs (delta_1 h)) <$> recent))
          / Zq (Z.of_nat (length recent)))%Qc
  end.

(** [rel_flag] *)
Definition rel_flag (all_agg : list oi_row) (r : oi_row) : bool :=
  let absd := Z.abs (delta_1 r) in
  let m := mean_recent (hist_recent all_agg r) in
  bool_decide (0 < m)%Qc && bool_decide (m * Zq 3 < Zq absd)%Qc.

(** [outside_flag] *)
Definition outside_flag (atm_strike : option Z) (strike_window : Z) (r : oi_row)
  : bool :=
  match atm_strike with
  | None => false
  | Some atm =>
    bool_decide (strike_window < Z.abs (Strike (base r) - atm))
    && bool_decide (400 <= Z.abs (delta_1 r))
  end.

Record anomaly := {
  an_strike : Z;
  an_cp : pystr;
  an_delta : Z;
  an_abs : Z;
  an_level : string;
  an_outside : bool
}.

(** One iteration of the loop over [agg_day]: the appended entry, if any. *)
Definition anomaly_of_row (all_agg : list oi_row) (atm_strike : option Z)
    (strike_window : Z) (r : oi_row) : option anomaly :=
  let level := anomaly_level (delta_1 r) in
  let rel := rel_flag all_agg r in
  let outside := outside_flag atm_strike strike_window r in
  if bool_decide (is_Some level) || rel || outside then
    Some {| an_strike := Strike (base r);
            an_cp := CP (base r);
            an_delta := delta_1 r;
            an_abs := Z.abs (delta_1 r);
            an_level :=
              match level with
              | Some l => l
              | None => if rel then "相對異常"
                        else if outside then "遠端大單" else "異常"
              end;
            an_outside := outside |}
  else None.

(** [sorted(l, key=key, reverse=True)]: largest key first, entries of
    equal key in the order they had in [l]. *)
Fixpoint insert_reverse {A : Type} (key : A -> Z) (x : A) (l : list A) : list A :=
  match l with
  | [] => [x]
  | y :: rest =>
    if key y <=? key x then x :: l else y :: insert_reverse key x rest
  end.

Definition sorted_reverse {A : Type} (key : A -> Z) (l : list A) : list A :=
  foldr (insert_reverse key) [] l.

(** [results["anomalies"]]: the entries ranked by [abs], largest first,
    the first ten kept. *)
Definition anomalies (agg_day all_agg : list oi_row) (atm_strike : option Z)
    (strike_window : Z) : list anomaly :=
  take 10 (sorted_reverse an_abs
             (omap (anomaly_of_row all_agg atm_strike strike_window) agg_day)).

End TxoDbUi.

(** ** 台灣期交所專用資料擷取器: classifier, symbol extraction, persistence *)

Module Extractor.

Local Open Scope Z_scope.

(** A header or data cell: a [str], or any other value (number, NaN)
    together with the text [str()] gives for it. *)
Inductive cell :=
| CStr (s : pystr)
| CObj (repr : pystr).

Definition str (c : cell) : pystr :=
  match c with CStr s => s | CObj repr => repr end.

(** A chunk of the CSV as [pd.read_csv] delivers it: the column labels
    (the first line of the file) and the data rows. *)
Record chunk := { columns : list cell; rows : list (list cell) }.

Record symbol_info := {
  symbol : pystr;
  chinese_name : pystr;
  found_in : string;
  column_index : nat;
  original_text : option pystr
}.

Inductive data_type := Options | Futures | Stocks | Undetermined.

(** Where a chunk ends up: one of the four import routines, or the
    dialog asking the operator. *)
Inductive route :=
| ImportAsOptions
| ImportAsFutures
| ImportAsStocks
| ImportAsStocksWithSymbol (info : symbol_info)
| AskUserForDataType.

Record processed := {
  data_start_index : nat;
  column_names : gset pystr;
  identified : data_type;
  routed : route
}.

Definition stock_keywords : list pystr :=
  [U "open"; U "high"; U "low"; U "close"; U "volume"; U "value";
   U "開盤"; U "最高"; U "最低"; U "收盤"; U "成交量"; U "成交金額";
   U "日期"; U "date"; U "代號"; U "symbol"; U "名稱"; U "name"].

Definition option_future_keywords : list pystr :=
  [U "cp"; U "call"; U "put"; U "strike"; U "履約價"; U "expiry"; U "到期";
   U "settlement"; U "結算價"; U "oi"; U "未平倉"; U "留倉"].

Definition non_column_keywords : list pystr :=
  [U "報告"; U "報表"; U "資料"; U "統計"; U "明細"; U "表"; U "年度"; U "月份";
   U "公司"; U "股票"; U "證券"; U "交易"; U "市場"; U "行情"; U "投資"].

(** The three indicator sets, as written and as sets. *)
Definition option_indicator_list : list pystr :=
  [U "cp"; U "call/put"; U "買賣權"; U "strike"; U "履約價"; U "expiry"; U "到期"].

Definition future_indicator_list : list pystr :=
  [U "settlement"; U "結算價"; U "oi"; U "未平倉"; U "留倉"].

Definition stock_indicator_list : list pystr :=
  [U "open"; U "high"; U "low"; U "close"; U "volume"; U "value";
   U "成交金額"; U "開盤"; U "最高"; U "最低"; U "收盤"; U "成交量"].

Definition option_indicators : gset pystr := list_to_set option_indicator_list.
Definition future_indicators : gset pystr := list_to_set future_indicator_list.
Definition stock_indicators : gset pystr := list_to_set stock_indicator_list.

(** Tries [f n], [f (n-1)], ..., [f lo] and keeps the first success: the
    order in which a greedy quantifier gives characters back. *)
Fixpoint first_down {A : Type} (f : nat -> option A) (lo n : nat) : option A :=
  if (n <? lo)%nat then None
  else match f n with
       | Some r => Some r
       | None => match n with
                 | O => None
                 | S m => first_down f lo m
                 end
       end.

Section WithTables.
Context {UD : UnicodeData}.

(** Length of the longest prefix of [s] inside a character class. *)
Definition run (p : codepoint -> bool) (s : pystr) : nat :=
  length (takeWhile p s).

(** *** [_calculate_data_score] *)

Definition any_in (kws : list pystr) (text : pystr) : bool :=
  existsb (fun kw => contains kw text) kws.

(** The four updates of [score] for one lowercased text. *)
Definition score_step (score : Z) (text : pystr) : Z :=
  let score := if any_in stock_keywords text then score + 2 else score in
  let score := if any_in option_future_keywords text then score + 2 else score in
  let score :=
    if (length text <=? 12)%nat && negb (any_in non_column_keywords text)
    then score + 1 else score in
  let score :=
    if (20 <? length text)%nat
       || str_isdigit (remove_char 45%N (remove_char 44%N (remove_char 46%N text)))
    then score - 1 else score in
  score.

Definition _calculate_data_score (columns : list cell) : Z :=
  match columns with
  | [] => 0
  | _ => Z.max 0 (foldl score_step 0 ((fun col => lower (str col)) <$> columns))
  end.

(** *** The symbol pattern
    The pattern reads: a whitespace character or the start of the
    string; group 1, three to six decimal digits followed by any number
    of ASCII letters; one or more whitespace characters; group 2, one or
    more CJK ideographs.  It is matched piece by piece, each quantifier
    greedy with backtracking. *)

Definition name_part (x : pystr) : option pystr :=
  let n := run is_cjk x in
  if (n =? 0)%nat then None else Some (take n x).

Definition spaces_part (v : pystr) : option pystr :=
  first_down (fun w => name_part (drop w v)) 1 (run isspace v).

Definition letters_part (u : pystr) : option (nat * pystr) :=
  first_down (fun m => (fun nm => (m, nm)) <$> spaces_part (drop m u))
             0 (run is_ascii_letter u).

Definition code_part (t : pystr) : option (pystr * pystr) :=
  first_down (fun k => match letters_part (drop k t) with
                       | Some (m, nm) => Some (take (k + m) t, nm)
                       | None => None
                       end)
             3 (run isdecimal t `min` 6)%nat.

(** A match starting at the current position: first the branch [\s],
    then the branch [^], open only at the start of the string. *)
Definition match_here (at_start : bool) (s : pystr) : option (pystr * pystr) :=
  let after_space :=
    match s with
    | c :: r => if isspace c then code_part r else None
    | [] => None
    end in
  match after_space with
  | Some g => Some g
  | None => if at_start then code_part s else None
  end.

Fixpoint search_from (at_start : bool) (s : pystr) : option (pystr * pystr) :=
  match match_here at_start s with
  | Some g => Some g
  | None => match s with
            | [] => None
            | _ :: r => search_from false r
            end
  end.

(** [re.search(pattern, col)]: groups 1 and 2 of the leftmost match. *)
Definition re_search (col : pystr) : option (pystr * pystr) :=
  search_from true col.

(** [$]: the end of the string, or just before a final newline. *)
Definition at_end (rest : pystr) : bool :=
  match rest with
  | [] => true
  | [c] => (c =? 10)%N
  | _ => false
  end.

(** The format test of the validity check: one or more decimal digits,
    then any number of ASCII letters, then the end of the string. *)
Definition symbol_format (s : pystr) : bool :=
  bool_decide (is_Some (
    first_down (fun k =>
      first_down (fun m => if at_end (drop (k + m) s) then Some tt else None)
                 0 (run is_ascii_letter (drop k s)))
      1 (run isdecimal s))).

Definition _is_valid_tw_stock_symbol (symbol : pystr) : bool :=
  if (length symbol <? 3)%nat || (6 <? length symbol)%nat then false
  else if negb (symbol_format symbol) then false
  else if bool_decide (length symbol ∈ [4; 5; 6]%nat) then true
  else false.

(** The loop of [_extract_symbol_from_header] from column [i] on. *)
Fixpoint extract_header_from (i : nat) (header_columns : list cell)
  : option symbol_info :=
  match header_columns with
  | [] => None
  | col :: rest =>
    let next := extract_header_from (S i) rest in
    match col with
    | CStr s =>
      match re_search s with
      | Some (g1, g2) =>
        let symbol := strip g1 in
        let chinese_name := strip g2 in
        if _is_valid_tw_stock_symbol symbol
        then Some {| symbol := symbol; chinese_name := chinese_name;
                     found_in := "header"; column_index := i;
                     original_text := Some s |}
        else next
      | None => next
      end
    | CObj _ => next
    end
  end.

Definition _extract_symbol_from_header (header_columns : list cell)
  : option symbol_info :=
  extract_header_from 0 header_columns.

Fixpoint extract_data_from (i : nat) (data_row : list cell)
  : option symbol_info :=
  match data_row with
  | [] => None
  | c :: rest =>
    let next := extract_data_from (S i) rest in
    match c with
    | CStr s =>
      match re_search s with
      | Some (g1, g2) =>
        let symbol := strip g1 in
        let chinese_name := strip g2 in
        if _is_valid_tw_stock_symbol symbol
        then Some {| symbol := symbol; chinese_name := chinese_name;
                     found_in := "data"; column_index := i;
                     original_text := None |}
        else next
      | None => next
      end
    | CObj _ => next
    end
  end.

Definition _extract_symbol_from_data (data_row : list cell) : option symbol_info :=
  extract_data_from 0 data_row.

Definition _extract_symbol_from_skipped_rows (first_row second_row : list cell)
  : option symbol_info :=
  match _extract_symbol_from_header first_row with
  | Some info => Some info
  | None => _extract_symbol_from_header second_row
  end.

Definition _auto_detect_stock_symbol (chunk_df : chunk) : option symbol_info :=
  match _extract_symbol_from_header (columns chunk_df) with
  | Some info => Some info
  | None =>
    match rows chunk_df with
    | row0 :: _ => _extract_symbol_from_data row0
    | [] => None
    end
  end.

(** *** [_process_data_chunk_fast] *)

(** [score_second_row]: computed only when the first line scores below
    3 and the chunk has a non-empty first data row, else left at 0. *)
Definition score_second_row (chunk_df : chunk) : Z :=
  match rows chunk_df with
  | (_ :: _) as original_first_row :: _ =>
    if _calculate_data_score (columns chunk_df) <? 3
    then _calculate_data_score original_first_row
    else 0
  | _ => 0
  end.

Definition lowered_set (cells : list cell) : gset pystr :=
  list_to_set ((fun col => lower (str col)) <$> cells).

Definition _process_data_chunk_fast (chunk_df : chunk) : processed :=
  let original_first_row := default [] (head (rows chunk_df)) in
  let score_first_row := _calculate_data_score (columns chunk_df) in
  let use_first := bool_decide (score_second_row chunk_df <= score_first_row) in
  let column_names :=
    if use_first then lowered_set (columns chunk_df)
    else lowered_set original_first_row in
  let data_start_index := if use_first then 0%nat else 1%nat in
  let symbol_info :=
    if use_first then None
    else _extract_symbol_from_skipped_rows (columns chunk_df) original_first_row in
  let chunk_df :=
    if use_first then chunk_df
    else {| columns := columns chunk_df; rows := drop 1 (rows chunk_df) |} in
  let option_score := size (column_names ∩ option_indicators) in
  let future_score := size (column_names ∩ future_indicators) in
  let stock_score := size (column_names ∩ stock_indicators) in
  let result ty r :=
    {| data_start_index := data_start_index; column_names := column_names;
       identified := ty; routed := r |} in
  if (2 <=? option_score)%nat then result Options ImportAsOptions
  else if (2 <=? future_score)%nat && (option_score =? 0)%nat
  then result Futures ImportAsFutures
  else if (2 <=? stock_score)%nat && (option_score =? 0)%nat
          && (future_score =? 0)%nat
  then
    match symbol_info with
    | Some info => result Stocks (ImportAsStocksWithSymbol info)
    | None =>
      match (if (data_start_index =? 0)%nat
             then _extract_symbol_from_header (columns chunk_df) else None) with
      | Some info => result Stocks (ImportAsStocksWithSymbol info)
      | None => result Stocks ImportAsStocks
      end
    end
  else
    match _auto_detect_stock_symbol chunk_df with
    | Some info => result Undetermined (ImportAsStocksWithSymbol info)
    | None => result Undetermined AskUserForDataType
    end.

End WithTables.

End Extractor.

(** ** Values bound to SQL parameters *)

Module Sql.

(** A Python value handed to [sqlite3]: [None] (also NaN) binds NULL. *)
Inductive pyval :=
| PNone
| PStr (s : pystr)
| PInt (z : Z).

#[export] Instance pyval_eq_dec : EqDecision pyval.
Proof. solve_decision. Defined.

Definition not_null (v : pyval) : bool :=
  match v with PNone => false | _ => true end.

End Sql.

(** ** A [sqlite3] connection *)

Module Sqlite.

(** The database as one connection sees it: [stored] is what is
    committed, [working] the state inside the open transaction, if there
    is one.  A connection that is dropped without a commit leaves
    [stored] behind. *)
Record connection (T : Type) := {
  stored : T;
  working : option T
}.

Arguments stored {T} _.
Arguments working {T} _.

Definition connect {T : Type} (db : T) : connection T :=
  {| stored := db; working := None |}.

Definition view {T : Type} (c : connection T) : T :=
  default (stored c) (working c).

(** [BEGIN TRANSACTION]; [None] stands for the exception raised. *)
Definition begin_transaction {T : Type} (c : connection T) : option (connection T) :=
  match working c with
  | Some _ => None
  | None => Some {| stored := stored c; working := Some (stored c) |}
  end.

(** [PRAGMA synchronous = ...]: SQLite refuses to change the safety level
    inside a transaction. *)
Definition pragma_synchronous {T : Type} (c : connection T)
  : option (connection T) :=
  match working c with
  | Some _ => None
  | None => Some c
  end.

(** [PRAGMA journal_mode], [cache_size] and [temp_store]: no error, no
    change to the rows. *)
Definition pragma_setting {T : Type} (c : connection T) : option (connection T) :=
  Some c.

(** A statement that writes rows: it runs inside the open transaction, or
    opens one; [write] gives the new state, or [None] when the statement
    raises. *)
Definition execute_write {T : Type} (write : T -> option T) (c : connection T)
  : option (connection T) :=
  match write (view c) with
  | Some t => Some {| stored := stored c; working := Some t |}
  | None => None
  end.

Definition commit {T : Type} (c : connection T) : connection T :=
  {| stored := view c; working := None |}.

End Sqlite.

(** ** 台灣期交所專用資料擷取器: [FinancialDatabase], table [options_raw] *)

Module FinancialDatabase.

Import Sql.

(** A row of [options_raw] without the surrogate [id] and the
    [created_at] stamp, which no statement of the module changes in a
    stored row; column values are taken after the conversion to the
    column's declared type. *)
Record options_row := {
  product : pyval;
  trade_date : pyval;
  expiry : pyval;
  strike : pyval;
  cp : pyval;
  volume : pyval;
  oi : pyval;
  raw_oi_text : pyval;
  session : pyval;
  load_file : pyval
}.

#[export] Instance options_row_eq_dec : EqDecision options_row.
Proof. solve_decision. Defined.

(** The table, oldest row first. *)
Abbreviation table := (list options_row) (only parsing).

(** [UNIQUE(trade_date, product, expiry, strike, cp, session)] *)
Definition unique_key (r : options_row) : list pyval :=
  [trade_date r; product r; expiry r; strike r; cp r; session r].

(** The [NOT NULL] and [CHECK] constraints of the table; a [CHECK] on a
    NULL value is not violated. *)
Definition constraints_ok (r : options_row) : bool :=
  not_null (product r) && not_null (trade_date r) && not_null (expiry r)
  && not_null (strike r) && not_null (cp r)
  && bool_decide (cp r ∈ [PStr (U "C"); PStr (U "P")])
  && bool_decide (session r ∈ [PNone; PStr (U "regular"); PStr (U "after_hours")]).

(** Two rows collide on the uniqueness constraint when their keys are
    equal and hold no NULL: NULLs are distinct from each other. *)
Definition collides (r old : options_row) : bool :=
  bool_decide (unique_key r = unique_key old) && forallb not_null (unique_key r).

(** [INSERT OR IGNORE INTO options_raw ...] for one parameter tuple. *)
Definition insert_or_ignore (tbl : table) (r : options_row) : table :=
  if constraints_ok r && negb (existsb (collides r) tbl)
  then tbl ++ [r] else tbl.

(** The parameter tuple built from one dict of [options_list]; a missing
    required key raises [KeyError]. *)
Definition data_tuple (opt : gmap string pyval) : option options_row :=
  p ← opt !! "product";
  d ← opt !! "trade_date";
  e ← opt !! "expiry";
  k ← opt !! "strike";
  c ← opt !! "cp";
  Some {| product := p; trade_date := d; expiry := e; strike := k; cp := c;
          volume := default (PInt 0) (opt !! "volume");
          oi := default PNone (opt !! "oi");
          raw_oi_text := default PNone (opt !! "raw_oi_text");
          session := default (PStr (U "regular")) (opt !! "session");
          load_file := default PNone (opt !! "load_file") |}.

(** [batch_insert_options_fast(options_list)]: the table after the call
    and the returned count.  The statements run in the order of the
    source inside [try]; an exception anywhere leaves the [except] branch
    to return 0, and the connection is dropped without a commit. *)
Definition batch_insert_options_fast (tbl : table)
    (options_list : list (gmap string pyval)) : table * nat :=
  match options_list with
  | [] => (tbl, 0)
  | _ =>
    let attempt :=
      conn ← Sqlite.begin_transaction (Sqlite.connect tbl);
      conn ← Sqlite.pragma_synchronous conn;
      conn ← Sqlite.pragma_setting conn;
      conn ← Sqlite.pragma_setting conn;
      conn ← Sqlite.pragma_setting conn;
      data_tuples ← mapM data_tuple options_list;
      let before := Sqlite.view conn in
      conn ← Sqlite.execute_write
               (fun t => Some (foldl insert_or_ignore t data_tuples)) conn;
      Some (Sqlite.commit conn, length (Sqlite.view conn) - length before) in
    match attempt with
    | Some (conn, affected_rows) => (Sqlite.stored conn, affected_rows)
    | None => (tbl, 0)
    end
  end.

(** The dict [_import_as_options] builds from one row of the chunk, a row
    being the map from column label to cell value; [today] is what
    [datetime.now().strftime('%Y-%m-%d')] gives when the row is read. *)
Definition option_dict (today filename : pystr) (row : gmap string pyval)
  : gmap string pyval :=
  list_to_map
    [("product", default (PStr (U "TXO")) (row !! "product"));
     ("trade_date", default (PStr today) (row !! "trade_date"));
     ("expiry", default (PStr []) (row !! "expiry"));
     ("strike", default (PInt 0) (row !! "strike"));
     ("cp", default (PStr (U "C")) (row !! "cp"));
     ("volume", default (PInt 0) (row !! "volume"));
     ("oi", default PNone (row !! "oi"));
     ("raw_oi_text", default (PStr []) (row !! "raw_oi_text"));
     ("load_file", PStr filename)].

(** [_import_as_options(chunk_df, filename)]; [now i] is the date read
    from the clock at row [i]. *)
Definition _import_as_options (now : nat -> pystr) (filename : pystr) (tbl : table)
    (chunk_rows : list (gmap string pyval)) : table * nat :=
  batch_insert_options_fast tbl
    (imap (fun i row => option_dict (now i) filename row) chunk_rows).

End FinancialDatabase.

(** ** txo_downloader.py: table [txo_options] *)

Module Downloader.

Import Sql.

(** A row of the cleaned frame: the key columns, the contract type and
    the measure columns in frame order. *)
Record txo_row := {
  trade_date : pyval;
  contract_type : pyval;
  expiry_date : pyval;
  strike_price : pyval;
  option_type : pyval;
  measures : list pyval
}.

#[export] Instance txo_row_eq_dec : EqDecision txo_row.
Proof. solve_decision. Defined.

(** [UNIQUE(trade_date, expiry_date, strike_price, option_type)] *)
Definition unique_key (r : txo_row) : list pyval :=
  [trade_date r; expiry_date r; strike_price r; option_type r].

Definition constraints_ok (r : txo_row) : bool :=
  not_null (trade_date r) && not_null (contract_type r)
  && not_null (expiry_date r) && not_null (strike_price r)
  && not_null (option_type r).

(** A stored row: the frame row with the [id] given by AUTOINCREMENT
    and the [created_time] given by [DEFAULT CURRENT_TIMESTAMP]. *)
Record stored_row := {
  id : Z;
  created_time : pystr;
  data : txo_row
}.

#[export] Instance stored_row_eq_dec : EqDecision stored_row.
Proof. solve_decision. Defined.

(** The table, oldest row first, and [sqlite_sequence]: the largest [id]
    given so far. *)
Record database := {
  rows : list stored_row;
  sequence : Z
}.

#[export] Instance database_eq_dec : EqDecision database.
Proof. solve_decision. Defined.

(** AUTOINCREMENT: one more than the largest [id] that ever existed,
    that is the larger of [sqlite_sequence] and the largest [id] in the
    table. *)
Definition last_id (db : database) : Z :=
  foldr Z.max (sequence db) (id <$> rows db).

Definition next_id (db : database) : Z := last_id db + 1.

(** A plain [INSERT] of one frame row at time [now]: a violated
    constraint raises. *)
Definition insert (now : pystr) (db : database) (r : txo_row) : option database :=
  if constraints_ok r
     && negb (existsb (fun old => bool_decide (unique_key r = unique_key (data old)))
                      (rows db))
  then Some {| rows := rows db ++ [{| id := next_id db; created_time := now;
                                      data := r |}];
               sequence := next_id db |}
  else None.

(** [df.to_sql('txo_options', conn, if_exists='append', index=False)]:
    one [INSERT] per frame row, [clock k] being the time of the [k]-th. *)
Fixpoint to_sql (clock : nat -> pystr) (k : nat) (db : database) (df : list txo_row)
  : option database :=
  match df with
  | [] => Some db
  | r :: rest =>
    match insert (clock k) db r with
    | Some db' => to_sql clock (S k) db' rest
    | None => None
    end
  end.

(** [DELETE FROM txo_options WHERE trade_date = ?] *)
Definition delete_date (d : pyval) (db : database) : database :=
  {| rows := filter (fun r => trade_date (data r) <> d) (rows db);
     sequence := sequence db |}.

(** [date.replace('/', '-')] *)
Definition dashed (date : pystr) : pystr :=
  (fun c => if (c =? 47)%N then 45%N else c) <$> date.

(** [保存到數據庫(df, date)]: the database after the call and the returned
    flag.  The rows of the date are deleted and the frame is appended in
    one transaction, which is committed; an exception rolls everything
    back. *)
Definition 保存到數據庫 (clock : nat -> pystr) (db : database)
    (df : list txo_row) (date : pystr) : database * bool :=
  match df with
  | [] => (db, false)
  | _ =>
    let attempt :=
      conn ← Sqlite.execute_write
               (fun t => Some (delete_date (PStr (dashed date)) t))
               (Sqlite.connect db);
      conn ← Sqlite.execute_write (fun t => to_sql clock 0 t df) conn;
      Some (Sqlite.commit conn) in
    match attempt with
    | Some conn => (Sqlite.stored conn, true)
    | None => (db, false)
    end
  end.

End Downloader.


(** ** Vocabulary of the statements *)

Module Spec.

(** [p] is the largest element of [l]. *)
Definition is_max_of (l : list Qc) (p : Qc) : Prop :=
  p ∈ l /\ forall x, x ∈ l -> (x <= p)%Qc.

(** [p] is the running peak of the curve at position [i]: the largest
    equity value at or before [i], the initial equity included. *)
Definition running_peak_at (curve : list Qc) (i : nat) (p : Qc) : Prop :=
  is_max_of (take (S i) curve) p.

(** [dd] is the drawdown of the curve at position [i]:
    (running peak - equity) / running peak. *)
Definition drawdown_at (curve : list Qc) (i : nat) (dd : Qc) : Prop :=
  exists e p, curve !! i = Some e /\ running_peak_at curve i p
              /\ dd = ((p - e) / p)%Qc.

(** [k] occurs in [t] as a substring. *)
Definition substring (k t : pystr) : Prop := exists pre post, t = pre ++ k ++ post.

(** The line, cut at the delimiter, has for every required keyword a
    token that contains it once stripped. *)
Definition line_has_keywords {UD : UnicodeData} (delimiter ln : pystr) : Prop :=
  exists pieces, split delimiter ln = Some pieces /\
    forall k, k ∈ DataLoader.keywords ->
      exists t, t ∈ pieces /\ substring k (strip t).

(** The session of a contract: its trading day, strike and call/put. *)
Definition session_key (r : Frame.agg_row) : Z * Z * pystr :=
  (Frame.Date r, Frame.Strike r, Frame.CP r).

(** [q] is an earlier session of the contract of [r]. *)
Definition earlier_session (q r : Frame.oi_row) : Prop :=
  Frame.contract (Frame.base q) = Frame.contract (Frame.base r) /\
  (Frame.Date (Frame.base q) < Frame.Date (Frame.base r))%Z.

#[export] Instance earlier_session_dec : RelDecision earlier_session.
Proof. intros q r. unfold earlier_session. apply _. Defined.

(** In the frame [out], [p] is the session of the contract of [r] that
    immediately precedes [r]: an earlier session of the same (strike,
    call/put) with no other session of that contract in between. *)
Definition previous_session (out : list Frame.oi_row) (p r : Frame.oi_row) : Prop :=
  p ∈ out /\ earlier_session p r /\
  forall q, q ∈ out -> earlier_session q r ->
            (Frame.Date (Frame.base q) <= Frame.Date (Frame.base p))%Z.

(** The open interest the cleaned rows of the loader report for one
    session, summed. *)
Definition loader_session_OI (df2 : list DataLoader.clean_row) (k : Z * Z * pystr) : Z :=
  Frame.sum_Z (DataLoader.c_OI <$> filter (fun x => DataLoader.group_key x = k) df2).

(** The same for the database frame, over the rows of the selected
    trading session, NaN counted as 0. *)
Definition db_session_OI (df : list TxoDbUi.db_row) (k : Z * Z * pystr) : Z :=
  Frame.sum_Z (TxoDbUi.OI_for_calc (TxoDbUi.has_nan df)
                 <$> filter (fun x => TxoDbUi.group_key x = k) (TxoDbUi.select_session df)).


(** The number of keywords of [indicators] that occur, as whole cells and
    after lowercasing, among the cells of [header]. *)
Definition indicator_hits {UD : UnicodeData} (indicators : list pystr)
    (header : list Extractor.cell) : nat :=
  length (filter (fun k => k ∈ (fun col => lower (Extractor.str col)) <$> header)
                 indicators).

(** The first data row of a chunk, [[]] when the chunk has none. *)
Definition first_data_row (chunk_df : Extractor.chunk) : list Extractor.cell :=
  default [] (head (Extractor.rows chunk_df)).

(** Text made of ASCII characters and CJK ideographs only; on such text
    every Unicode version agrees with the restricted tables. *)
Definition basic_text (s : pystr) : Prop := Forall (fun c => basic c = true) s.

Definition basic_cells (l : list Extractor.cell) : Prop :=
  Forall (fun c => basic_text (Extractor.str c)) l.

(** The first character of [l], if any, is outside the class [p]. *)
Definition head_outside (p : codepoint -> bool) (l : pystr) : Prop :=
  match l with
  | [] => True
  | c :: _ => p c = false
  end.

(** The text [pre ++ ds ++ ls ++ ws ++ name ++ rest] holds the symbol
    pattern at its leftmost possible place: [pre] is empty or ends with a
    whitespace character and has no decimal digit; [ds] is 3 to 6 decimal
    digits, [ls] ASCII letters; [ws] is one or more whitespace characters;
    [name] is one or more CJK ideographs, not continued in [rest]. *)
Record symbol_occurrence {UD : UnicodeData}
    (pre ds ls ws name rest : pystr) : Prop := {
  occ_boundary : pre = [] \/ exists p c, pre = p ++ [c] /\ isspace c = true;
  occ_leftmost : Forall (fun c => isdecimal c = false) pre;
  occ_digits : Forall (fun c => isdecimal c = true) ds;
  occ_digit_count : (3 <= length ds <= 6)%nat;
  occ_letters : Forall (fun c => is_ascii_letter c = true) ls;
  occ_space : ws <> [] /\ Forall (fun c => isspace c = true) ws;
  occ_name : name <> [] /\ Forall (fun c => is_cjk c = true) name;
  occ_name_end : head_outside is_cjk rest
}.

(** [z] is stored in a [float64] column without rounding. *)
Definition exact_in_float64 (z : Z) : Prop := Numpy.float64_of_int z = z.

(** [sqlite_sequence] has recorded the [id] of every row of the table,
    as it has in a table that only [INSERT] and [DELETE] have touched. *)
Definition sequence_covers (db : Downloader.database) : Prop :=
  Forall (fun r => (Downloader.id r <= Downloader.sequence db)%Z) (Downloader.rows db).

End Spec.


(** ** Auxiliary definitions of the proofs *)

Module Aux.

Section WithTables.
Context {UD : UnicodeData}.

(** The test made on one line by the loop. *)
Definition line_check (delimiter ln : pystr) : bool :=
  match split delimiter ln with
  | Some pieces => DataLoader.has_keywords (strip <$> pieces)
  | None => false
  end.

End WithTables.

(** One update of the running peak in [calculate_max_drawdown]. *)
Definition peak_step (peak equity : Qc) : Qc :=
  if bool_decide (peak < equity)%Qc then equity else peak.

(** Rows of one contract appear in the frame in strictly increasing date
    order. *)
Definition chron (a b : Frame.agg_row) : Prop :=
  Frame.contract a = Frame.contract b -> (Frame.Date a < Frame.Date b)%Z.

(** The grouping step of both aggregators. *)
Definition grouped {R : Type} (key : R -> Z * Z * pystr) (oi : R -> Z)
    (txt : list R -> pystr) (rows : list R) : list Frame.agg_row :=
  Pandas.groupby_agg key
    (fun k g => {| Frame.Date := k.1.1; Frame.Strike := k.1.2; Frame.CP := k.2;
                   Frame.OI := Numpy.int64_sum (oi <$> g);
                   Frame.orig_OI_str := txt g |})
    rows.

End Aux.

(** ** Further statement vocabulary *)

Module Pairing.
Import Backtest.

(** [trades] has an entry immediately followed by an exit at the positions
    [2 i] and [2 i + 1]. *)
Definition aligned_pair (trades : list trade) : Prop :=
  exists (i : nat) e x, trades !! (2 * i)%nat = Some e /\
    trades !! (2 * i + 1)%nat = Some x /\
    t_type e = "entry" /\ t_type x = "exit".

(** The curve never falls: a later point is never below an earlier one. *)
Definition never_falls (curve : list Qc) : Prop :=
  forall (i j : nat) a b, (i <= j)%nat -> curve !! i = Some a -> curve !! j = Some b ->
    (a <= b)%Qc.

End Pairing.

Module Matching.
Import Text Extractor.

(** The text [pre ++ ds ++ ls ++ ws ++ name ++ rest] matches the symbol
    pattern at [ds]: [pre] is empty or ends with a whitespace character;
    [ds] is 3 to 6 decimal digits, [ls] ASCII letters, [ws] one or more
    whitespace characters and [name] one or more CJK ideographs, not
    continued in [rest]. *)
Record pattern_match {UD : UnicodeData}
    (pre ds ls ws name rest : pystr) : Prop := {
  pm_boundary : pre = [] \/ exists p c, pre = p ++ [c] /\ isspace c = true;
  pm_digits : Forall (fun c => isdecimal c = true) ds;
  pm_digit_count : (3 <= length ds <= 6)%nat;
  pm_letters : Forall (fun c => is_ascii_letter c = true) ls;
  pm_space : ws <> [] /\ Forall (fun c => isspace c = true) ws;
  pm_name : name <> [] /\ Forall (fun c => is_cjk c = true) name;
  pm_name_end : match rest with [] => True | c :: _ => is_cjk c = false end
}.

(** The match of [s] at [ds] is the leftmost one: no match of the
    pattern in [s] starts before it. *)
Definition leftmost_match {UD : UnicodeData}
    (s pre ds ls ws name rest : pystr) : Prop :=
  s = pre ++ ds ++ ls ++ ws ++ name ++ rest /\
  pattern_match pre ds ls ws name rest /\
  forall pre' ds' ls' ws' name' rest',
    s = pre' ++ ds' ++ ls' ++ ws' ++ name' ++ rest' ->
    pattern_match pre' ds' ls' ws' name' rest' ->
    (length pre <= length pre')%nat.

(** Trying the pattern at each of the first [n] positions of [s] gives no
    success. *)
Definition no_match_before {UD : UnicodeData} (s : pystr) (n : nat) : bool :=
  forallb (fun i => match match_here (i =? 0)%nat (drop i s) with
                    | Some _ => false
                    | None => true
                    end) (seq 0 n).

(** What a returned symbol record says about the cell [s] it was read
    from: the cell matches the pattern, the symbol is the code (digits then
    letters, 4 to 6 characters in all) and the name the ideographs. *)
Definition read_from {UD : UnicodeData} (s : pystr) (info : symbol_info) : Prop :=
  exists pre ds ls ws rest,
    s = pre ++ ds ++ ls ++ ws ++ chinese_name info ++ rest /\
    symbol info = ds ++ ls /\
    pattern_match pre ds ls ws (chinese_name info) rest /\
    (4 <= length (symbol info) <= 6)%nat.

(** The cell yields a symbol: it is a string in which the leftmost match
    of the pattern has a valid code. *)
Definition yields {UD : UnicodeData} (c : cell) : bool :=
  match c with
  | CStr s =>
    match re_search s with
    | Some (g1, _) => _is_valid_tw_stock_symbol (strip g1)
    | None => false
    end
  | CObj _ => false
  end.

(** A character of a plain number: a decimal digit, [,], [-] or [.]. *)
Definition numeric_char (c : codepoint) : bool :=
  ascii_digit c || (c =? 44)%N || (c =? 45)%N || (c =? 46)%N.

(** The text of a plain number: such characters only, one digit at least. *)
Definition numeric_text (s : pystr) : bool :=
  forallb numeric_char s && existsb ascii_digit s.

Definition numeric_cells (row : list cell) : Prop :=
  Forall (fun c => numeric_text (str c) = true) row.

(** No keyword of the list starts with a character of a plain number. *)
Definition foreign_to_numbers (kws : list pystr) : bool :=
  forallb (fun kw => match kw with
                     | c :: _ => negb (numeric_char c)
                     | [] => false
                     end) kws.

End Matching.

(** ** txo_downloader.py: the text clean-up of the numeric columns *)

Module Cleaning.
Import Text.

(** [s.replace(old, new)] for a non-empty [old]: the occurrences are
    replaced from left to right without overlap; [skip] counts the
    characters of the current occurrence still to pass over. *)
Fixpoint replace_go (old new : pystr) (skip : nat) (s : pystr) : pystr :=
  match s with
  | [] => []
  | c :: r =>
    match skip with
    | S k => replace_go old new k r
    | O => if startswith old s
           then new ++ replace_go old new (length old - 1) r
           else c :: replace_go old new 0 r
    end
  end.

Definition str_replace (old new s : pystr) : pystr := replace_go old new 0 s.

(** The chain of [str.replace] calls applied to a text cell of a numeric
    column by [清洗轉換數據], before [pd.to_numeric]. *)
Definition clean_numeric_text (s : pystr) : pystr :=
  let s := str_replace (U ",") [] s in
  let s := str_replace (U "▼") (U "-") s in
  let s := str_replace (U "▲") [] s in
  let s := str_replace (U "%") [] s in
  let s := str_replace (U " ") [] s in
  let s := str_replace (U "--") [] s in
  str_replace (U "-") [] s.

(** The characters the chain takes out: [,], the two direction marks,
    [%], the space and [-]. *)
Definition dropped_chars : list codepoint := [44; 9660; 9650; 37; 32; 45]%N.

End Cleaning.

(** ** Further sample inputs *)

Module MoreSamples.
Import Text Extractor.

(** A header row whose second cell names a stock. *)
Definition named_row : list cell := [CStr (U "日期"); CStr (U "2330 台積電")].

Definition named_info : symbol_info :=
  {| symbol := U "2330"; chinese_name := U "台積電";
     found_in := "header"; column_index := 1;
     original_text := Some (U "2330 台積電") |}.

(** A file with a one-word header and a first data row of numbers. *)
Definition priced_chunk : chunk :=
  {| columns := [CStr (U "date"); CStr (U "close")];
     rows := [[CObj (U "20240102"); CObj (U "593.0")];
              [CObj (U "20240103"); CObj (U "-1,578.5")]] |}.

End MoreSamples.


(** ** Concrete inputs used to evaluate the definitions *)

Module Samples.

(** A losing long trade followed by a winning short trade. *)
Definition sample_trades : list Backtest.trade :=
  [ {| Backtest.t_type := "entry"; Backtest.t_position := "long";
       Backtest.t_price := Q2Qc 100 |};
    {| Backtest.t_type := "exit"; Backtest.t_position := "long";
       Backtest.t_price := Q2Qc 90 |};
    {| Backtest.t_type := "entry"; Backtest.t_position := "short";
       Backtest.t_price := Q2Qc 95 |};
    {| Backtest.t_type := "exit"; Backtest.t_position := "short";
       Backtest.t_price := Q2Qc 80 |} ].

(** An exchange export: a title line, the header line, one data line. *)
Definition sample_title : pystr := U "臺灣期貨交易所 選擇權每日交易行情".
Definition sample_header : pystr :=
  U "交易日期, 契約, 到期月份(週別), 履約價, 買賣權, 未沖銷契約數".
Definition sample_data : list pystr := [U "2024/01/02,TXO,202401,17000,買權,1200"].
Definition sample_lines : list pystr := sample_title :: sample_header :: sample_data.

(** Cleaned loader rows: three sessions of the 17000 call interleaved with
    two sessions of the 17000 put and one of the 17100 call; the second
    call session is reported on two rows. *)
Definition loader_row (d k : Z) (c : string) (o : Z) : DataLoader.clean_row :=
  {| DataLoader.c_Date := d; DataLoader.c_Strike := k; DataLoader.c_CP := U c;
     DataLoader.c_OI := o; DataLoader.c_orig_OI_str := U "-" |}.

Definition sample_df2 : list DataLoader.clean_row :=
  [ loader_row 2 17000 "買權" 300; loader_row 1 17000 "賣權" 50;
    loader_row 3 17000 "買權" 450; loader_row 1 17000 "買權" 100;
    loader_row 2 17100 "買權" 70; loader_row 2 17000 "賣權" 10;
    loader_row 2 17000 "買權" 20 ]%Z.

Definition frame_row (d k : Z) (c : string) (o : pystr * (Z * Z * Z * Z * Z))
  : Frame.oi_row :=
  let '(t, (oi, p1, p2, d1, d2)) := o in
  {| Frame.base := {| Frame.Date := d; Frame.Strike := k; Frame.CP := U c;
                      Frame.OI := oi; Frame.orig_OI_str := t |};
     Frame.OI_prev1 := p1; Frame.OI_prev2 := p2;
     Frame.delta_1 := d1; Frame.delta_2 := d2 |}.

(** Rows of the loader's frame for [sample_df2]: the three call sessions. *)
Definition loader_call_1 : Frame.oi_row :=
  frame_row 1 17000 "買權" (U "-", (100, 0, 0, 100, 100))%Z.
Definition loader_call_2 : Frame.oi_row :=
  frame_row 2 17000 "買權" (U "-|-", (320, 100, 0, 220, 320))%Z.
Definition loader_call_3 : Frame.oi_row :=
  frame_row 3 17000 "買權" (U "-", (450, 320, 100, 130, 350))%Z.

(** The same data as it comes from the database, regular session, with
    an after-hours row that the session filter leaves out. *)
Definition db_row (d k : Z) (c : string) (o : option Z) (sess : string)
  : TxoDbUi.db_row :=
  {| TxoDbUi.d_date := d; TxoDbUi.d_strike := k; TxoDbUi.d_cp := U c;
     TxoDbUi.d_oi := o; TxoDbUi.d_orig_OI_str := U "-";
     TxoDbUi.d_session := U sess |}.

Definition sample_df : list TxoDbUi.db_row :=
  [ db_row 2 17000 "買權" (Some 300) "一般"; db_row 1 17000 "賣權" (Some 50) "一般";
    db_row 3 17000 "買權" (Some 450) "一般"; db_row 1 17000 "買權" (Some 100) "一般";
    db_row 2 17100 "買權" None "一般"; db_row 2 17000 "賣權" (Some 10) "一般";
    db_row 2 17000 "買權" (Some 20) "一般"; db_row 2 17000 "買權" (Some 999) "盤後" ]%Z.

Definition db_call_1 : Frame.oi_row :=
  frame_row 1 17000 "買權" (U "-", (100, 0, 0, 100, 100))%Z.
Definition db_call_2 : Frame.oi_row :=
  frame_row 2 17000 "買權" (U "-", (320, 100, 0, 220, 320))%Z.
Definition db_call_3 : Frame.oi_row :=
  frame_row 3 17000 "買權" (U "-", (450, 320, 100, 130, 350))%Z.



(** Header cells from literals. *)
Definition cells (l : list string) : list Extractor.cell :=
  (fun s => Extractor.CStr (U s)) <$> l.

(** A file whose first line scores 4 and whose second line scores 6. *)
Definition weak_header_chunk : Extractor.chunk :=
  {| Extractor.columns := cells ["date"; "price"];
     Extractor.rows := [cells ["open"; "close"]; cells ["1"; "2"]] |}.

Definition option_header : list Extractor.cell :=
  cells ["履約價"; "買賣權"; "到期月份"].
Definition stock_header : list Extractor.cell :=
  cells ["open"; "high"; "low"; "close"; "volume"].

(** Option and stock keywords in one header. *)
Definition mixed_header : list Extractor.cell :=
  cells ["Strike"; "CP"; "Open"; "High"; "Low"; "Close"; "Volume"].

(** Downloader rows of one trade date: the stored row and a revised
    download of the same contract. *)
Definition txo (date : string) (strike oi : Z) : Downloader.txo_row :=
  {| Downloader.trade_date := Sql.PStr (U date);
     Downloader.contract_type := Sql.PStr (U "TXO");
     Downloader.expiry_date := Sql.PStr (U "202401");
     Downloader.strike_price := Sql.PInt strike;
     Downloader.option_type := Sql.PStr (U "Call");
     Downloader.measures := [Sql.PInt oi] |}.

Definition stored (i : Z) (stamp : string) (r : Downloader.txo_row)
  : Downloader.stored_row :=
  {| Downloader.id := i; Downloader.created_time := U stamp; Downloader.data := r |}.

(** A database holding one contract on two trade dates. *)
Definition stored_db : Downloader.database :=
  {| Downloader.rows := [stored 1 "2024-01-02 14:00:00" (txo "2024-01-02" 17000 1200);
                         stored 2 "2024-01-03 14:00:00" (txo "2024-01-03" 17000 1300)];
     Downloader.sequence := 2 |}.

(** A later download of the first date, with another open interest. *)
Definition revised_frame : list Downloader.txo_row :=
  [txo "2024-01-02" 17000 1250].


Definition evening (k : nat) : pystr := U "2024-01-04 19:00:00".



(** Two sessions of one contract with open interest just above 2^53. *)
Definition big_df2 : list DataLoader.clean_row :=
  [ loader_row 1 17000 "買權" 9007199254740993;
    loader_row 2 17000 "買權" 9007199254740994 ]%Z.

Definition big_day_1 : Frame.oi_row :=
  frame_row 1 17000 "買權"
    (U "-", (9007199254740993, 0, 0, 9007199254740993, 9007199254740993))%Z.
Definition big_day_2 : Frame.oi_row :=
  frame_row 2 17000 "買權"
    (U "-", (9007199254740994, 9007199254740992, 0, 2, 9007199254740994))%Z.

(** Two rows of one session, each at the top of the [int64] range. *)
Definition wide_df2 : list DataLoader.clean_row :=
  [ loader_row 1 17000 "買權" 9223372036854775807;
    loader_row 1 17000 "買權" 9223372036854775807 ]%Z.

Definition wide_day_1 : Frame.oi_row :=
  frame_row 1 17000 "買權" (U "-|-", (-2, 0, 0, -2, -2))%Z.

End Samples.

(* ================================================================== *)
(** * Part II: lemmas and theorems *)
(* ================================================================== *)

Import BasicTables Aux.

(** Decidable closed facts are settled by evaluation. *)
Ltac by_compute := apply (bool_decide_unpack _); vm_compute; exact I.

(** A bounded quantification over a concrete list, as a [Forall]. *)
Ltac over_list := refine (proj1 (Forall_forall _ _) _).

(** Membership in a list written out, and its inversion. *)
Ltac elem := repeat first [ apply list_elem_of_here | apply list_elem_of_further ].
Ltac elem_inv H :=
  repeat first
    [ apply elem_of_cons in H as [H|H]
    | apply elem_of_nil in H; destruct H ].


(** ** Alert levels *)

Section AlertLevels.
Local Open Scope Z_scope.

Lemma detect_alert_level_cases (d : Z) :
  (Z.abs d < 400 /\ Charting.detect_alert_level d = None) \/
  (400 <= Z.abs d < 800 /\ Charting.detect_alert_level d = Some "大單") \/
  (800 <= Z.abs d < 1200 /\ Charting.detect_alert_level d = Some "重大布局") \/
  (1200 <= Z.abs d /\ Charting.detect_alert_level d = Some "極端").
Proof.
  unfold Charting.detect_alert_level.
  destruct (Z.leb_spec 1200 (Z.abs d)); [by auto 6|].
  destruct (Z.leb_spec 800 (Z.abs d)); [by auto 6|].
  destruct (Z.leb_spec 400 (Z.abs d)); [by auto 6|by auto].
Qed.

Lemma anomaly_level_cases (d : Z) :
  (Z.abs d < 400 /\ TxoDbUi.anomaly_level d = None) \/
  (400 <= Z.abs d < 800 /\ TxoDbUi.anomaly_level d = Some "大單") \/
  (800 <= Z.abs d < 1200 /\ TxoDbUi.anomaly_level d = Some "重大") \/
  (1200 <= Z.abs d /\ TxoDbUi.anomaly_level d = Some "極端").
Proof.
  unfold TxoDbUi.anomaly_level, TxoDbUi.ANOM_THRESH_extreme,
    TxoDbUi.ANOM_THRESH_major, TxoDbUi.ANOM_THRESH_big_order. simpl.
  destruct (Z.leb_spec 1200 (Z.abs d)); [by auto 6|].
  destruct (Z.leb_spec 800 (Z.abs d)); [by auto 6|].
  destruct (Z.leb_spec 400 (Z.abs d)); [by auto 6|by auto].
Qed.

(** C2: for every integer delta [d] both detectors assign the level from
    [|d|] alone: none below 400, "大單" (large order) on [400, 800),
    "重大布局" / "重大" (major) on [800, 1200) and "極端" (extreme) from
    1200 on; in particular 1200 is extreme and 799 is a large order. *)
Theorem alert_level_thresholds (d : Z) :
  (Charting.detect_alert_level d = None <-> Z.abs d < 400) /\
  (Charting.detect_alert_level d = Some "大單" <-> 400 <= Z.abs d < 800) /\
  (Charting.detect_alert_level d = Some "重大布局" <-> 800 <= Z.abs d < 1200) /\
  (Charting.detect_alert_level d = Some "極端" <-> 1200 <= Z.abs d) /\
  (TxoDbUi.anomaly_level d = None <-> Z.abs d < 400) /\
  (TxoDbUi.anomaly_level d = Some "大單" <-> 400 <= Z.abs d < 800) /\
  (TxoDbUi.anomaly_level d = Some "重大" <-> 800 <= Z.abs d < 1200) /\
  (TxoDbUi.anomaly_level d = Some "極端" <-> 1200 <= Z.abs d) /\
  Charting.detect_alert_level 1200 = Some "極端" /\
  TxoDbUi.anomaly_level 1200 = Some "極端" /\
  Charting.detect_alert_level 799 = Some "大單" /\
  TxoDbUi.anomaly_level 799 = Some "大單".
Proof.
  pose proof (detect_alert_level_cases d) as Hc.
  pose proof (anomaly_level_cases d) as Ha.
  repeat apply conj; try reflexivity; intros Hx.
  all: destruct Hc as [[? Hc]|[[? Hc]|[[? Hc]|[? Hc]]]].
  all: destruct Ha as [[? Ha]|[[? Ha]|[[? Ha]|[? Ha]]]].
  all: first [ lia | exact Hc | exact Ha
             | rewrite Hc in Hx; discriminate
             | rewrite Ha in Hx; discriminate ].
Qed.

End AlertLevels.

(** ** Maximum drawdown *)

Section Drawdown.
Import Backtest Spec Samples.

Lemma Qc_lt_irrefl (x : Qc) : ~ (x < x)%Qc.
Proof. intros H. exact (Qclt_not_le _ _ H (Qcle_refl _)). Qed.

Lemma is_max_of_unique l p q : is_max_of l p -> is_max_of l q -> p = q.
Proof.
  intros [Hp Hpm] [Hq Hqm]. apply Qcle_antisym; auto.
Qed.

Lemma peak_step_cases peak e :
  (peak_step peak e = peak \/ peak_step peak e = e) /\
  (peak <= peak_step peak e)%Qc /\ (e <= peak_step peak e)%Qc.
Proof.
  unfold peak_step. case_bool_decide as Hlt.
  - split; [by right|]. split; [by apply Qclt_le_weak|apply Qcle_refl].
  - split; [by left|]. split; [apply Qcle_refl|by apply Qcnot_lt_le].
Qed.

Lemma peak_step_max peak e : is_max_of [peak; e] (peak_step peak e).
Proof.
  destruct (peak_step_cases peak e) as ([->| ->] & H1 & H2).
  - split; [elem|]. intros x Hx. elem_inv Hx; subst; [apply Qcle_refl|done].
  - split; [elem|]. intros x Hx. elem_inv Hx; subst; [done|apply Qcle_refl].
Qed.

Lemma is_max_of_merge peak e l p :
  is_max_of (peak :: e :: l) p <-> is_max_of (peak_step peak e :: l) p.
Proof.
  destruct (peak_step_cases peak e) as (Hcase & H1 & H2).
  split; intros [Hp Hm]; split.
  - assert (peak_step peak e <= p)%Qc as Hle.
    { destruct Hcase as [-> | ->]; apply Hm; elem. }
    apply elem_of_cons in Hp as [->|Hp].
    + rewrite <- (Qcle_antisym _ _ H1 Hle). elem.
    + apply elem_of_cons in Hp as [->|Hp].
      * rewrite <- (Qcle_antisym _ _ H2 Hle). elem.
      * by apply list_elem_of_further.
  - intros x Hx. apply elem_of_cons in Hx as [->|Hx].
    + destruct Hcase as [-> | ->]; apply Hm; elem.
    + apply Hm. by do 2 apply list_elem_of_further.
  - apply elem_of_cons in Hp as [->|Hp].
    + destruct Hcase as [-> | ->]; elem.
    + by do 2 apply list_elem_of_further.
  - assert (peak_step peak e <= p)%Qc as Hle by (apply Hm; elem).
    intros x Hx. apply elem_of_cons in Hx as [->|Hx].
    + by eapply Qcle_trans.
    + apply elem_of_cons in Hx as [->|Hx].
      * by eapply Qcle_trans.
      * apply Hm. by apply list_elem_of_further.
Qed.

Lemma peak_step_pos peak e : (0 < peak)%Qc -> (0 < peak_step peak e)%Qc.
Proof.
  intros Hp. unfold peak_step. case_bool_decide; [|done].
  by eapply Qclt_trans.
Qed.

(** The loop, started with a positive peak, always returns; its result
    bounds the incoming [max_dd] and every drawdown met on the way, and is
    one of them. *)
Lemma max_drawdown_loop_spec rest : forall peak m,
  (0 < peak)%Qc ->
  exists v, max_drawdown_loop rest peak m = Some v /\
    (m <= v)%Qc /\
    (forall i e p, rest !! i = Some e ->
       is_max_of (peak :: take (S i) rest) p -> ((p - e) / p <= v)%Qc) /\
    (v = m \/ exists i e p, rest !! i = Some e /\
       is_max_of (peak :: take (S i) rest) p /\ v = ((p - e) / p)%Qc).
Proof.
  induction rest as [|e r IH]; intros peak m Hpos.
  - exists m. repeat split; [apply Qcle_refl| |by left].
    intros i e p Hi. by rewrite lookup_nil in Hi.
  - cbn [max_drawdown_loop]. fold (peak_step peak e).
    pose proof (peak_step_pos peak e Hpos) as Hpos'.
    case_bool_decide as Hz; [rewrite Hz in Hpos'; by apply Qc_lt_irrefl in Hpos'|].
    set (dd := ((peak_step peak e - e) / peak_step peak e)%Qc).
    set (m' := if bool_decide (m < dd)%Qc then dd else m).
    assert (m <= m')%Qc as Hm1.
    { unfold m'. case_bool_decide; [by apply Qclt_le_weak|apply Qcle_refl]. }
    assert (dd <= m')%Qc as Hm2.
    { unfold m'. case_bool_decide; [apply Qcle_refl|by apply Qcnot_lt_le]. }
    destruct (IH (peak_step peak e) m' Hpos') as (v & Hv & Hle & Hub & Hat).
    exists v. split; [exact Hv|]. split; [by eapply Qcle_trans|]. split.
    + intros [|i] e' p Hi Hp.
      * simpl in Hi. injection Hi as <-. simpl in Hp. rewrite take_0 in Hp.
        rewrite (is_max_of_unique _ _ _ Hp (peak_step_max peak e)).
        fold dd. by eapply Qcle_trans.
      * simpl in Hi. eapply Hub; [exact Hi|].
        apply is_max_of_merge. exact Hp.
    + destruct Hat as [->|(i & e' & p & Hi & Hp & ->)].
      * unfold m'. case_bool_decide; [|by left].
        right. exists 0%nat, e, (peak_step peak e).
        split; [done|]. split; [|done].
        simpl. rewrite take_0. apply peak_step_max.
      * right. exists (S i), e', p. split; [done|]. split; [|done].
        apply is_max_of_merge. exact Hp.
Qed.

Lemma is_max_of_dup_head e l p : is_max_of (e :: e :: l) p <-> is_max_of (e :: l) p.
Proof.
  unfold is_max_of. split; intros [Hp Hm]; split.
  - apply elem_of_cons in Hp as [->|Hp]; [elem|done].
  - intros x Hx. apply Hm. by apply list_elem_of_further.
  - by apply list_elem_of_further.
  - intros x Hx. apply elem_of_cons in Hx as [->|Hx]; [apply Hm; elem|by apply Hm].
Qed.

(** On a curve that starts with a positive equity the function returns the
    largest drawdown of the curve, which is not negative. *)
Lemma calculate_max_drawdown_spec e0 r :
  (0 < e0)%Qc ->
  exists v, calculate_max_drawdown (e0 :: r) = Some v /\
    (0 <= v)%Qc /\
    (forall i dd, drawdown_at (e0 :: r) i dd -> (dd <= v)%Qc) /\
    (exists i, drawdown_at (e0 :: r) i v).
Proof.
  intros Hpos. unfold calculate_max_drawdown.
  destruct (max_drawdown_loop_spec (e0 :: r) e0 0%Qc Hpos)
    as (v & Hv & Hle & Hub & Hat).
  exists v. split; [exact Hv|]. split; [exact Hle|]. split.
  - intros i dd (e & p & Hi & Hp & ->). eapply Hub; [exact Hi|].
    unfold running_peak_at in Hp. simpl in *. by apply is_max_of_dup_head.
  - destruct Hat as [->|(i & e & p & Hi & Hp & ->)].
    + exists 0%nat, e0, e0. split; [done|]. split.
      * unfold running_peak_at, is_max_of. simpl. rewrite take_0.
        split; [elem|]. intros x Hx.
        apply list_elem_of_singleton in Hx as ->. apply Qcle_refl.
      * field. intros ->. by apply Qc_lt_irrefl in Hpos.
    + exists i, e, p. split; [done|]. split; [|done].
      unfold running_peak_at. simpl in *. by apply is_max_of_dup_head.
Qed.

Lemma initial_equity_pos : (0 < initial_equity)%Qc.
Proof. reflexivity. Qed.

(** C9: whenever the performance calculator has at least one matched
    entry/exit pair it returns a result whose equity curve starts from the
    initial equity, and the reported maximum drawdown is the largest value of
    (running peak - equity) / running peak over the positions of that curve,
    the running peak at a position being the largest equity at or before it;
    the reported value is never negative. *)
Theorem max_drawdown_is_largest_running_peak_drawdown
    (commission : Qc) (trades : list trade) :
  (2 <= length trades)%nat ->
  pair_trades commission trades initial_equity <> [] ->
  exists perf,
    calculate_performance commission trades = Some perf /\
    equity_curve perf =
      initial_equity
        :: (r_cumulative_equity <$> pair_trades commission trades initial_equity) /\
    (0 <= max_drawdown perf)%Qc /\
    (forall i dd, drawdown_at (equity_curve perf) i dd ->
                  (dd <= max_drawdown perf)%Qc) /\
    (exists i, drawdown_at (equity_curve perf) i (max_drawdown perf)).
Proof.
  intros Hlen Hrecs. unfold calculate_performance.
  destruct (Nat.ltb_spec (length trades) 2) as [Hlt|_]; [lia|].
  destruct (pair_trades commission trades initial_equity) as [|r0 recs] eqn:Hp;
    [done|].
  destruct (calculate_max_drawdown_spec initial_equity
              (r_cumulative_equity <$> r0 :: recs) initial_equity_pos)
    as (v & Hv & Hnonneg & Hub & Hat).
  change (map r_cumulative_equity (r0 :: recs))
    with (r_cumulative_equity <$> r0 :: recs).
  rewrite Hv. eexists. split; [reflexivity|]. simpl. auto.
Qed.

Lemma max_drawdown_is_largest_running_peak_drawdown_witness :
  exists perf,
    calculate_performance (Q2Qc 0) sample_trades = Some perf /\
    equity_curve perf =
      initial_equity
        :: (r_cumulative_equity <$> pair_trades (Q2Qc 0) sample_trades initial_equity) /\
    (0 <= max_drawdown perf)%Qc /\
    (forall i dd, drawdown_at (equity_curve perf) i dd ->
                  (dd <= max_drawdown perf)%Qc) /\
    (exists i, drawdown_at (equity_curve perf) i (max_drawdown perf)).
Proof.
  apply (max_drawdown_is_largest_running_peak_drawdown (Q2Qc 0) sample_trades).
  - simpl. lia.
  - vm_compute. discriminate.
Defined.

End Drawdown.

(** ** Header-row search of the robust loader *)

Section HeaderRow.
Import DataLoader Spec.
Context {UD : UnicodeData}.

Lemma startswith_spec p s : startswith p s = true <-> exists post, s = p ++ post.
Proof.
  revert s. induction p as [|a p IH]; intros s; simpl.
  - split; [intros _; by exists s|done].
  - destruct s as [|b s].
    + split; [done|intros [post Hpost]; discriminate].
    + rewrite andb_true_iff, IH, N.eqb_eq. split.
      * intros [-> [post ->]]. by exists post.
      * intros [post Hpost]. injection Hpost as -> ->. split; [done|by exists post].
Qed.

Lemma contains_spec k t : contains k t = true <-> substring k t.
Proof.
  unfold substring. induction t as [|c t IH]; simpl.
  - rewrite orb_false_r, startswith_spec. split.
    + intros [post Hpost]. by exists [], post.
    + intros (pre & post & Heq). destruct pre; [by exists post|discriminate].
  - rewrite orb_true_iff, startswith_spec, IH. split.
    + intros [[post Hpost]|(pre & post & ->)].
      * by exists [], post.
      * by exists (c :: pre), post.
    + intros (pre & post & Heq). destruct pre as [|c' pre].
      * left. by exists post.
      * right. injection Heq as -> ->. by exists pre, post.
Qed.

Lemma has_keywords_spec toks :
  has_keywords toks = true <->
  forall k, k ∈ keywords -> exists t, t ∈ toks /\ substring k t.
Proof.
  unfold has_keywords. rewrite forallb_forall. split.
  - intros Hall k Hk. apply list_elem_of_In in Hk.
    specialize (Hall k Hk). apply existsb_exists in Hall as (t & Ht & Hc).
    exists t. split; [by apply list_elem_of_In|by apply contains_spec].
  - intros Hall k Hk. apply list_elem_of_In in Hk.
    destruct (Hall k Hk) as (t & Ht & Hc).
    apply existsb_exists. exists t. split; [by apply list_elem_of_In|].
    by apply contains_spec.
Qed.

Lemma split_nonempty delimiter ln :
  delimiter <> [] -> split delimiter ln = Some (split_go delimiter 0 ln []).
Proof. by destruct delimiter. Qed.

Lemma line_check_spec delimiter ln :
  line_check delimiter ln = true <-> line_has_keywords delimiter ln.
Proof.
  unfold line_check, line_has_keywords.
  destruct (split delimiter ln) as [pieces|]; [|split; [done|by intros (? & ? & _)]].
  rewrite has_keywords_spec. split.
  - intros Hall. exists pieces. split; [done|]. intros k Hk.
    destruct (Hall k Hk) as (t & Ht & Hsub).
    apply list_elem_of_fmap in Ht as (t0 & -> & Ht0). by exists t0.
  - intros (pieces' & [= <-] & Hall) k Hk.
    destruct (Hall k Hk) as (t & Ht & Hsub).
    exists (strip t). split; [|done]. apply list_elem_of_fmap. by exists t.
Qed.

Lemma scan_lines_unfold delimiter i ln rest :
  delimiter <> [] ->
  scan_lines delimiter i (ln :: rest) =
  if line_check delimiter ln then Some i else scan_lines delimiter (S i) rest.
Proof.
  intros Hd. simpl. unfold line_check. by rewrite (split_nonempty _ _ Hd).
Qed.

Lemma scan_lines_found delimiter : delimiter <> [] ->
  forall ls i0 n ln,
  ls !! n = Some ln -> line_has_keywords delimiter ln ->
  (forall j ln', (j < n)%nat -> ls !! j = Some ln' ->
                 ~ line_has_keywords delimiter ln') ->
  scan_lines delimiter i0 ls = Some (i0 + n)%nat.
Proof.
  intros Hd. induction ls as [|l ls IH]; intros i0 n ln Hn Hln Hbefore.
  - by rewrite lookup_nil in Hn.
  - rewrite (scan_lines_unfold _ _ _ _ Hd). destruct n as [|n].
    + simpl in Hn. injection Hn as ->.
      apply line_check_spec in Hln. rewrite Hln. f_equal. lia.
    + destruct (line_check delimiter l) eqn:Hl.
      * exfalso. apply (Hbefore 0%nat l); [lia|done|by apply line_check_spec].
      * rewrite (IH (S i0) n ln Hn Hln); [f_equal; lia|].
        intros j ln' Hj Hlk. apply (Hbefore (S j) ln'); [lia|done].
Qed.

Lemma scan_lines_not_found delimiter : delimiter <> [] ->
  forall ls i0,
  (forall n ln, ls !! n = Some ln -> ~ line_has_keywords delimiter ln) ->
  scan_lines delimiter i0 ls = Some 0%nat.
Proof.
  intros Hd. induction ls as [|l ls IH]; intros i0 Hnone; [done|].
  rewrite (scan_lines_unfold _ _ _ _ Hd).
  destruct (line_check delimiter l) eqn:Hl.
  - exfalso. apply (Hnone 0%nat l); [done|by apply line_check_spec].
  - apply IH. intros n ln Hn. by apply (Hnone (S n) ln).
Qed.

(** C7: with a non-empty delimiter, [find_header_row] returns the index of
    the first of the first 10 lines whose delimiter-split, stripped tokens
    contain all of 交易日期, 履約 and 買賣權, and 0 when none of those lines
    does; so a file whose line 0 is a title without the keywords and whose
    line 1 has them all gets header_row 1, not 0. *)
Theorem find_header_row_first_keyword_line (lines : list pystr) (delimiter : pystr) :
  delimiter <> [] ->
  (forall i ln, (i < 10)%nat -> lines !! i = Some ln ->
     line_has_keywords delimiter ln ->
     (forall j ln', (j < i)%nat -> lines !! j = Some ln' ->
                    ~ line_has_keywords delimiter ln') ->
     find_header_row lines delimiter = Some i) /\
  ((forall i ln, (i < 10)%nat -> lines !! i = Some ln ->
      ~ line_has_keywords delimiter ln) ->
   find_header_row lines delimiter = Some 0%nat) /\
  (forall title header rest, lines = title :: header :: rest ->
     ~ line_has_keywords delimiter title ->
     line_has_keywords delimiter header ->
     find_header_row lines delimiter = Some 1%nat).
Proof.
  intros Hd. unfold find_header_row.
  assert (forall i ln, (i < 10)%nat -> lines !! i = Some ln ->
     line_has_keywords delimiter ln ->
     (forall j ln', (j < i)%nat -> lines !! j = Some ln' ->
                    ~ line_has_keywords delimiter ln') ->
     scan_lines delimiter 0 (take 10 lines) = Some i) as Hfirst.
  { intros i ln Hi Hln Hkw Hbefore.
    change i with (0 + i)%nat. apply (scan_lines_found _ Hd _ _ _ ln).
    - by rewrite lookup_take_lt.
    - done.
    - intros j ln' Hj Hlk. apply (Hbefore j ln' Hj).
      rewrite lookup_take_lt in Hlk; [done|lia]. }
  split; [exact Hfirst|]. split.
  - intros Hnone. apply (scan_lines_not_found _ Hd).
    intros n ln Hn. destruct (decide (n < 10)%nat) as [Hlt|Hge].
    + rewrite lookup_take_lt in Hn by done. by apply (Hnone n).
    + rewrite lookup_take_ge in Hn by lia. done.
  - intros title header rest -> Htitle Hheader.
    apply (Hfirst 1%nat header); [lia|done|done|].
    intros j ln' Hj Hlk. assert (j = 0)%nat as -> by lia.
    simpl in Hlk. by injection Hlk as <-.
Qed.

End HeaderRow.

Lemma find_header_row_first_keyword_line_witness :
  DataLoader.find_header_row (UD := basic_unicode)
    Samples.sample_lines (U ",") = Some 1%nat.
Proof.
  destruct (find_header_row_first_keyword_line (UD := basic_unicode)
              Samples.sample_lines (U ",")) as (_ & _ & H).
  - discriminate.
  - apply (H Samples.sample_title Samples.sample_header Samples.sample_data).
    + reflexivity.
    + rewrite <- line_check_spec. vm_compute. discriminate.
    + apply line_check_spec. vm_compute. reflexivity.
Defined.

(** ** Sorting and grouping *)

Section PandasFacts.
Import Pandas.
Context {K : Type} `{Lexico K, !StrictOrder (@lexico K _)}.
Context `{!TrichotomyT (@lexico K _)} `{EqDecision K}.

#[local] Instance lex_le_total : Total (@lex_le K _).
Proof using Type*.
  intros x y. unfold lex_le.
  destruct (trichotomyT lexico x y) as [[?|?]|?]; auto.
Qed.

#[local] Instance lex_le_trans : Transitive (@lex_le K _).
Proof using Type*.
  intros x y z [->|Hxy] [->|Hyz]; unfold lex_le; auto.
  right. by transitivity y.
Qed.

Lemma lex_le_antisym (x y : K) : lex_le x y -> lex_le y x -> x = y.
Proof using Type*.
  intros [->|Hxy] [Heq|Hyx]; auto.
  exfalso. apply (irreflexivity lexico x). by transitivity y.
Qed.

Lemma sort_values_Permutation {R} (key : R -> K) rows :
  sort_values key rows ≡ₚ rows.
Proof using Type*. apply merge_sort_Permutation. Qed.

Lemma sort_values_sorted {R} (key : R -> K) rows :
  StronglySorted (fun a b => lex_le (key a) (key b)) (sort_values key rows).
Proof using Type*.
  apply StronglySorted_merge_sort.
  - intros a b c. apply lex_le_trans.
  - intros a b. apply lex_le_total.
Qed.



Lemma group_keys_NoDup {R} (key : R -> K) rows : NoDup (group_keys key rows).
Proof using Type*.
  unfold group_keys. rewrite merge_sort_Permutation. apply NoDup_remove_dups.
Qed.

Lemma elem_of_group_keys {R} (key : R -> K) rows k :
  k ∈ group_keys key rows <-> exists r, r ∈ rows /\ key r = k.
Proof using Type*.
  unfold group_keys. rewrite merge_sort_Permutation, elem_of_remove_dups.
  rewrite list_elem_of_fmap. split.
  - intros (r & -> & Hr). by exists r.
  - intros (r & Hr & <-). by exists r.
Qed.

(** When the aggregate of a group carries the group key, the output of
    [groupby_agg] has one row per key. *)
Lemma groupby_agg_keys {R S} (key : R -> K) (agg : K -> list R -> S)
    (key' : S -> K) rows :
  (forall k g, key' (agg k g) = k) ->
  key' <$> groupby_agg key agg rows = group_keys key rows.
Proof using Type*.
  intros Hk. unfold groupby_agg. rewrite <- list_fmap_compose.
  rewrite <- (list_fmap_id (group_keys key rows)) at 2.
  apply list_fmap_ext. intros i k _. simpl. apply Hk.
Qed.

Lemma elem_of_groupby_agg {R S} (key : R -> K) (agg : K -> list R -> S) rows x :
  x ∈ groupby_agg key agg rows <->
  exists k, (exists r, r ∈ rows /\ key r = k) /\
            x = agg k (filter (fun r => key r = k) rows).
Proof using Type*.
  unfold groupby_agg. rewrite list_elem_of_fmap.
  split; intros (k & H1 & H2); exists k.
  - split; [by apply elem_of_group_keys|done].
  - split; [done|by apply elem_of_group_keys].
Qed.

End PandasFacts.

(** ** The lag columns *)

Section MachineNumbers.
Import Numpy Frame Spec.
Local Open Scope Z_scope.

Lemma int64_wrap_in_range z : in_int64 (int64_wrap z).
Proof.
  unfold in_int64, int64_wrap.
  pose proof (Z.mod_pos_bound (z + 9223372036854775808) 18446744073709551616).
  lia.
Qed.

Lemma int64_wrap_id z : in_int64 z -> int64_wrap z = z.
Proof.
  unfold in_int64, int64_wrap. intros Hz.
  rewrite Z.mod_small by lia. lia.
Qed.

Lemma int64_wrap_add a b : int64_wrap (int64_wrap a + b) = int64_wrap (a + b).
Proof.
  unfold int64_wrap. f_equal.
  replace ((a + 9223372036854775808) mod 18446744073709551616
           - 9223372036854775808 + b + 9223372036854775808)
    with ((a + 9223372036854775808) mod 18446744073709551616 + b) by lia.
  rewrite Zplus_mod_idemp_l. f_equal. lia.
Qed.

Lemma int64_sum_from l : forall acc,
  foldl (fun acc x => int64_wrap (acc + x)) (int64_wrap acc) l
  = int64_wrap (acc + sum_Z l).
Proof.
  induction l as [|x l IH]; intros acc; cbn [foldl sum_Z foldr].
  - f_equal. lia.
  - rewrite int64_wrap_add, IH. f_equal. unfold sum_Z. lia.
Qed.

(** The sum of an [int64] column is the exact sum, wrapped. *)
Lemma int64_sum_wrap l : int64_sum l = int64_wrap (sum_Z l).
Proof. unfold int64_sum. apply (int64_sum_from l 0). Qed.

Lemma int64_sum_in_range l : in_int64 (int64_sum l).
Proof. rewrite int64_sum_wrap. apply int64_wrap_in_range. Qed.

Lemma int64_of_float_id x : in_int64 x -> int64_of_float x = x.
Proof.
  unfold in_int64, int64_of_float. intros Hx.
  destruct (Z.leb_spec (- 9223372036854775808) x); [|lia].
  destruct (Z.ltb_spec x 9223372036854775808); [done|lia].
Qed.

(** Every integer of magnitude up to 2^53 is stored exactly. *)
Lemma float64_small z : Z.abs z <= 9007199254740992 -> exact_in_float64 z.
Proof.
  unfold exact_in_float64, float64_of_int. intros Hz.
  destruct (Z.ltb_spec (Z.abs z) 9007199254740992) as [|Hge]; [done|].
  assert (Z.abs z = 9007199254740992) as Ha by lia. rewrite Ha.
  change (Z.sgn z * 9007199254740992 = z). lia.
Qed.

(** A lag that is stored exactly and fits comes back as it was. *)
Lemma round_trip_exact z :
  exact_in_float64 z -> in_int64 z -> int64_of_float (float64_of_int z) = z.
Proof. intros -> Hz. by apply int64_of_float_id. Qed.

End MachineNumbers.

Section FrameFacts.
Import Numpy Frame Spec.
Local Open Scope Z_scope.

Lemma add_lags_elem rows : forall above x,
  x ∈ add_lags above rows <->
  exists l1 r l2, rows = l1 ++ r :: l2 /\ x = lagged (reverse l1 ++ above) r.
Proof.
  induction rows as [|r rest IH]; intros above x; simpl.
  - split; [by intros ?%elem_of_nil|].
    intros (l1 & r & l2 & Heq & _). by destruct l1.
  - rewrite elem_of_cons, IH. split.
    + intros [->|(l1 & r' & l2 & -> & ->)].
      * by exists [], r, rest.
      * exists (r :: l1), r', l2. split; [done|].
        by rewrite reverse_cons, <- app_assoc.
    + intros (l1 & r' & l2 & Heq & ->). destruct l1 as [|a l1].
      * left. simpl in Heq. by injection Heq as <- _.
      * right. simpl in Heq. injection Heq as <- ->.
        exists l1, r', l2. split; [done|].
        by rewrite reverse_cons, <- app_assoc.
Qed.

Lemma base_elem_of_add_lags rows h :
  h ∈ rows -> exists q, q ∈ add_lags [] rows /\ base q = h.
Proof.
  intros (a & b & ->)%list_elem_of_split.
  exists (lagged (reverse a ++ []) h). split; [|done].
  apply add_lags_elem. by exists a, h, b.
Qed.

Lemma same_contract_dates r l :
  StronglySorted chron l ->
  StronglySorted (fun a b => Date a < Date b)
                 (filter (fun x => contract x = contract r) l).
Proof.
  induction 1 as [|a l Hl IH Hall]; [constructor|].
  destruct (decide (contract a = contract r)) as [Ha|Ha].
  - rewrite filter_cons_True by done. constructor; [done|].
    apply Forall_forall. intros b [Hb Hbl]%list_elem_of_filter.
    rewrite Forall_forall in Hall. apply (Hall b Hbl). congruence.
  - by rewrite filter_cons_False.
Qed.

(** The history a row sees: the rows of its contract above it. *)
Lemma history_spec l1 r l2 :
  StronglySorted chron (l1 ++ r :: l2) ->
  let F := filter (fun x => contract x = contract r) l1 in
  StronglySorted (fun a b => Date a < Date b) F /\
  (forall h, h ∈ F <-> h ∈ l1 /\ contract h = contract r) /\
  (forall h, h ∈ F -> Date h < Date r) /\
  (forall y, y ∈ l2 -> contract y = contract r -> Date r < Date y).
Proof.
  intros Hs F. apply StronglySorted_app in Hs as (Hcross & Hl1 & Hr).
  apply StronglySorted_cons in Hr as [Hr _]. rewrite Forall_forall in Hr.
  split; [by apply same_contract_dates|]. split; [|split].
  - intros h. unfold F. rewrite list_elem_of_filter. tauto.
  - intros h [Hc Hh]%list_elem_of_filter.
    apply (Hcross h r Hh); [elem|done].
  - intros y Hy Hc. by apply Hr.
Qed.

Lemma lagged_columns above r :
  let hist := filter (fun x => contract x = contract r) above in
  OI_prev1 (lagged above r)
    = int64_of_float (default 0 (float64_of_int <$> (OI <$> hist !! 0%nat))) /\
  OI_prev2 (lagged above r)
    = int64_of_float (default 0 (float64_of_int <$> (OI <$> hist !! 1%nat))) /\
  delta_1 (lagged above r) = int64_wrap (OI r - OI_prev1 (lagged above r)) /\
  delta_2 (lagged above r) = int64_wrap (OI r - OI_prev2 (lagged above r)).
Proof. done. Qed.

(** Where an output row sits in the sorted frame. *)
Lemma out_row_position rows r :
  r ∈ add_lags [] rows ->
  exists l1 l2, rows = l1 ++ base r :: l2 /\ r = lagged (reverse l1) (base r).
Proof.
  intros (l1 & b & l2 & -> & ->)%add_lags_elem.
  exists l1, l2. by rewrite app_nil_r.
Qed.

Lemma earlier_in_history l1 b l2 q :
  StronglySorted chron (l1 ++ b :: l2) ->
  q ∈ l1 ++ b :: l2 -> contract q = contract b -> Date q < Date b ->
  q ∈ filter (fun x => contract x = contract b) l1.
Proof.
  intros Hs Hq Hc Hd.
  destruct (history_spec l1 b l2 Hs) as (_ & HF & _ & Hafter).
  apply HF. split; [|done].
  apply elem_of_app in Hq as [Hq|Hq]; [done|].
  apply elem_of_cons in Hq as [->|Hq]; [lia|].
  specialize (Hafter q Hq Hc). lia.
Qed.

(** C1 on a sorted frame: the lag-1 value is the open interest of the
    immediately preceding session of the same contract, after its passage
    through [float64]. *)
Lemma lags_previous rows r p :
  StronglySorted chron rows ->
  r ∈ add_lags [] rows -> previous_session (add_lags [] rows) p r ->
  OI_prev1 r = int64_of_float (float64_of_int (OI (base p))) /\
  delta_1 r = int64_wrap (OI (base r) - OI_prev1 r).
Proof.
  intros Hs Hr (Hp & [Hpc Hpd] & Himm).
  destruct (out_row_position rows r Hr) as (l1 & l2 & Hrows & Hrl).
  set (b := base r) in *.
  rewrite Hrows in Hs.
  destruct (history_spec l1 b l2 Hs) as (HFs & HF & HFd & _).
  set (F := filter (fun x => contract x = contract b) l1) in *.
  assert (base p ∈ F) as HpF.
  { apply (earlier_in_history l1 b l2); [done| |done|done].
    rewrite <- Hrows. apply out_row_position in Hp as (a1 & a2 & -> & _).
    apply elem_of_app. right. elem. }
  assert (OI_prev1 r = int64_of_float (float64_of_int (OI (base p)))) as Hprev.
  { rewrite Hrl. destruct (lagged_columns (reverse l1) b) as (-> & _).
    rewrite filter_reverse. fold F.
    destruct (reverse F) as [|h t] eqn:Hrev.
    { apply (f_equal reverse) in Hrev. rewrite reverse_involutive in Hrev.
      rewrite Hrev in HpF. by apply elem_of_nil in HpF. }
    simpl. f_equal.
    assert (F = reverse t ++ [h]) as HFeq.
    { rewrite <- (reverse_involutive F), Hrev. by rewrite reverse_cons. }
    rewrite HFeq in HFs, HpF.
    apply elem_of_app in HpF as [Hpt|Hph].
    - (* an earlier session lies strictly between [p] and [r] *)
      exfalso.
      assert (Date (base p) < Date h) as Hlt.
      { apply (StronglySorted_app_1_elem_of _ _ _ _ _ HFs Hpt). elem. }
      assert (h ∈ F) as HhF by (rewrite HFeq; apply elem_of_app; right; elem).
      pose proof (HFd h HhF) as Hhd.
      apply HF in HhF as [Hhl1 Hhc].
      destruct (base_elem_of_add_lags rows h) as (q & Hq & Hqb).
      { rewrite Hrows. apply elem_of_app. by left. }
      specialize (Himm q Hq). rewrite Hqb in Himm.
      assert (Date h <= Date (base p)); [|lia].
      apply Himm. split; by rewrite Hqb.
    - by apply list_elem_of_singleton in Hph as ->. }
  split; [done|].
  rewrite Hrl. by destruct (lagged_columns (reverse l1) b) as (_ & _ & -> & _).
Qed.

(** C10 on a sorted frame: with at most one earlier session of the contract
    the lag-2 value is 0, with none the lag-1 value is 0 too. *)
Lemma lags_second rows r :
  StronglySorted chron rows ->
  r ∈ add_lags [] rows ->
  (forall p q, p ∈ add_lags [] rows -> q ∈ add_lags [] rows ->
     earlier_session p r -> earlier_session q r -> p = q) ->
  OI_prev2 r = 0 /\ delta_2 r = int64_wrap (OI (base r)).
Proof.
  intros Hs Hr Hone.
  destruct (out_row_position rows r Hr) as (l1 & l2 & Hrows & Hrl).
  set (b := base r) in *.
  rewrite Hrows in Hs.
  destruct (history_spec l1 b l2 Hs) as (HFs & HF & HFd & _).
  set (F := filter (fun x => contract x = contract b) l1) in *.
  assert (OI_prev2 r = 0) as Hprev.
  { rewrite Hrl. destruct (lagged_columns (reverse l1) b) as (_ & -> & _).
    rewrite filter_reverse. fold F.
    destruct (reverse F) as [|h1 [|h2 t]] eqn:Hrev; [done|done|exfalso].
    assert (F = reverse t ++ [h2; h1]) as HFeq.
    { rewrite <- (reverse_involutive F), Hrev.
      by rewrite !reverse_cons, <- !app_assoc. }
    assert (Date h2 < Date h1) as Hlt.
    { rewrite HFeq in HFs. apply StronglySorted_app_1_r in HFs.
      apply StronglySorted_cons in HFs as [Hall _].
      rewrite Forall_forall in Hall. apply Hall. elem. }
    assert (forall h, h ∈ [h2; h1] ->
              exists q, q ∈ add_lags [] rows /\ base q = h /\ earlier_session q r)
      as Hq.
    { intros h Hh.
      assert (h ∈ F) as HhF by (rewrite HFeq; apply elem_of_app; by right).
      pose proof (HFd h HhF) as Hhd. apply HF in HhF as [Hhl1 Hhc].
      destruct (base_elem_of_add_lags rows h) as (q & Hq & Hqb).
      { rewrite Hrows. apply elem_of_app. by left. }
      exists q. split; [done|]. split; [done|]. split; by rewrite Hqb. }
    destruct (Hq h1) as (q1 & Hq1 & Hb1 & He1); [elem|].
    destruct (Hq h2) as (q2 & Hq2 & Hb2 & He2); [elem|].
    pose proof (Hone q1 q2 Hq1 Hq2 He1 He2) as Heq. subst q1.
    rewrite Hb1 in Hb2. subst h2. lia. }
  split; [done|].
  rewrite Hrl in Hprev |- *.
  destruct (lagged_columns (reverse l1) b) as (_ & _ & _ & ->).
  rewrite Hprev. fold b. f_equal. lia.
Qed.

Lemma lags_first rows r :
  StronglySorted chron rows ->
  r ∈ add_lags [] rows ->
  (forall q, q ∈ add_lags [] rows -> ~ earlier_session q r) ->
  OI_prev1 r = 0 /\ OI_prev2 r = 0 /\
  delta_1 r = int64_wrap (OI (base r)) /\ delta_2 r = int64_wrap (OI (base r)).
Proof.
  intros Hs Hr Hnone.
  destruct (lags_second rows r Hs Hr) as [H2 Hd2].
  { intros p q Hp _ He _. by destruct (Hnone p Hp). }
  destruct (out_row_position rows r Hr) as (l1 & l2 & Hrows & Hrl).
  set (b := base r) in *.
  rewrite Hrows in Hs.
  destruct (history_spec l1 b l2 Hs) as (HFs & HF & HFd & _).
  set (F := filter (fun x => contract x = contract b) l1) in *.
  assert (OI_prev1 r = 0) as Hprev.
  { rewrite Hrl. destruct (lagged_columns (reverse l1) b) as (-> & _).
    rewrite filter_reverse. fold F.
    destruct F as [|h t] eqn:HFeq; [done|exfalso].
    assert (h ∈ h :: t) as HhF by elem.
    pose proof (HFd h HhF) as Hhd. apply HF in HhF as [Hhl1 Hhc].
    destruct (base_elem_of_add_lags rows h) as (q & Hq & Hqb).
    { rewrite Hrows. apply elem_of_app. by left. }
    apply (Hnone q Hq). split; by rewrite Hqb. }
  split; [done|]. split; [done|]. split; [|done].
  rewrite Hrl in Hprev |- *.
  destruct (lagged_columns (reverse l1) b) as (_ & _ & -> & _).
  rewrite Hprev. fold b. f_equal. lia.
Qed.

End FrameFacts.

(** ** From grouping and sorting to the lag columns *)

Section Aggregation.
Import Pandas Frame Spec.
Local Open Scope Z_scope.

Section Grouped.
Context {R : Type} (key : R -> Z * Z * pystr) (oi : R -> Z) (txt : list R -> pystr).

Lemma grouped_keys rows :
  session_key <$> grouped key oi txt rows = group_keys key rows.
Proof.
  apply groupby_agg_keys. by intros [[d k] c] g.
Qed.

Lemma grouped_NoDup rows : NoDup (session_key <$> grouped key oi txt rows).
Proof. rewrite grouped_keys. apply group_keys_NoDup. Qed.

Lemma grouped_elem rows a :
  a ∈ grouped key oi txt rows ->
  (exists x, x ∈ rows /\ key x = session_key a) /\
  OI a = Numpy.int64_sum (oi <$> filter (fun x => key x = session_key a) rows).
Proof.
  intros (k & Hk & ->)%elem_of_groupby_agg.
  destruct k as [[d s] c]. by split.
Qed.

Lemma grouped_complete rows x :
  x ∈ rows -> exists a, a ∈ grouped key oi txt rows /\ session_key a = key x.
Proof.
  intros Hx.
  assert (key x ∈ session_key <$> grouped key oi txt rows) as Hin.
  { rewrite grouped_keys. apply elem_of_group_keys. by exists x. }
  apply list_elem_of_fmap in Hin as (a & Ha & Hin). by exists a.
Qed.

End Grouped.

Lemma sorted_unique_chron {K : Type} `{Lexico K} (skey : agg_row -> K) rows :
  (forall a b, lex_le (skey a) (skey b) -> contract a = contract b ->
               Date a <= Date b) ->
  StronglySorted (fun a b => lex_le (skey a) (skey b)) rows ->
  NoDup (session_key <$> rows) ->
  StronglySorted chron rows.
Proof.
  intros Hle. induction 1 as [|a l Hl IH Hall]; intros Hnd; [constructor|].
  rewrite fmap_cons in Hnd. apply NoDup_cons in Hnd as [Hnotin Hnd].
  constructor; [by apply IH|].
  rewrite Forall_forall in Hall |- *. intros b Hb Hc.
  pose proof (Hle a b (Hall b Hb) Hc) as Hd.
  destruct (decide (Date a = Date b)) as [Heq|Hne]; [|lia].
  exfalso. apply Hnotin. apply list_elem_of_fmap. exists b. split; [|done].
  unfold session_key. unfold contract in Hc. injection Hc as Hs Hcp.
  by rewrite Heq, Hs, Hcp.
Qed.

Lemma loader_order a b :
  lex_le (DataLoader.sort_key a) (DataLoader.sort_key b) ->
  contract a = contract b -> Date a <= Date b.
Proof.
  unfold DataLoader.sort_key, contract. intros [Heq|Hlt] Hc.
  - injection Heq as _ _ ->. lia.
  - destruct Hlt as [Hlt|[_ Hlt]]; simpl in *.
    + rewrite Hc in Hlt. by apply (irreflexivity lexico) in Hlt.
    + unfold lexico, Z_lexico in Hlt. lia.
Qed.

Lemma db_order a b :
  lex_le (TxoDbUi.sort_key a) (TxoDbUi.sort_key b) ->
  contract a = contract b -> Date a <= Date b.
Proof.
  unfold TxoDbUi.sort_key, contract. intros [Heq|Hlt] Hc.
  - injection Heq as -> _ _. lia.
  - injection Hc as Hs Hcp.
    destruct Hlt as [[Hlt|[Hd Hlt]]|[Heq Hlt]]; simpl in *.
    + unfold lexico, Z_lexico in Hlt. lia.
    + unfold lexico, Z_lexico in Hlt. lia.
    + rewrite Hcp in Hlt. by apply (irreflexivity lexico) in Hlt.
Qed.

(** The sorted frame of either aggregator lists every contract in date
    order. *)
Lemma sorted_grouped_chron {R K : Type} `{Lexico K, !StrictOrder (@lexico K _)}
    `{!TrichotomyT (@lexico K _)} `{EqDecision K}
    (skey : agg_row -> K) (key : R -> Z * Z * pystr) oi txt (rows : list R) :
  (forall a b, lex_le (skey a) (skey b) -> contract a = contract b ->
               Date a <= Date b) ->
  StronglySorted chron (sort_values skey (grouped key oi txt rows)).
Proof.
  intros Hle. apply (sorted_unique_chron skey); [done|apply sort_values_sorted|].
  rewrite sort_values_Permutation. apply grouped_NoDup.
Qed.

End Aggregation.

(** ** The two aggregators *)

Section Aggregators.
Import Numpy Pandas Frame Spec.
Local Open Scope Z_scope.

Lemma loader_aggregate_unfold df2 :
  DataLoader.aggregate df2 =
  add_lags [] (sort_values DataLoader.sort_key
    (grouped DataLoader.group_key DataLoader.c_OI
       (fun g => DataLoader.join_bar (DataLoader.c_orig_OI_str <$> g)) df2)).
Proof. reflexivity. Qed.

Lemma db_aggregate_unfold df :
  df <> [] ->
  TxoDbUi.aggregate_daily_from_df df =
  add_lags [] (sort_values TxoDbUi.sort_key
    (grouped TxoDbUi.group_key (TxoDbUi.OI_for_calc (TxoDbUi.has_nan df))
       (fun g => default [] (head (TxoDbUi.d_orig_OI_str <$> g)))
       (TxoDbUi.select_session df))).
Proof. by destruct df. Qed.

Lemma db_aggregate_nonempty df r :
  r ∈ TxoDbUi.aggregate_daily_from_df df -> df <> [].
Proof. destruct df; [by intros ?%elem_of_nil|done]. Qed.

(** An output row carries the summed open interest of its session. *)
Lemma out_row_OI {R K : Type} `{Lexico K, !StrictOrder (@lexico K _)}
    `{!TrichotomyT (@lexico K _)} `{EqDecision K}
    (skey : agg_row -> K) (key : R -> Z * Z * pystr) oi txt (rows : list R) r :
  r ∈ add_lags [] (sort_values skey (grouped key oi txt rows)) ->
  OI (base r)
    = Numpy.int64_wrap
        (sum_Z (oi <$> filter (fun x => key x = session_key (base r)) rows)).
Proof.
  intros (l1 & l2 & Hrows & _)%out_row_position.
  assert (base r ∈ grouped key oi txt rows) as Hin.
  { rewrite <- (sort_values_Permutation skey), Hrows.
    apply elem_of_app. right. elem. }
  apply grouped_elem in Hin as [_ ->]. apply int64_sum_wrap.
Qed.

Lemma loader_row_OI df2 r :
  r ∈ DataLoader.aggregate df2 ->
  OI (base r) = Numpy.int64_wrap (loader_session_OI df2 (session_key (base r))).
Proof. rewrite loader_aggregate_unfold. apply out_row_OI. Qed.

Lemma db_row_OI df r :
  r ∈ TxoDbUi.aggregate_daily_from_df df ->
  OI (base r) = Numpy.int64_wrap (db_session_OI df (session_key (base r))).
Proof.
  intros Hr. pose proof (db_aggregate_nonempty df r Hr) as Hne.
  rewrite (db_aggregate_unfold df Hne) in Hr. by apply out_row_OI in Hr.
Qed.

Lemma loader_chron df2 :
  StronglySorted chron (sort_values DataLoader.sort_key
    (grouped DataLoader.group_key DataLoader.c_OI
       (fun g => DataLoader.join_bar (DataLoader.c_orig_OI_str <$> g)) df2)).
Proof. apply sorted_grouped_chron, loader_order. Qed.

Lemma db_chron df :
  StronglySorted chron (sort_values TxoDbUi.sort_key
    (grouped TxoDbUi.group_key (TxoDbUi.OI_for_calc (TxoDbUi.has_nan df))
       (fun g => default [] (head (TxoDbUi.d_orig_OI_str <$> g)))
       (TxoDbUi.select_session df))).
Proof. apply sorted_grouped_chron, db_order. Qed.

(** Every session present in the input has a row in the output. *)
Lemma out_row_complete {R K : Type} `{Lexico K, !StrictOrder (@lexico K _)}
    `{!TrichotomyT (@lexico K _)} `{EqDecision K}
    (skey : agg_row -> K) (key : R -> Z * Z * pystr) oi txt (rows : list R) x :
  x ∈ rows ->
  exists r, r ∈ add_lags [] (sort_values skey (grouped key oi txt rows))
            /\ session_key (base r) = key x.
Proof.
  intros Hx. destruct (grouped_complete key oi txt rows x Hx) as (a & Ha & Hk).
  rewrite <- (sort_values_Permutation skey) in Ha.
  destruct (base_elem_of_add_lags _ a Ha) as (r & Hr & Hb).
  exists r. split; [done|]. by rewrite Hb.
Qed.

(** C1, as the code has it: in the frame of either aggregator (the loader
    sorts by strike, call/put, date; the database UI by date, strike,
    call/put), every row carries the open interest summed over the input
    rows of its (date, strike, call/put) in 64-bit integers, every input
    session has a row, and if [p] is the immediately preceding session of the
    same (strike, call/put) as [r], whatever the order of the input rows and
    however other contracts are interleaved, then OI_prev1 of [r] is the OI
    of [p] after its passage through a 64-bit float and delta_1 of [r] is
    the 64-bit difference of OI and OI_prev1.  Hence delta_1 of [r] is OI of
    [r] minus OI of [p] whenever OI of [p] is stored exactly in a 64-bit
    float, as every integer of magnitude up to 2^53 is, and the difference
    fits in 64 bits. *)
Theorem delta_1_is_change_from_previous_session :
  (forall df2 r p,
     r ∈ DataLoader.aggregate df2 ->
     previous_session (DataLoader.aggregate df2) p r ->
     OI (base r) = int64_wrap (loader_session_OI df2 (session_key (base r))) /\
     OI (base p) = int64_wrap (loader_session_OI df2 (session_key (base p))) /\
     OI_prev1 r = int64_of_float (float64_of_int (OI (base p))) /\
     delta_1 r = int64_wrap (OI (base r) - OI_prev1 r) /\
     (exact_in_float64 (OI (base p)) ->
        OI_prev1 r = OI (base p) /\
        (in_int64 (OI (base r) - OI (base p)) ->
           delta_1 r = OI (base r) - OI (base p)))) /\
  (forall df2 x, x ∈ df2 ->
     exists r, r ∈ DataLoader.aggregate df2 /\
               session_key (base r) = DataLoader.group_key x) /\
  (forall df r p,
     r ∈ TxoDbUi.aggregate_daily_from_df df ->
     previous_session (TxoDbUi.aggregate_daily_from_df df) p r ->
     OI (base r) = int64_wrap (db_session_OI df (session_key (base r))) /\
     OI (base p) = int64_wrap (db_session_OI df (session_key (base p))) /\
     OI_prev1 r = int64_of_float (float64_of_int (OI (base p))) /\
     delta_1 r = int64_wrap (OI (base r) - OI_prev1 r) /\
     (exact_in_float64 (OI (base p)) ->
        OI_prev1 r = OI (base p) /\
        (in_int64 (OI (base r) - OI (base p)) ->
           delta_1 r = OI (base r) - OI (base p)))) /\
  (forall df x, x ∈ TxoDbUi.select_session df ->
     exists r, r ∈ TxoDbUi.aggregate_daily_from_df df /\
               session_key (base r) = TxoDbUi.group_key x) /\
  (forall z, Z.abs z <= 9007199254740992 -> exact_in_float64 z) /\
  (forall z, in_int64 z -> int64_wrap z = z).
Proof.
  assert (forall rows r p,
    StronglySorted chron rows ->
    r ∈ add_lags [] rows -> previous_session (add_lags [] rows) p r ->
    in_int64 (OI (base p)) ->
    OI_prev1 r = int64_of_float (float64_of_int (OI (base p))) /\
    delta_1 r = int64_wrap (OI (base r) - OI_prev1 r) /\
    (exact_in_float64 (OI (base p)) ->
       OI_prev1 r = OI (base p) /\
       (in_int64 (OI (base r) - OI (base p)) ->
          delta_1 r = OI (base r) - OI (base p)))) as Hlag.
  { intros rows r p Hs Hr Hprev Hrange.
    destruct (lags_previous rows r p Hs Hr Hprev) as [H1 Hd].
    split; [done|]. split; [done|]. intros Hex.
    assert (OI_prev1 r = OI (base p)) as Heq
      by (rewrite H1; by apply round_trip_exact).
    split; [done|]. intros Hfit. rewrite Hd, Heq. by apply int64_wrap_id. }
  split; [|split; [|split; [|split; [|split]]]].
  - intros df2 r p Hr Hprev.
    pose proof (loader_row_OI df2 p (proj1 Hprev)) as Hp.
    split; [by apply loader_row_OI|]. split; [done|].
    rewrite loader_aggregate_unfold in Hr, Hprev.
    apply (Hlag _ r p (loader_chron df2) Hr Hprev).
    rewrite Hp. apply int64_wrap_in_range.
  - intros df2 x Hx. rewrite loader_aggregate_unfold. by apply out_row_complete.
  - intros df r p Hr Hprev.
    pose proof (db_row_OI df p (proj1 Hprev)) as Hp.
    split; [by apply db_row_OI|]. split; [done|].
    pose proof (db_aggregate_nonempty df r Hr) as Hne.
    rewrite (db_aggregate_unfold df Hne) in Hr, Hprev.
    apply (Hlag _ r p (db_chron df) Hr Hprev).
    rewrite Hp. apply int64_wrap_in_range.
  - intros df x Hx.
    assert (df <> []) as Hne by (intros ->; by apply elem_of_nil in Hx).
    rewrite (db_aggregate_unfold df Hne). by apply out_row_complete.
  - apply float64_small.
  - apply int64_wrap_id.
Qed.

(** C10: in the frame of either aggregator a row with no earlier session
    of its (strike, call/put) has OI_prev1 = OI_prev2 = 0, so delta_1 and
    delta_2 equal its OI; and a row with at most one earlier session (the
    first two sessions of a contract) has OI_prev2 = 0 and delta_2 equal to
    its OI.  No row is dropped: every input session has a row (C1). *)
Theorem first_sessions_use_zero_for_missing_lags :
  (forall df2 r,
     r ∈ DataLoader.aggregate df2 ->
     (forall q, q ∈ DataLoader.aggregate df2 -> ~ earlier_session q r) ->
     OI_prev1 r = 0 /\ OI_prev2 r = 0 /\
     delta_1 r = OI (base r) /\ delta_2 r = OI (base r)) /\
  (forall df2 r,
     r ∈ DataLoader.aggregate df2 ->
     (forall p q, p ∈ DataLoader.aggregate df2 -> q ∈ DataLoader.aggregate df2 ->
        earlier_session p r -> earlier_session q r -> p = q) ->
     OI_prev2 r = 0 /\ delta_2 r = OI (base r)) /\
  (forall df r,
     r ∈ TxoDbUi.aggregate_daily_from_df df ->
     (forall q, q ∈ TxoDbUi.aggregate_daily_from_df df -> ~ earlier_session q r) ->
     OI_prev1 r = 0 /\ OI_prev2 r = 0 /\
     delta_1 r = OI (base r) /\ delta_2 r = OI (base r)) /\
  (forall df r,
     r ∈ TxoDbUi.aggregate_daily_from_df df ->
     (forall p q, p ∈ TxoDbUi.aggregate_daily_from_df df ->
        q ∈ TxoDbUi.aggregate_daily_from_df df ->
        earlier_session p r -> earlier_session q r -> p = q) ->
     OI_prev2 r = 0 /\ delta_2 r = OI (base r)).
Proof.
  split; [|split; [|split]].
  - intros df2 r Hr Hnone.
    pose proof (loader_row_OI df2 r Hr) as HOI.
    rewrite loader_aggregate_unfold in Hr, Hnone.
    destruct (lags_first _ r (loader_chron df2) Hr Hnone) as (H1 & H2 & Hd1 & Hd2).
    rewrite Hd1, Hd2, HOI, int64_wrap_id by apply int64_wrap_in_range. done.
  - intros df2 r Hr Hone.
    pose proof (loader_row_OI df2 r Hr) as HOI.
    rewrite loader_aggregate_unfold in Hr, Hone.
    destruct (lags_second _ r (loader_chron df2) Hr Hone) as (H2 & Hd2).
    rewrite Hd2, HOI, int64_wrap_id by apply int64_wrap_in_range. done.
  - intros df r Hr Hnone.
    pose proof (db_row_OI df r Hr) as HOI.
    pose proof (db_aggregate_nonempty df r Hr) as Hne.
    rewrite (db_aggregate_unfold df Hne) in Hr, Hnone.
    destruct (lags_first _ r (db_chron df) Hr Hnone) as (H1 & H2 & Hd1 & Hd2).
    rewrite Hd1, Hd2, HOI, int64_wrap_id by apply int64_wrap_in_range. done.
  - intros df r Hr Hone.
    pose proof (db_row_OI df r Hr) as HOI.
    pose proof (db_aggregate_nonempty df r Hr) as Hne.
    rewrite (db_aggregate_unfold df Hne) in Hr, Hone.
    destruct (lags_second _ r (db_chron df) Hr Hone) as (H2 & Hd2).
    rewrite Hd2, HOI, int64_wrap_id by apply int64_wrap_in_range. done.
Qed.

End Aggregators.

Section AggregatorWitnesses.
Import Numpy Frame Spec Samples.
Local Open Scope Z_scope.

Lemma delta_1_is_change_from_previous_session_witness :
  delta_1 loader_call_3 = OI (base loader_call_3) - OI (base loader_call_2) /\
  delta_1 db_call_3 = OI (base db_call_3) - OI (base db_call_2).
Proof.
  destruct delta_1_is_change_from_previous_session as (Hl & _ & Hd & _).
  split.
  - apply (Hl sample_df2 loader_call_3 loader_call_2).
    + by_compute.
    + split; [by_compute|]. split; [by_compute|].
      over_list. by_compute.
    + reflexivity.
    + by_compute.
  - apply (Hd sample_df db_call_3 db_call_2).
    + by_compute.
    + split; [by_compute|]. split; [by_compute|].
      over_list. by_compute.
    + reflexivity.
    + by_compute.
Defined.

(** C1 as stated fails on open interest above 2^53: the previous session's
    9007199254740993 comes back from the shifted column as 9007199254740992,
    so delta_1 is 2 where the two sessions differ by 1; and a session sum
    beyond the 64-bit range wraps around. *)
Lemma delta_1_rounding_counterexample :
  (big_day_2 ∈ DataLoader.aggregate big_df2 /\
   previous_session (DataLoader.aggregate big_df2) big_day_1 big_day_2 /\
   delta_1 big_day_2 <> OI (base big_day_2) - OI (base big_day_1)) /\
  (wide_day_1 ∈ DataLoader.aggregate wide_df2 /\
   OI (base wide_day_1) <> loader_session_OI wide_df2 (session_key (base wide_day_1))).
Proof.
  split; [split; [by_compute|split]|split].
  - split; [by_compute|]. split; [by_compute|]. over_list. by_compute.
  - by_compute.
  - by_compute.
  - by_compute.
Qed.

Lemma first_sessions_use_zero_for_missing_lags_witness :
  (OI_prev1 loader_call_1 = 0 /\ OI_prev2 loader_call_1 = 0 /\
   delta_1 loader_call_1 = OI (base loader_call_1) /\
   delta_2 loader_call_1 = OI (base loader_call_1)) /\
  (OI_prev2 db_call_2 = 0 /\ delta_2 db_call_2 = OI (base db_call_2)).
Proof.
  destruct first_sessions_use_zero_for_missing_lags as (Hl & _ & _ & Hd).
  split.
  - apply (Hl sample_df2 loader_call_1).
    + by_compute.
    + over_list. by_compute.
  - apply (Hd sample_df db_call_2).
    + by_compute.
    + intros p q Hp Hq. revert q Hq. over_list.
      revert p Hp. over_list. by_compute.
Defined.

End AggregatorWitnesses.

(** ** The relative anomaly flag *)

Section RelativeAnomaly.
Import Pandas Frame Spec TxoDbUi.
Local Open Scope Z_scope.











End RelativeAnomaly.

(** ** Header choice and type classification *)

Section Classifier.
Import Extractor Spec.
Context {UD : UnicodeData}.
Local Open Scope Z_scope.

Lemma score_nonneg columns : 0 <= _calculate_data_score columns.
Proof. destruct columns; simpl; lia. Qed.

Lemma score_second_row_eq chunk_df :
  score_second_row chunk_df =
  if _calculate_data_score (columns chunk_df) <? 3
  then _calculate_data_score (first_data_row chunk_df) else 0.
Proof.
  unfold score_second_row, first_data_row.
  destruct (rows chunk_df) as [|[|c row0] rest]; simpl; by case_match.
Qed.

(** The first line is used exactly when it scores 3 or more, or at least
    as much as the first data row. *)
Lemma use_first_iff chunk_df :
  score_second_row chunk_df <= _calculate_data_score (columns chunk_df) <->
  3 <= _calculate_data_score (columns chunk_df) \/
  _calculate_data_score (first_data_row chunk_df)
    <= _calculate_data_score (columns chunk_df).
Proof.
  rewrite score_second_row_eq.
  pose proof (score_nonneg (columns chunk_df)).
  destruct (Z.ltb_spec (_calculate_data_score (columns chunk_df)) 3); lia.
Qed.

Lemma process_header chunk_df :
  let use_first :=
    bool_decide (score_second_row chunk_df
                 <= _calculate_data_score (columns chunk_df)) in
  data_start_index (_process_data_chunk_fast chunk_df)
    = (if use_first then 0 else 1)%nat /\
  column_names (_process_data_chunk_fast chunk_df)
    = (if use_first then lowered_set (columns chunk_df)
       else lowered_set (first_data_row chunk_df)).
Proof.
  unfold _process_data_chunk_fast, first_data_row. cbv zeta.
  repeat case_match; done.
Qed.

(** C4, as the code has it: the first line of the chunk is the header
    exactly when its score is at least 3 or not lower than the score of the
    first data row (a missing row scores 0); the first data row is the header,
    and the first line is skipped, exactly when the first line scores below 3
    and strictly below the first data row.  The lowercased header set is
    taken from the chosen row. *)
Theorem header_row_choice (chunk_df : chunk) :
  let s1 := _calculate_data_score (columns chunk_df) in
  let s2 := _calculate_data_score (first_data_row chunk_df) in
  let res := _process_data_chunk_fast chunk_df in
  (data_start_index res = 0%nat <-> 3 <= s1 \/ s2 <= s1) /\
  (data_start_index res = 1%nat <-> s1 < 3 /\ s1 < s2) /\
  (data_start_index res = 0%nat ->
   column_names res = lowered_set (columns chunk_df)) /\
  (data_start_index res = 1%nat ->
   column_names res = lowered_set (first_data_row chunk_df)).
Proof.
  intros s1 s2 res.
  destruct (process_header chunk_df) as [Hidx Hnames].
  fold res in Hidx, Hnames. rewrite Hidx, Hnames.
  pose proof (use_first_iff chunk_df) as Huse. fold s1 s2 in Huse.
  case_bool_decide as Hd.
  - split; [|split; [|split]]; [tauto|split; [done|lia]|done|done].
  - split; [|split; [|split]]; [split; [done|tauto]|split; [lia|done]|done|done].
Qed.

(** *** The cascade *)

Lemma process_cascade (chunk_df : chunk) :
  let res := _process_data_chunk_fast chunk_df in
  let o := size (column_names res ∩ option_indicators) in
  let f := size (column_names res ∩ future_indicators) in
  let s := size (column_names res ∩ stock_indicators) in
  match identified res with
  | Options => (2 <= o)%nat /\ routed res = ImportAsOptions
  | Futures => (o < 2)%nat /\ (2 <= f)%nat /\ o = 0%nat /\ routed res = ImportAsFutures
  | Stocks =>
      (o < 2)%nat /\ ~ ((2 <= f)%nat /\ o = 0%nat) /\
      (2 <= s)%nat /\ o = 0%nat /\ f = 0%nat /\
      (routed res = ImportAsStocks \/
       exists info, routed res = ImportAsStocksWithSymbol info)
  | Undetermined =>
      (o < 2)%nat /\ ~ ((2 <= f)%nat /\ o = 0%nat) /\
      ~ ((2 <= s)%nat /\ o = 0%nat /\ f = 0%nat) /\
      (routed res = AskUserForDataType \/
       exists info, routed res = ImportAsStocksWithSymbol info)
  end.
Proof.
  unfold _process_data_chunk_fast. cbv zeta.
  set (names := if bool_decide _ then lowered_set _ else lowered_set _).
  destruct (Nat.leb_spec 2 (size (names ∩ option_indicators))) as [Ho|Ho];
  destruct (Nat.leb_spec 2 (size (names ∩ future_indicators))) as [Hf|Hf];
  destruct (Nat.eqb_spec (size (names ∩ option_indicators)) 0) as [Ho0|Ho0];
  destruct (Nat.leb_spec 2 (size (names ∩ stock_indicators))) as [Hs|Hs];
  destruct (Nat.eqb_spec (size (names ∩ future_indicators)) 0) as [Hf0|Hf0];
  cbn [andb identified routed column_names];
  repeat case_match;
  cbn [andb identified routed column_names] in *;
  try discriminate;
  repeat split; eauto; lia.
Qed.

(** The size of the intersection counts the indicator keywords present. *)
Lemma intersection_size (names ks : list pystr) :
  NoDup ks ->
  size ((list_to_set names : gset pystr) ∩ list_to_set ks)
  = length (filter (fun k => k ∈ names) ks).
Proof.
  intros Hnd.
  assert ((list_to_set names : gset pystr) ∩ list_to_set ks
          = list_to_set (filter (fun k => k ∈ names) ks)) as ->.
  { apply set_eq. intros x.
    rewrite elem_of_intersection, !elem_of_list_to_set, list_elem_of_filter.
    tauto. }
  apply size_list_to_set. by apply NoDup_filter.
Qed.

Lemma indicator_lists_NoDup :
  NoDup option_indicator_list /\ NoDup future_indicator_list
  /\ NoDup stock_indicator_list.
Proof. repeat split; by_compute. Qed.

Lemma lowered_set_scores (header : list cell) :
  size (lowered_set header ∩ option_indicators)
    = indicator_hits option_indicator_list header /\
  size (lowered_set header ∩ future_indicators)
    = indicator_hits future_indicator_list header /\
  size (lowered_set header ∩ stock_indicators)
    = indicator_hits stock_indicator_list header.
Proof.
  destruct indicator_lists_NoDup as (Ho & Hf & Hs).
  unfold lowered_set, option_indicators, future_indicators, stock_indicators,
    indicator_hits.
  by rewrite !intersection_size.
Qed.

(** *** Agreement with the restricted tables on ASCII and CJK text *)

Lemma basic_text_forallb s : basic_text s -> forallb basic s = true.
Proof.
  intros Hs. apply forallb_forall. intros c Hc%list_elem_of_In.
  unfold basic_text in Hs. rewrite Forall_forall in Hs. by apply Hs.
Qed.

Lemma lower_basic_text s : basic_text s -> lower s = ascii_lower_cp <$> s.
Proof. intros Hs. by apply lower_basic, basic_text_forallb. Qed.

Lemma ascii_lower_cp_basic c : basic c = true -> basic (ascii_lower_cp c) = true.
Proof.
  unfold basic, ascii_lower_cp, is_cjk, in_range.
  destruct (N.leb_spec 65 c), (N.leb_spec c 90); simpl; try done.
  intros _. apply orb_true_iff. left. apply N.ltb_lt. lia.
Qed.

Lemma lowered_basic_text s : basic_text s -> basic_text (ascii_lower_cp <$> s).
Proof.
  unfold basic_text. rewrite !Forall_forall.
  intros Hs c (c0 & -> & Hc0)%list_elem_of_fmap. by apply ascii_lower_cp_basic, Hs.
Qed.

Lemma isdigit_basic c : basic c = true -> isdigit c = basic_isdecimal c.
Proof.
  unfold basic. intros [Hc|Hc]%orb_true_iff.
  - apply N.ltb_lt in Hc. rewrite (isdigit_ascii c Hc).
    symmetry. by apply basic_isdecimal_ascii.
  - rewrite (isdigit_cjk c Hc). symmetry. by apply basic_isdecimal_cjk.
Qed.

Lemma str_isdigit_basic s :
  basic_text s -> str_isdigit s = str_isdigit (UD := basic_unicode) s.
Proof.
  intros Hs. unfold str_isdigit. destruct s as [|c s]; [done|].
  generalize dependent (c :: s). clear c s. intros l Hl.
  induction Hl as [|c l Hc Hl IH]; [done|].
  cbn [forallb]. rewrite IH. f_equal. by apply isdigit_basic.
Qed.

Lemma remove_char_basic c s : basic_text s -> basic_text (remove_char c s).
Proof.
  unfold basic_text, remove_char. rewrite !Forall_forall.
  intros Hs x [_ Hx]%list_elem_of_filter. by apply Hs.
Qed.

Lemma score_step_basic score text :
  basic_text text ->
  score_step score text = score_step (UD := basic_unicode) score text.
Proof.
  intros Ht. unfold score_step.
  by rewrite (str_isdigit_basic _
    (remove_char_basic _ _ (remove_char_basic _ _ (remove_char_basic _ _ Ht)))).
Qed.

Lemma lowered_texts_basic (l : list cell) :
  basic_cells l ->
  (fun col => lower (str col)) <$> l
    = (fun col => lower (UnicodeData := basic_unicode) (str col)) <$> l /\
  Forall basic_text ((fun col => lower (str col)) <$> l).
Proof.
  induction 1 as [|c l Hc Hl [IH1 IH2]]; [by split|].
  rewrite !fmap_cons, IH1, (lower_basic_text _ Hc). split; [done|].
  constructor; [by apply lowered_basic_text|].
  rewrite <- IH1. exact IH2.
Qed.

Lemma foldl_score_step_basic texts : Forall basic_text texts ->
  forall score,
  foldl score_step score texts
  = foldl (score_step (UD := basic_unicode)) score texts.
Proof.
  induction 1 as [|t texts Ht Hts IH]; intros score; [done|].
  simpl. by rewrite IH, (score_step_basic _ _ Ht).
Qed.

(** On ASCII and CJK cells the score does not depend on the Unicode
    version. *)
Lemma score_basic (l : list cell) :
  basic_cells l ->
  _calculate_data_score l = _calculate_data_score (UD := basic_unicode) l.
Proof.
  intros Hl. destruct (lowered_texts_basic l Hl) as [Heq Hb].
  unfold _calculate_data_score. destruct l as [|c l]; [done|].
  rewrite (foldl_score_step_basic _ Hb). by rewrite Heq.
Qed.

Lemma lowered_set_basic (l : list cell) :
  basic_cells l -> lowered_set l = lowered_set (UD := basic_unicode) l.
Proof.
  intros Hl. unfold lowered_set. by destruct (lowered_texts_basic l Hl) as [-> _].
Qed.

(** A first line of ASCII and CJK cells that scores 3 or more is the
    header whatever the data rows are. *)
Lemma strong_header_names header data :
  basic_cells header ->
  (3 <= _calculate_data_score (UD := basic_unicode) header) ->
  column_names (_process_data_chunk_fast {| columns := header; rows := data |})
  = lowered_set (UD := basic_unicode) header.
Proof.
  intros Hb Hs. rewrite <- (score_basic _ Hb) in Hs.
  destruct (process_header {| columns := header; rows := data |}) as [_ Hn].
  cbv zeta in Hn. rewrite Hn, score_second_row_eq. cbn [columns].
  destruct (Z.ltb_spec (_calculate_data_score header) 3) as [|_]; [lia|].
  rewrite bool_decide_eq_true_2 by lia. by apply lowered_set_basic.
Qed.

Lemma identified_iff (chunk_df : chunk) :
  let res := _process_data_chunk_fast chunk_df in
  let o := size (column_names res ∩ option_indicators) in
  let f := size (column_names res ∩ future_indicators) in
  let s := size (column_names res ∩ stock_indicators) in
  (identified res = Options <-> (2 <= o)%nat) /\
  (identified res = Futures <-> (o = 0 /\ 2 <= f)%nat) /\
  (identified res = Stocks <-> (o = 0 /\ f = 0 /\ 2 <= s)%nat) /\
  (identified res = Options -> routed res = ImportAsOptions) /\
  (identified res = Futures -> routed res = ImportAsFutures) /\
  (identified res = Stocks ->
   routed res = ImportAsStocks \/
   exists info, routed res = ImportAsStocksWithSymbol info).
Proof.
  intros res o f s.
  pose proof (process_cascade chunk_df) as Hc. cbv zeta in Hc.
  fold res in Hc. fold o f s in Hc.
  generalize dependent (identified res). intros ty Hc.
  destruct ty; repeat apply conj; intros H; try discriminate H;
    try reflexivity; try tauto; try lia.
Qed.

(** The verdict for a first line of ASCII and CJK cells scoring 3 or more,
    read off the three scores computed with the restricted tables. *)
Lemma strong_header_verdict header data :
  basic_cells header ->
  (3 <= _calculate_data_score (UD := basic_unicode) header) ->
  let names := lowered_set (UD := basic_unicode) header in
  let res := _process_data_chunk_fast {| columns := header; rows := data |} in
  ((2 <= size (names ∩ option_indicators))%nat -> identified res = Options) /\
  (size (names ∩ option_indicators) = 0%nat ->
   size (names ∩ future_indicators) = 0%nat ->
   (2 <= size (names ∩ stock_indicators))%nat -> identified res = Stocks).
Proof.
  intros Hb Hs names res.
  destruct (identified_iff {| columns := header; rows := data |})
    as (Ho & _ & Hst & _).
  fold res in Ho, Hst.
  pose proof (strong_header_names header data Hb Hs) as Hn. fold res names in Hn.
  rewrite Hn in Ho, Hst. split.
  - intros H. by apply Ho.
  - intros H1 H2 H3. by apply Hst.
Qed.

(** C3: the three scores are the sizes of the intersections of the
    lowercased header set with the option, future and stock indicator sets,
    that is the number of indicator keywords found among the lowercased
    header cells; the chunk is identified as options when the option score is
    at least 2, else as futures when the future score is at least 2 and the
    option score 0, else as stocks when the stock score is at least 2 and the
    other two are 0, else left to the second pass.  So an option score of 2
    or more gives options whatever the stock score, the header 履約價,
    買賣權, 到期月份 gives options and open, high, low, close, volume gives
    stocks, for any data rows and any Unicode version. *)
Theorem classification_cascade (chunk_df : chunk) :
  let res := _process_data_chunk_fast chunk_df in
  let o := size (column_names res ∩ option_indicators) in
  let f := size (column_names res ∩ future_indicators) in
  let s := size (column_names res ∩ stock_indicators) in
  (exists header,
     (header = columns chunk_df \/ header = first_data_row chunk_df) /\
     column_names res = lowered_set header /\
     o = indicator_hits option_indicator_list header /\
     f = indicator_hits future_indicator_list header /\
     s = indicator_hits stock_indicator_list header) /\
  ((identified res = Options <-> (2 <= o)%nat) /\
   (identified res = Futures <-> (o = 0 /\ 2 <= f)%nat) /\
   (identified res = Stocks <-> (o = 0 /\ f = 0 /\ 2 <= s)%nat) /\
   (identified res = Options -> routed res = ImportAsOptions) /\
   (identified res = Futures -> routed res = ImportAsFutures) /\
   (identified res = Stocks ->
    routed res = ImportAsStocks \/
    exists info, routed res = ImportAsStocksWithSymbol info)) /\
  (forall data,
     identified (_process_data_chunk_fast
                   {| columns := Samples.option_header; rows := data |}) = Options) /\
  (forall data,
     identified (_process_data_chunk_fast
                   {| columns := Samples.stock_header; rows := data |}) = Stocks) /\
  (forall data,
     identified (_process_data_chunk_fast
                   {| columns := Samples.mixed_header; rows := data |}) = Options).
Proof.
  intros res o f s.
  split; [|split; [apply identified_iff|split; [|split]]].
  - destruct (process_header chunk_df) as [_ Hnames]. fold res in Hnames.
    exists (if bool_decide (score_second_row chunk_df
                            <= _calculate_data_score (columns chunk_df))
            then columns chunk_df else first_data_row chunk_df).
    assert (column_names res = lowered_set
              (if bool_decide (score_second_row chunk_df
                               <= _calculate_data_score (columns chunk_df))
               then columns chunk_df else first_data_row chunk_df)) as Heq.
    { rewrite Hnames. by case_bool_decide. }
    split; [case_bool_decide; auto|]. split; [exact Heq|].
    unfold o, f, s. rewrite Heq. apply lowered_set_scores.
  - intros data.
    apply (strong_header_verdict Samples.option_header data);
      by_compute.
  - intros data.
    apply (strong_header_verdict Samples.stock_header data);
      by_compute.
  - intros data.
    apply (strong_header_verdict Samples.mixed_header data);
      by_compute.
Qed.

End Classifier.

(** The first line scores 4, the first data row 6, and still the first
    line is taken as the header: the score comparison is made only when the
    first line scores below 3. *)
Lemma header_choice_counterexample :
  ~ (Extractor.data_start_index
       (Extractor._process_data_chunk_fast (UD := basic_unicode)
          Samples.weak_header_chunk) = 0%nat <->
     (Extractor._calculate_data_score (UD := basic_unicode)
        (Spec.first_data_row Samples.weak_header_chunk)
      <= Extractor._calculate_data_score (UD := basic_unicode)
           (Extractor.columns Samples.weak_header_chunk))%Z).
Proof.
  intros [Hto _].
  assert (6 <= 4)%Z as Habs; [|lia].
  change 6%Z with (Extractor._calculate_data_score (UD := basic_unicode)
                     (Spec.first_data_row Samples.weak_header_chunk)).
  change 4%Z with (Extractor._calculate_data_score (UD := basic_unicode)
                     (Extractor.columns Samples.weak_header_chunk)).
  apply Hto. by vm_compute.
Qed.

(** ** Symbol extraction *)

Section SymbolExtraction.
Import Extractor Spec.
Context {UD : UnicodeData}.

Lemma takeWhile_app p l1 l2 :
  Forall (fun c => p c = true) l1 -> head_outside p l2 ->
  takeWhile p (l1 ++ l2) = l1.
Proof.
  induction 1 as [|c l1 Hc Hl IH]; intros Hout; simpl.
  - destruct l2 as [|c l2]; [done|]. simpl in *. by rewrite Hout.
  - rewrite Hc. f_equal. by apply IH.
Qed.

Lemma run_app p l1 l2 :
  Forall (fun c => p c = true) l1 -> head_outside p l2 ->
  run p (l1 ++ l2) = length l1.
Proof. intros H1 H2. unfold run. by rewrite takeWhile_app. Qed.

Lemma run_outside p l : head_outside p l -> run p l = 0%nat.
Proof. intros H. by apply (run_app p [] l). Qed.

Lemma head_outside_app p l1 l2 :
  Forall (fun c => p c = false) l1 -> (l1 = [] -> head_outside p l2) ->
  head_outside p (l1 ++ l2).
Proof.
  intros H1 H2. destruct H1 as [|c l1 Hc _]; [by apply H2|done].
Qed.

Lemma head_outside_nonempty p l :
  l <> [] -> Forall (fun c => p c = false) l -> forall l2, head_outside p (l ++ l2).
Proof. intros Hne Hl l2. apply head_outside_app; [done|]. by intros ->. Qed.

Lemma first_down_hit {A} (f : nat -> option A) lo n r :
  (lo <= n)%nat -> f n = Some r -> first_down f lo n = Some r.
Proof.
  intros Hle Hf. destruct n; simpl.
  - destruct (Nat.ltb_spec 0 lo); [lia|]. by rewrite Hf.
  - destruct (Nat.ltb_spec (S n) lo); [lia|]. by rewrite Hf.
Qed.

Lemma first_down_below {A} (f : nat -> option A) lo n :
  (n < lo)%nat -> first_down f lo n = None.
Proof.
  intros Hlt. destruct n; simpl.
  - destruct (Nat.ltb_spec 0 lo); [done|lia].
  - destruct (Nat.ltb_spec (S n) lo); [done|lia].
Qed.

(** The character classes of the pattern are pairwise disjoint. *)
Lemma letter_ascii c : is_ascii_letter c = true -> (c < 128)%N.
Proof.
  unfold is_ascii_letter, in_range.
  intros [[_ H]%andb_prop|[_ H]%andb_prop]%orb_prop; apply N.leb_le in H; lia.
Qed.

Lemma letter_not_decimal c : is_ascii_letter c = true -> isdecimal c = false.
Proof.
  intros Hl. rewrite (isdecimal_ascii c (letter_ascii c Hl)).
  revert Hl. unfold is_ascii_letter, ascii_digit, in_range.
  intros [[H1 H2]%andb_prop|[H1 H2]%andb_prop]%orb_prop;
    apply N.leb_le in H1; apply N.leb_le in H2;
    apply andb_false_iff; right; apply N.leb_gt; lia.
Qed.

Lemma letter_not_space c : is_ascii_letter c = true -> isspace c = false.
Proof.
  intros Hl. rewrite (isspace_ascii c (letter_ascii c Hl)).
  revert Hl. unfold is_ascii_letter, ascii_space, in_range.
  intros [[H1 H2]%andb_prop|[H1 H2]%andb_prop]%orb_prop;
    apply N.leb_le in H1; apply N.leb_le in H2;
    apply orb_false_iff; split; apply andb_false_iff; right; apply N.leb_gt; lia.
Qed.

Lemma space_not_decimal c : isspace c = true -> isdecimal c = false.
Proof.
  intros Hs. destruct (isdecimal c) eqn:Hd; [|done].
  by rewrite (isdecimal_not_space c Hd) in Hs.
Qed.

Lemma space_not_letter c : isspace c = true -> is_ascii_letter c = false.
Proof.
  intros Hs. destruct (is_ascii_letter c) eqn:Hl; [|done].
  by rewrite (letter_not_space c Hl) in Hs.
Qed.

Lemma space_not_cjk c : isspace c = true -> is_cjk c = false.
Proof.
  intros Hs. destruct (is_cjk c) eqn:Hc; [|done].
  by rewrite (isspace_cjk c Hc) in Hs.
Qed.

Lemma Forall_class_impl (p q : codepoint -> bool) (b : bool) l :
  (forall c, p c = true -> q c = b) ->
  Forall (fun c => p c = true) l -> Forall (fun c => q c = b) l.
Proof. intros Hpq H. eapply Forall_impl; [exact H|exact Hpq]. Qed.

End SymbolExtraction.

Section SymbolPattern.
Import Extractor Spec Matching.
Context {UD : UnicodeData}.

(** The pattern body on [ds ++ ls ++ ws ++ name ++ rest]: every greedy
    quantifier succeeds at its first try. *)
Lemma code_part_occurrence pre ds ls ws name rest :
  symbol_occurrence pre ds ls ws name rest ->
  code_part (ds ++ ls ++ ws ++ name ++ rest) = Some (ds ++ ls, name).
Proof.
  intros [_ _ Hds Hn Hls [Hwne Hws] [Hnne Hname] Hend].
  assert (head_outside isspace (name ++ rest)) as Hout_s.
  { apply head_outside_nonempty; [done|].
    eapply Forall_class_impl; [|exact Hname]. apply isspace_cjk. }
  assert (head_outside is_ascii_letter (ws ++ name ++ rest)) as Hout_l.
  { apply head_outside_nonempty; [done|].
    eapply Forall_class_impl; [|exact Hws]. apply space_not_letter. }
  assert (head_outside isdecimal (ls ++ ws ++ name ++ rest)) as Hout_d.
  { apply head_outside_app.
    - eapply Forall_class_impl; [|exact Hls]. apply letter_not_decimal.
    - intros _. apply head_outside_nonempty; [done|].
      eapply Forall_class_impl; [|exact Hws]. apply space_not_decimal. }
  assert (name_part (name ++ rest) = Some name) as Hname_part.
  { unfold name_part. rewrite (run_app _ _ _ Hname Hend).
    destruct (Nat.eqb_spec (length name) 0) as [H0|_]; [by destruct name|].
    by rewrite take_app_length. }
  assert (spaces_part (ws ++ name ++ rest) = Some name) as Hspaces.
  { unfold spaces_part. rewrite (run_app _ _ _ Hws Hout_s).
    apply first_down_hit; [destruct ws; [done|simpl; lia]|].
    by rewrite drop_app_length. }
  assert (letters_part (ls ++ ws ++ name ++ rest) = Some (length ls, name))
    as Hletters.
  { unfold letters_part. rewrite (run_app _ _ _ Hls Hout_l).
    apply first_down_hit; [lia|].
    by rewrite drop_app_length, Hspaces. }
  unfold code_part. rewrite (run_app _ _ _ Hds Hout_d).
  rewrite Nat.min_l by lia.
  apply first_down_hit; [lia|].
  rewrite drop_app_length, Hletters. f_equal. f_equal.
  rewrite app_assoc, <- length_app. apply take_app_length.
Qed.

(** Without a decimal digit at its head the body cannot match. *)
Lemma code_part_no_digit t : head_outside isdecimal t -> code_part t = None.
Proof.
  intros Ht. unfold code_part. rewrite (run_outside _ _ Ht).
  apply first_down_below. simpl. lia.
Qed.

Lemma match_here_no_digit at_start c s :
  isdecimal c = false -> head_outside isdecimal s ->
  match_here at_start (c :: s) = None.
Proof.
  intros Hc Hs. unfold match_here.
  rewrite (code_part_no_digit s Hs), (code_part_no_digit (c :: s) Hc).
  by destruct (isspace c), at_start.
Qed.

(** A text without decimal digits has no match at all. *)
Lemma search_no_digit s : Forall (fun c => isdecimal c = false) s ->
  forall at_start, search_from at_start s = None.
Proof.
  induction 1 as [|c s Hc Hs IH]; intros at_start.
  - simpl. unfold match_here. rewrite (code_part_no_digit []) by done.
    by destruct at_start.
  - cbn [search_from]. rewrite match_here_no_digit; [apply IH|done|].
    by destruct Hs.
Qed.

Lemma search_after_prefix t g c : isspace c = true -> code_part t = Some g ->
  forall p at_start, Forall (fun a => isdecimal a = false) p ->
  search_from at_start (p ++ c :: t) = Some g.
Proof.
  intros Hc Ht. induction p as [|a p IH]; intros at_start Hp.
  - cbn [app search_from]. unfold match_here. by rewrite Hc, Ht.
  - apply Forall_cons in Hp as [Ha Hp].
    change ((a :: p) ++ c :: t) with (a :: (p ++ c :: t)).
    cbn [search_from]. rewrite match_here_no_digit; [by apply IH|done|].
    destruct Hp as [|b p Hb _]; simpl; [by apply space_not_decimal|done].
Qed.

(** The leftmost match of the pattern in an occurrence text. *)
Lemma re_search_occurrence pre ds ls ws name rest :
  symbol_occurrence pre ds ls ws name rest ->
  re_search (pre ++ ds ++ ls ++ ws ++ name ++ rest) = Some (ds ++ ls, name).
Proof.
  intros Hocc. pose proof (code_part_occurrence _ _ _ _ _ _ Hocc) as Hbody.
  destruct Hocc as [Hpre Hleft Hds Hn _ _ _ _]. unfold re_search.
  destruct Hpre as [->|(p & c & -> & Hc)].
  - cbn [app]. destruct ds as [|d ds]; [simpl in Hn; lia|].
    apply Forall_cons in Hds as [Hd _].
    cbn [app search_from] in *. unfold match_here.
    by rewrite (isdecimal_not_space d Hd), Hbody.
  - rewrite <- app_assoc. cbn [app].
    apply Forall_app in Hleft as [Hp _].
    by apply search_after_prefix.
Qed.

Lemma dropWhile_outside p s : head_outside p s -> dropWhile p s = s.
Proof. destruct s as [|c s]; [done|]. simpl. by intros ->. Qed.

Lemma Forall_head_outside p s :
  Forall (fun c => p c = false) s -> head_outside p s.
Proof. by destruct 1. Qed.

(** [strip] leaves a text without whitespace as it is. *)
Lemma strip_no_space s : Forall (fun c => isspace c = false) s -> strip s = s.
Proof.
  intros Hs. unfold strip.
  rewrite (dropWhile_outside _ s) by by apply Forall_head_outside.
  rewrite dropWhile_outside; [apply reverse_involutive|].
  by apply Forall_head_outside, Forall_reverse.
Qed.

Lemma code_no_space ds ls :
  Forall (fun c => isdecimal c = true) ds ->
  Forall (fun c => is_ascii_letter c = true) ls ->
  Forall (fun c => isspace c = false) (ds ++ ls).
Proof.
  intros Hds Hls. apply Forall_app. split.
  - eapply Forall_class_impl; [|exact Hds]. apply isdecimal_not_space.
  - eapply Forall_class_impl; [|exact Hls]. apply letter_not_space.
Qed.

Lemma symbol_format_code ds ls :
  Forall (fun c => isdecimal c = true) ds -> ds <> [] ->
  Forall (fun c => is_ascii_letter c = true) ls ->
  symbol_format (ds ++ ls) = true.
Proof.
  intros Hds Hne Hls. unfold symbol_format. apply bool_decide_eq_true.
  exists tt. rewrite run_app; [|done|].
  - apply first_down_hit; [destruct ds; [done|simpl; lia]|].
    rewrite drop_app_length.
    rewrite <- (app_nil_r ls) at 1. rewrite run_app; [|done|done].
    apply first_down_hit; [lia|].
    rewrite <- length_app, drop_all. done.
  - apply Forall_head_outside.
    eapply Forall_class_impl; [|exact Hls]. apply letter_not_decimal.
Qed.

Lemma valid_symbol_length symbol :
  _is_valid_tw_stock_symbol symbol = true -> (4 <= length symbol <= 6)%nat.
Proof.
  unfold _is_valid_tw_stock_symbol. repeat case_match; try done.
  intros _. match goal with H : bool_decide _ = true |- _ =>
    apply bool_decide_eq_true in H; elem_inv H; lia end.
Qed.

Lemma valid_symbol_code ds ls :
  Forall (fun c => isdecimal c = true) ds -> ds <> [] ->
  Forall (fun c => is_ascii_letter c = true) ls ->
  (4 <= length (ds ++ ls) <= 6)%nat ->
  _is_valid_tw_stock_symbol (ds ++ ls) = true.
Proof.
  intros Hds Hne Hls Hlen. unfold _is_valid_tw_stock_symbol.
  rewrite (symbol_format_code ds ls Hds Hne Hls).
  destruct (Nat.ltb_spec (length (ds ++ ls)) 3); [lia|].
  destruct (Nat.ltb_spec 6 (length (ds ++ ls))); [lia|]. cbn [orb negb].
  rewrite bool_decide_eq_true_2; [done|].
  assert (length (ds ++ ls) = 4 \/ length (ds ++ ls) = 5 \/ length (ds ++ ls) = 6)%nat
    as [->|[->| ->]] by lia; elem.
Qed.

Lemma extract_header_skip before : forall i l,
  extract_header_from i before = None ->
  extract_header_from i (before ++ l) = extract_header_from (i + length before) l.
Proof.
  induction before as [|col before IH]; intros i l Hnone.
  - simpl. f_equal. lia.
  - cbn [app extract_header_from length] in *.
    replace (i + S (length before))%nat with (S i + length before)%nat by lia.
    repeat case_match; try discriminate; by apply IH.
Qed.

Lemma extract_data_skip before : forall i l,
  extract_data_from i before = None ->
  extract_data_from i (before ++ l) = extract_data_from (i + length before) l.
Proof.
  induction before as [|col before IH]; intros i l Hnone.
  - simpl. f_equal. lia.
  - cbn [app extract_data_from length] in *.
    replace (i + S (length before))%nat with (S i + length before)%nat by lia.
    repeat case_match; try discriminate; by apply IH.
Qed.

Lemma extract_header_valid cols : forall i info,
  extract_header_from i cols = Some info -> (4 <= length (symbol info) <= 6)%nat.
Proof.
  induction cols as [|col cols IH]; intros i info; [done|].
  cbn [extract_header_from]. repeat case_match; try (by apply IH).
  intros [= <-]. by apply valid_symbol_length.
Qed.

Lemma extract_data_valid cols : forall i info,
  extract_data_from i cols = Some info -> (4 <= length (symbol info) <= 6)%nat.
Proof.
  induction cols as [|col cols IH]; intros i info; [done|].
  cbn [extract_data_from]. repeat case_match; try (by apply IH).
  intros [= <-]. by apply valid_symbol_length.
Qed.

End SymbolPattern.

Section SymbolLeftmost.
Import Extractor Spec Matching.
Context {UD : UnicodeData}.

(** *** Soundness of the search: what a reported match is *)

Lemma first_down_Some {A} (f : nat -> option A) lo n r :
  first_down f lo n = Some r -> exists k, (lo <= k <= n)%nat /\ f k = Some r.
Proof.
  induction n as [|n IH]; cbn [first_down].
  - destruct (Nat.ltb_spec 0 lo); [done|].
    destruct (f 0%nat) eqn:Hf; [|done]. intros [= ->]. exists 0%nat. split; [lia|done].
  - destruct (Nat.ltb_spec (S n) lo); [done|].
    destruct (f (S n)) eqn:Hf.
    + intros [= ->]. exists (S n). split; [lia|done].
    + intros H1. destruct (IH H1) as (k & Hk & Hfk). exists k. split; [lia|done].
Qed.

Lemma takeWhile_dropWhile p s : takeWhile p s ++ dropWhile p s = s.
Proof.
  induction s as [|c s IH]; [done|]. simpl. destruct (p c); [|done].
  simpl. by rewrite IH.
Qed.

Lemma takeWhile_Forall p s : Forall (fun c => p c = true) (takeWhile p s).
Proof.
  induction s as [|c s IH]; [constructor|]. simpl.
  destruct (p c) eqn:Hc; by constructor.
Qed.

Lemma dropWhile_head p s : head_outside p (dropWhile p s).
Proof.
  induction s as [|c s IH]; [done|]. simpl. destruct (p c) eqn:Hc; [done|].
  simpl. exact Hc.
Qed.

(** The first [k] characters of [s], for [k] within the run of the class. *)
Lemma take_in_run p s k : (k <= run p s)%nat ->
  Forall (fun c => p c = true) (take k s) /\ length (take k s) = k.
Proof.
  unfold run. intros Hk.
  rewrite <- (takeWhile_dropWhile p s) at 1 2.
  rewrite take_app_le by done. split.
  - apply Forall_take, takeWhile_Forall.
  - rewrite length_take. lia.
Qed.

Lemma take_add {A} (l : list A) : forall k m,
  take (k + m) l = take k l ++ take m (drop k l).
Proof.
  induction l as [|a l IH]; intros k m.
  - by rewrite drop_nil, !take_nil.
  - destruct k as [|k]; [done|]. simpl. by rewrite IH.
Qed.

Lemma name_part_Some x nm : name_part x = Some nm ->
  nm <> [] /\ Forall (fun c => is_cjk c = true) nm /\
  exists rest, x = nm ++ rest /\ head_outside is_cjk rest.
Proof.
  unfold name_part, run. destruct (Nat.eqb_spec (length (takeWhile is_cjk x)) 0)
    as [|Hne]; [done|].
  intros [= <-].
  assert (take (length (takeWhile is_cjk x)) x = takeWhile is_cjk x) as ->.
  { rewrite <- (takeWhile_dropWhile is_cjk x) at 2. by rewrite take_app_length. }
  split; [by destruct (takeWhile is_cjk x)|]. split; [apply takeWhile_Forall|].
  exists (dropWhile is_cjk x). split; [by rewrite takeWhile_dropWhile|].
  apply dropWhile_head.
Qed.

Lemma code_part_Some t g1 nm : code_part t = Some (g1, nm) ->
  exists ds ls ws rest,
    t = ds ++ ls ++ ws ++ nm ++ rest /\ g1 = ds ++ ls /\
    pattern_match [] ds ls ws nm rest.
Proof.
  unfold code_part. intros (k & Hk & Hf)%first_down_Some.
  destruct (letters_part (drop k t)) as [[m nm']|] eqn:Hl; [|done].
  injection Hf as <- ->.
  unfold letters_part in Hl. apply first_down_Some in Hl as (m' & Hm & Hl).
  destruct (spaces_part (drop m' (drop k t))) as [nm''|] eqn:Hs; [|done].
  injection Hl as -> ->.
  unfold spaces_part in Hs. apply first_down_Some in Hs as (w & Hw & Hs).
  apply name_part_Some in Hs as (Hnne & Hname & rest & Hrest & Hend).
  destruct (take_in_run isdecimal t k) as [Hds Hdl]; [lia|].
  destruct (take_in_run is_ascii_letter (drop k t) m) as [Hls Hll]; [lia|].
  destruct (take_in_run isspace (drop m (drop k t)) w) as [Hws Hwl]; [lia|].
  exists (take k t), (take m (drop k t)), (take w (drop m (drop k t))), rest.
  split; [|split].
  - rewrite <- Hrest, !take_drop. done.
  - apply take_add.
  - split.
    + by left.
    + done.
    + lia.
    + done.
    + split; [|done]. intros H0. rewrite H0 in Hwl. simpl in Hwl. lia.
    + done.
    + by destruct rest.
Qed.

Lemma search_from_Some s : forall at_start g1 nm,
  search_from at_start s = Some (g1, nm) ->
  exists pre t, s = pre ++ t /\ code_part t = Some (g1, nm) /\
    ((pre = [] /\ at_start = true) \/ exists p c, pre = p ++ [c] /\ isspace c = true).
Proof.
  induction s as [|c s IH]; intros at_start g1 nm.
  - cbn [search_from match_here]. destruct at_start; [|done].
    destruct (code_part []) as [g|] eqn:Hc; [|done]. intros [= ->].
    exists [], []. split; [done|]. split; [done|]. by left.
  - cbn [search_from]. destruct (match_here at_start (c :: s)) as [g|] eqn:Hm.
    + intros [= ->]. unfold match_here in Hm.
      destruct (isspace c) eqn:Hsp.
      * destruct (code_part s) as [g|] eqn:Hc.
        -- injection Hm as ->. exists [c], s. split; [done|]. split; [done|].
           right. by exists [], c.
        -- destruct at_start; [|done]. exists [], (c :: s).
           split; [done|]. split; [done|]. by left.
      * destruct at_start; [|done]. exists [], (c :: s).
        split; [done|]. split; [done|]. by left.
    + intros H. apply IH in H as (pre & t & -> & Hc & Hb).
      exists (c :: pre), t. split; [done|]. split; [done|]. right.
      destruct Hb as [[-> [=]]|(p & c' & -> & Hc')].
      by exists (c :: p), c'.
Qed.

(** Every match reported by the search is a match of the pattern. *)
Lemma re_search_sound s g1 nm : re_search s = Some (g1, nm) ->
  exists pre ds ls ws rest,
    s = pre ++ ds ++ ls ++ ws ++ nm ++ rest /\ g1 = ds ++ ls /\
    pattern_match pre ds ls ws nm rest.
Proof.
  unfold re_search. intros (pre & t & -> & Hc & Hb)%search_from_Some.
  apply code_part_Some in Hc as (ds & ls & ws & rest & -> & -> & Hpm).
  exists pre, ds, ls, ws, rest. split; [done|]. split; [done|].
  destruct Hpm as [_ H2 H3 H4 H5 H6 H7]. split; try done.
  destruct Hb as [[-> _]|Hb]; [by left|by right].
Qed.

Lemma match_strips s g1 nm info_symbol info_name :
  re_search s = Some (g1, nm) ->
  info_symbol = strip g1 -> info_name = strip nm ->
  _is_valid_tw_stock_symbol info_symbol = true ->
  exists pre ds ls ws rest,
    s = pre ++ ds ++ ls ++ ws ++ info_name ++ rest /\
    info_symbol = ds ++ ls /\
    pattern_match pre ds ls ws info_name rest /\
    (4 <= length info_symbol <= 6)%nat.
Proof.
  intros (pre & ds & ls & ws & rest & -> & -> & Hpm)%re_search_sound -> -> Hv.
  pose proof (valid_symbol_length _ Hv) as Hlen.
  destruct Hpm as [H1 H2 H3 H4 H5 H6 H7].
  rewrite (strip_no_space (ds ++ ls)) in * by by apply code_no_space.
  rewrite (strip_no_space nm) in *.
  2:{ eapply Forall_class_impl; [|apply H6]. apply isspace_cjk. }
  exists pre, ds, ls, ws, rest. split; [done|]. split; [done|]. split; [|done].
  by split.
Qed.

(** *** The leftmost match *)

(** The pattern body on a match: every greedy quantifier succeeds at its
    first try. *)
Lemma code_part_match pre ds ls ws name rest :
  pattern_match pre ds ls ws name rest ->
  code_part (ds ++ ls ++ ws ++ name ++ rest) = Some (ds ++ ls, name).
Proof.
  intros [Hb Hds Hn Hls Hws Hname Hend].
  apply (code_part_occurrence []). split.
  - by left.
  - constructor.
  - done.
  - done.
  - done.
  - done.
  - done.
  - by destruct rest.
Qed.

Lemma search_from_hit at_start s g :
  match_here at_start s = Some g -> search_from at_start s = Some g.
Proof. intros Hm. destruct s; cbn [search_from]; by rewrite Hm. Qed.

Lemma search_from_miss at_start c s :
  match_here at_start (c :: s) = None ->
  search_from at_start (c :: s) = search_from false s.
Proof. intros Hm. cbn [search_from]. by rewrite Hm. Qed.

(** A match that starts at the current position is found there. *)
Lemma match_here_at at_start pre ds ls ws name rest :
  pattern_match pre ds ls ws name rest ->
  (pre = [] /\ at_start = true) \/ (exists c, pre = [c]) ->
  match_here at_start (pre ++ ds ++ ls ++ ws ++ name ++ rest) = Some (ds ++ ls, name).
Proof.
  intros Hpm Hpre. pose proof (code_part_match _ _ _ _ _ _ Hpm) as Hbody.
  destruct Hpm as [Hb Hds Hn _ _ _ _].
  destruct Hpre as [[-> ->]|[c ->]].
  - cbn [app]. unfold match_here. rewrite Hbody.
    destruct ds as [|d ds]; [simpl in Hn; lia|].
    apply Forall_cons in Hds as [Hd _]. cbn [app].
    by rewrite (isdecimal_not_space d Hd).
  - destruct Hb as [[=]|(p & c' & Heq & Hc')].
    assert (c' = c) as ->.
    { destruct p as [|x [|y p]]; simplify_eq/=; done. }
    cbn [app]. unfold match_here. by rewrite Hc', Hbody.
Qed.

(** A success at the current position is a match of the pattern that
    starts there. *)
Lemma match_here_sound at_start s g1 nm :
  match_here at_start s = Some (g1, nm) ->
  exists pre ds ls ws rest,
    s = pre ++ ds ++ ls ++ ws ++ nm ++ rest /\ g1 = ds ++ ls /\
    pattern_match [] ds ls ws nm rest /\
    ((pre = [] /\ at_start = true) \/ exists c, pre = [c] /\ isspace c = true).
Proof.
  unfold match_here. intros Hm.
  assert (exists pre t, s = pre ++ t /\ code_part t = Some (g1, nm) /\
            ((pre = [] /\ at_start = true) \/ exists c, pre = [c] /\ isspace c = true))
    as (pre & t & -> & Hc & Hb).
  { destruct s as [|c s].
    - destruct at_start; [|done]. exists [], []. split; [done|].
      split; [done|]. by left.
    - destruct (isspace c) eqn:Hsp.
      + destruct (code_part s) as [g|] eqn:Hcs.
        * injection Hm as ->. exists [c], s. split; [done|]. split; [done|].
          right. by exists c.
        * destruct at_start; [|done]. exists [], (c :: s).
          split; [done|]. split; [done|]. by left.
      + destruct at_start; [|done]. exists [], (c :: s).
        split; [done|]. split; [done|]. by left. }
  apply code_part_Some in Hc as (ds & ls & ws & rest & -> & -> & Hpm).
  by exists pre, ds, ls, ws, rest.
Qed.

Lemma pattern_match_boundary pre ds ls ws name rest :
  pattern_match [] ds ls ws name rest ->
  pre = [] \/ (exists p c, pre = p ++ [c] /\ isspace c = true) ->
  pattern_match pre ds ls ws name rest.
Proof. intros [_ H2 H3 H4 H5 H6 H7] Hb. by split. Qed.

(** The search passes over every position before the leftmost match and
    stops at it. *)
Lemma search_from_leftmost s pre ds ls ws name rest :
  leftmost_match s pre ds ls ws name rest ->
  forall t acc at_start,
    s = acc ++ t -> (at_start = true <-> acc = []) ->
    (length acc <= length pre - 1)%nat ->
    search_from at_start t = Some (ds ++ ls, name).
Proof.
  intros (Hs & Hpm & Hleft). induction t as [|c t IH]; intros acc at_start Hacc Hst Hlen.
  - (* the text is used up, so the match starts here with nothing matched *)
    rewrite app_nil_r in Hacc. subst acc. rewrite Hs in Hlen.
    rewrite !length_app in Hlen. destruct Hpm as [_ _ Hn _ _ _ _]. lia.
  - destruct (decide (length acc = length pre - 1)%nat) as [Heq|Hne].
    + apply search_from_hit.
      destruct (pm_boundary _ _ _ _ _ _ Hpm) as [Hnil|(p & x & Hp & Hx)].
      * subst pre. destruct acc; [|simpl in Heq; lia].
        cbn [app] in Hs, Hacc. rewrite <- Hacc, Hs.
        apply (match_here_at _ []); [done|]. left. split; [done|by apply Hst].
      * assert (acc = p) as ->.
        { subst pre. rewrite length_app in Heq. cbn [length] in Heq.
          rewrite Hs, <- app_assoc in Hacc.
          apply (f_equal (take (length p))) in Hacc.
          rewrite take_app_length in Hacc. rewrite take_app_length' in Hacc by lia.
          done. }
        subst pre. rewrite Hs, <- app_assoc in Hacc. apply app_inv_head in Hacc.
        rewrite <- Hacc.
        apply (match_here_at _ [x]).
        -- apply (pattern_match_boundary [x] _ _ _ _ _).
           ++ destruct Hpm as [_ H2 H3 H4 H5 H6 H7]. by split; [left|..].
           ++ right. by exists [], x.
        -- right. by exists x.
    + rewrite search_from_miss.
      * apply (IH (acc ++ [c])).
        -- by rewrite <- app_assoc.
        -- split; [done|]. by destruct acc.
        -- rewrite length_app. cbn [length]. lia.
      * destruct (match_here at_start (c :: t)) as [[g1 nm]|] eqn:Hm; [exfalso|done].
        apply match_here_sound in Hm
          as (pre0 & ds' & ls' & ws' & rest' & Ht & _ & Hpm' & Hb').
        assert (length pre <= length (acc ++ pre0))%nat as Hle.
        { apply (Hleft (acc ++ pre0) ds' ls' ws' nm rest').
          - by rewrite Hacc, Ht, <- app_assoc.
          - apply (pattern_match_boundary _ _ _ _ _ _ Hpm').
            destruct Hb' as [[-> Hat]|(x & -> & Hx)].
            + left. rewrite app_nil_r. by apply Hst.
            + right. by exists acc, x. }
        rewrite length_app in Hle.
        assert (length pre0 <= 1)%nat by (destruct Hb' as [[-> _]|(x & -> & _)]; simpl; lia).
        lia.
Qed.

(** [re.search] returns the groups of the leftmost match. *)
Lemma re_search_leftmost s pre ds ls ws name rest :
  leftmost_match s pre ds ls ws name rest ->
  re_search s = Some (ds ++ ls, name).
Proof.
  intros Hl. unfold re_search.
  apply (search_from_leftmost s pre ds ls ws name rest Hl s []); [done|done|].
  simpl. lia.
Qed.

(** A match is the leftmost one when no position before its start gives a
    success. *)
Lemma leftmost_by_trial s pre ds ls ws name rest :
  s = pre ++ ds ++ ls ++ ws ++ name ++ rest ->
  pattern_match pre ds ls ws name rest ->
  no_match_before s (length pre - 1) = true ->
  leftmost_match s pre ds ls ws name rest.
Proof.
  intros Hs Hpm Htrial. split; [done|]. split; [done|].
  intros pre' ds' ls' ws' name' rest' Hs' Hpm'.
  destruct (decide (length pre <= length pre')%nat) as [|Hlt]; [done|exfalso].
  unfold no_match_before in Htrial. rewrite forallb_forall in Htrial.
  assert (match_here (length pre' - 1 =? 0)%nat (drop (length pre' - 1) s)
          = Some (ds' ++ ls', name')) as Hhit.
  { destruct (pm_boundary _ _ _ _ _ _ Hpm') as [Hnil|(p & x & Hp & Hx)].
    - subst pre'. cbn [length Nat.sub drop Nat.eqb]. rewrite Hs'. cbn [app].
      apply (match_here_at _ []); [done|]. by left.
    - subst pre'. rewrite length_app. cbn [length].
      replace (length p + 1 - 1)%nat with (length p) by lia.
      rewrite Hs', <- app_assoc, drop_app_length.
      apply (match_here_at _ [x]).
      + apply (pattern_match_boundary [x] _ _ _ _ _).
        * destruct Hpm' as [_ H2 H3 H4 H5 H6 H7]. by split; [left|..].
        * right. by exists [], x.
      + right. by exists x. }
  specialize (Htrial (length pre' - 1)%nat). rewrite Hhit in Htrial.
  destruct (decide (length pre' - 1 < length pre - 1)%nat) as [Hin|Hout].
  { assert (false = true) as Hf by (apply Htrial, in_seq; lia). discriminate Hf. }
  (* both start at the first character: a whitespace there cannot be a digit *)
  destruct pre' as [|? ?]; [|simpl in *; lia].
  destruct (pm_boundary _ _ _ _ _ _ Hpm) as [->|(p & x & -> & Hx)];
    [simpl in Hlt; lia|].
  destruct p as [|? p]; [|rewrite length_app in Hout; simpl in *; lia].
  destruct Hpm' as [_ Hds' Hn' _ _ _ _].
  destruct ds' as [|d ds']; [simpl in Hn'; lia|].
  apply Forall_cons in Hds' as [Hd _].
  rewrite Hs in Hs'. cbn [app] in Hs'. injection Hs' as -> _.
  by rewrite (isdecimal_not_space d Hd) in Hx.
Qed.

(** C5, as the code has it: a cell is searched for the leftmost place where
    the pattern matches (at the start or after a whitespace character: 3 to
    6 digits, optional letters, whitespace, a CJK name) and nothing after it
    is looked at.  When the code found there has 4 to 6 characters in all,
    the extraction returns it as the symbol and the CJK text as the name,
    from the first cell of the row that yields a symbol, in a header row as
    in a data row; when it has 3 or more than 6 characters the cell yields
    no symbol.  A returned symbol always has 4 to 6 characters.  In
    particular "2330 台積電" gives symbol "2330" and name "台積電", and
    "AB 台積電" gives no match. *)
Theorem symbol_extraction_of_valid_codes :
  (forall before after s pre ds ls ws name rest,
     leftmost_match s pre ds ls ws name rest ->
     (4 <= length (ds ++ ls) <= 6)%nat ->
     _extract_symbol_from_header before = None ->
     _extract_symbol_from_header (before ++ CStr s :: after)
     = Some {| symbol := ds ++ ls; chinese_name := name; found_in := "header";
               column_index := length before; original_text := Some s |}) /\
  (forall before after s pre ds ls ws name rest,
     leftmost_match s pre ds ls ws name rest ->
     (4 <= length (ds ++ ls) <= 6)%nat ->
     _extract_symbol_from_data before = None ->
     _extract_symbol_from_data (before ++ CStr s :: after)
     = Some {| symbol := ds ++ ls; chinese_name := name; found_in := "data";
               column_index := length before; original_text := None |}) /\
  (forall s pre ds ls ws name rest,
     leftmost_match s pre ds ls ws name rest ->
     ~ (4 <= length (ds ++ ls) <= 6)%nat ->
     _extract_symbol_from_header [CStr s] = None /\
     _extract_symbol_from_data [CStr s] = None) /\
  (forall cells info,
     _extract_symbol_from_header cells = Some info \/
     _extract_symbol_from_data cells = Some info ->
     (4 <= length (symbol info) <= 6)%nat) /\
  _extract_symbol_from_header [CStr (U "2330 台積電")]
  = Some {| symbol := U "2330"; chinese_name := U "台積電"; found_in := "header";
            column_index := 0; original_text := Some (U "2330 台積電") |} /\
  _extract_symbol_from_header [CStr (U "AB 台積電")] = None /\
  _extract_symbol_from_data [CStr (U "AB 台積電")] = None.
Proof.
  assert (forall s pre ds ls ws name rest,
     leftmost_match s pre ds ls ws name rest ->
     re_search s = Some (ds ++ ls, name) /\
     strip (ds ++ ls) = ds ++ ls /\ strip name = name) as Hcell.
  { intros s pre ds ls ws name rest Hl.
    split; [by apply (re_search_leftmost s pre ds ls ws name rest)|].
    destruct Hl as (_ & [_ Hds Hn Hls _ [_ Hname] _] & _).
    split; [by apply strip_no_space, code_no_space|].
    apply strip_no_space. eapply Forall_class_impl; [|exact Hname].
    apply isspace_cjk. }
  assert (forall s pre ds ls ws name rest,
     leftmost_match s pre ds ls ws name rest ->
     (4 <= length (ds ++ ls) <= 6)%nat ->
     _is_valid_tw_stock_symbol (ds ++ ls) = true) as Hvalid.
  { intros s pre ds ls ws name rest (_ & [_ Hds Hn Hls _ _ _] & _) Hlen.
    apply valid_symbol_code; try done. intros ->. simpl in Hn. lia. }
  assert (forall before after s pre ds ls ws name rest,
     leftmost_match s pre ds ls ws name rest ->
     (4 <= length (ds ++ ls) <= 6)%nat ->
     _extract_symbol_from_header before = None ->
     _extract_symbol_from_header (before ++ CStr s :: after)
     = Some {| symbol := ds ++ ls; chinese_name := name; found_in := "header";
               column_index := length before; original_text := Some s |})
    as Hheader.
  { intros before after s pre ds ls ws name rest Hl Hlen Hbefore.
    destruct (Hcell _ _ _ _ _ _ _ Hl) as (Hre & Hs1 & Hs2).
    pose proof (Hvalid _ _ _ _ _ _ _ Hl Hlen) as Hv.
    unfold _extract_symbol_from_header in *.
    rewrite (extract_header_skip _ _ _ Hbefore).
    cbn [extract_header_from]. by rewrite Hre, Hs1, Hs2, Hv. }
  split; [exact Hheader|]. split; [|split; [|split; [|split; [|split]]]].
  - intros before after s pre ds ls ws name rest Hl Hlen Hbefore.
    destruct (Hcell _ _ _ _ _ _ _ Hl) as (Hre & Hs1 & Hs2).
    pose proof (Hvalid _ _ _ _ _ _ _ Hl Hlen) as Hv.
    unfold _extract_symbol_from_data in *.
    rewrite (extract_data_skip _ _ _ Hbefore).
    cbn [extract_data_from]. by rewrite Hre, Hs1, Hs2, Hv.
  - intros s pre ds ls ws name rest Hl Hlen.
    destruct (Hcell _ _ _ _ _ _ _ Hl) as (Hre & Hs1 & Hs2).
    assert (_is_valid_tw_stock_symbol (ds ++ ls) = false) as Hv.
    { apply not_true_is_false. intros Hv. by apply valid_symbol_length in Hv. }
    unfold _extract_symbol_from_header, _extract_symbol_from_data.
    cbn [extract_header_from extract_data_from]. by rewrite Hre, Hs1, Hv.
  - intros cells info [H|H].
    + by apply (extract_header_valid cells 0%nat).
    + by apply (extract_data_valid cells 0%nat).
  - apply (Hheader [] [] (U "2330 台積電") [] (U "2330") [] (U " ") (U "台積電") []).
    + apply leftmost_by_trial; [done| |done].
      split; try done.
      * by left.
      * repeat constructor; by rewrite isdecimal_ascii.
      * simpl. lia.
      * split; [done|]. repeat constructor. by rewrite isspace_ascii.
      * split; [done|]. by repeat constructor.
    + simpl. lia.
    + done.
  - unfold _extract_symbol_from_header. cbn [extract_header_from].
    unfold re_search. rewrite search_no_digit; [done|].
    repeat constructor; first [by rewrite isdecimal_ascii | by apply isdecimal_cjk].
  - unfold _extract_symbol_from_data. cbn [extract_data_from].
    unfold re_search. rewrite search_no_digit; [done|].
    repeat constructor; first [by rewrite isdecimal_ascii | by apply isdecimal_cjk].
Qed.

End SymbolLeftmost.
(** C5 as stated fails twice.  A 3-digit code at the start of the cell,
    whitespace, a CJK name: the pattern is there, and no symbol is
    returned.  A cell with two codes: the second is there after a space, and
    the first is returned. *)
Lemma code_length_and_leftmost_counterexample :
  (Matching.pattern_match (UD := basic_unicode)
     [] (U "123") [] (U " ") (U "台積電") [] /\
   Extractor._extract_symbol_from_header (UD := basic_unicode)
     [Extractor.CStr (U "123 台積電")] = None /\
   Extractor._extract_symbol_from_data (UD := basic_unicode)
     [Extractor.CStr (U "123 台積電")] = None) /\
  (U "1101 台泥 2330 台積電"
     = U "1101 台泥 " ++ U "2330" ++ [] ++ U " " ++ U "台積電" ++ [] /\
   Matching.pattern_match (UD := basic_unicode)
     (U "1101 台泥 ") (U "2330") [] (U " ") (U "台積電") [] /\
   Extractor._extract_symbol_from_header (UD := basic_unicode)
     [Extractor.CStr (U "1101 台泥 2330 台積電")]
   = Some {| Extractor.symbol := U "1101";
             Extractor.chinese_name := U "台泥";
             Extractor.found_in := "header";
             Extractor.column_index := 0;
             Extractor.original_text := Some (U "1101 台泥 2330 台積電") |}).
Proof.
  split.
  - split; [|by vm_compute].
    split; first [ by left | simpl; lia | by_compute | split; [done|by_compute] | done ].
  - split; [by vm_compute|]. split; [|by vm_compute].
    split;
      first [ by (right; exists (U "1101 台泥"), 32%N) | simpl; lia | by_compute
            | split; [done|by_compute] | done ].
Qed.

Lemma symbol_extraction_of_valid_codes_witness :
  Extractor._extract_symbol_from_header (UD := basic_unicode)
    (Samples.cells ["日期"; "股票代號 00878B  國泰永續 日線"; "成交量"])
  = Some {| Extractor.symbol := U "00878B";
            Extractor.chinese_name := U "國泰永續";
            Extractor.found_in := "header";
            Extractor.column_index := 1;
            Extractor.original_text := Some (U "股票代號 00878B  國泰永續 日線") |} /\
  Extractor._extract_symbol_from_data (UD := basic_unicode)
    (Samples.cells ["12 2330 台積電"])
  = Some {| Extractor.symbol := U "2330";
            Extractor.chinese_name := U "台積電";
            Extractor.found_in := "data";
            Extractor.column_index := 0;
            Extractor.original_text := None |}.
Proof.
  destruct (symbol_extraction_of_valid_codes (UD := basic_unicode)) as (Hh & Hd & _).
  split.
  - apply (Hh (Samples.cells ["日期"]) (Samples.cells ["成交量"])
              (U "股票代號 00878B  國泰永續 日線")
              (U "股票代號 ") (U "00878") (U "B") (U "  ") (U "國泰永續") (U " 日線")).
    + apply leftmost_by_trial; [by vm_compute| |by vm_compute].
      split;
        first [ by (right; exists (U "股票代號"), 32%N) | simpl; lia | by_compute
              | split; [done|by_compute] | done ].
    + simpl. lia.
    + by vm_compute.
  - apply (Hd [] [] (U "12 2330 台積電")
              (U "12 ") (U "2330") [] (U " ") (U "台積電") []).
    + apply leftmost_by_trial; [by vm_compute| |by vm_compute].
      split;
        first [ by (right; exists (U "12"), 32%N) | simpl; lia | by_compute
              | split; [done|by_compute] | done ].
    + simpl. lia.
    + by vm_compute.
Defined.


(** ** The two persistence layers *)

Section OptionsTable.
Import Sql FinancialDatabase.

(** The batch insert of the extractor stores nothing: after
    [BEGIN TRANSACTION] the statement [PRAGMA synchronous = OFF] is
    refused, the [except] branch returns 0 and the connection is dropped
    without a commit. *)
Lemma batch_insert_outcome tbl options_list :
  batch_insert_options_fast tbl options_list = (tbl, 0%nat).
Proof. by destruct options_list. Qed.

Lemma import_as_options_outcome now filename tbl chunk_rows :
  _import_as_options now filename tbl chunk_rows = (tbl, 0%nat).
Proof. apply batch_insert_outcome. Qed.

End OptionsTable.

Section DownloaderTable.
Import Sql Downloader Spec.
Local Open Scope Z_scope.

Lemma foldr_max_bounds (s : Z) (l : list Z) :
  s <= foldr Z.max s l /\ forall x, x ∈ l -> x <= foldr Z.max s l.
Proof.
  induction l as [|y l [IH1 IH2]]; csimpl.
  - split; [lia|]. by intros x ?%elem_of_nil.
  - split; [lia|]. intros x [->|Hx]%elem_of_cons; [lia|].
    specialize (IH2 x Hx). lia.
Qed.


Lemma last_id_bounds db :
  sequence db <= last_id db /\ forall r, r ∈ rows db -> id r <= last_id db.
Proof.
  unfold last_id. destruct (foldr_max_bounds (sequence db) (id <$> rows db)) as [H1 H2].
  split; [done|]. intros r Hr. apply H2, list_elem_of_fmap. by exists r.
Qed.


Lemma insert_Some now db r db' :
  insert now db r = Some db' ->
  rows db' = rows db ++ [{| id := last_id db + 1; created_time := now; data := r |}] /\
  sequence db' = last_id db + 1 /\ sequence_covers db'.
Proof.
  unfold insert, next_id. case_match; [|done]. intros [= <-]. cbn [rows sequence].
  split; [done|]. split; [done|].
  unfold sequence_covers. cbn [rows sequence]. apply Forall_app. split.
  - apply Forall_forall. intros x Hx. pose proof (last_id_bounds db) as [_ Hb].
    specialize (Hb x Hx). lia.
  - apply Forall_singleton. cbn [id]. lia.
Qed.

Lemma insert_test now db r :
  is_Some (insert now db r) <->
  constraints_ok r = true /\ unique_key r ∉ (unique_key ∘ data) <$> rows db.
Proof.
  unfold insert.
  assert (negb (existsb (fun old => bool_decide (unique_key r = unique_key (data old)))
                        (rows db)) = true
          <-> unique_key r ∉ (unique_key ∘ data) <$> rows db) as Hkey.
  { rewrite negb_true_iff. split.
    - intros Hn (old & Hk & Hold)%list_elem_of_fmap.
      assert (existsb (fun old => bool_decide (unique_key r = unique_key (data old)))
                (rows db) = true) as Ht; [|by rewrite Ht in Hn].
      apply existsb_exists. exists old. split; [by apply list_elem_of_In|].
      by apply bool_decide_eq_true_2.
    - intros Hnot. apply not_true_is_false. intros He. apply Hnot.
      apply existsb_exists in He as (old & Hold & Hk).
      apply bool_decide_eq_true in Hk. rewrite Hk.
      apply list_elem_of_fmap. exists old. split; [done|by apply list_elem_of_In]. }
  destruct (constraints_ok r); cbn [andb].
  - rewrite <- Hkey. destruct (negb _); split; try done; try (by intros [? ?]).
  - split; [by intros [? ?]|by intros [? _]].
Qed.



Lemma save_unfold clock db df date :
  df <> [] ->
  保存到數據庫 clock db df date =
  match to_sql clock 0 (delete_date (PStr (dashed date)) db) df with
  | Some db' => (db', true)
  | None => (db, false)
  end.
Proof.
  destruct df as [|r df]; [done|]. intros _.
  unfold 保存到數據庫, Sqlite.execute_write, Sqlite.connect, Sqlite.view, Sqlite.commit.
  cbn [Sqlite.stored Sqlite.working default mbind option_bind].
  unfold Datatypes.id.
  by destruct (to_sql clock 0 (delete_date (PStr (dashed date)) db) (r :: df)).
Qed.


Lemma filter_twice {A} (P : A -> Prop) `{forall x, Decision (P x)} (l : list A) :
  filter P (filter P l) = filter P l.
Proof. rewrite list_filter_filter. apply list_filter_iff. tauto. Qed.





End DownloaderTable.

Section Reimport.
Import Sql FinancialDatabase Downloader Spec.
Local Open Scope Z_scope.


End Reimport.

Section ReimportExamples.
Import Sql Downloader.
Local Open Scope Z_scope.



End ReimportExamples.

(** ** Delimiter sniffing and the header-row search *)

Section Delimiters.
Import DataLoader Spec.
Context {UD : UnicodeData}.

Lemma candidates_NoDup : NoDup [U ","; [9%N]; U ";"; U "|"].
Proof. by_compute. Qed.

(** [sniff_delimiters] returns, in candidate order, the candidates that
    occur in the sample, with the comma appended when it does not occur: the
    result is never empty, always holds the comma, has no duplicate and only
    one-character delimiters. *)
Theorem sniff_delimiters_candidates (sample : pystr) :
  (forall d, d ∈ sniff_delimiters sample <->
     d ∈ [U ","; [9%N]; U ";"; U "|"] /\ (substring d sample \/ d = U ",")) /\
  U "," ∈ sniff_delimiters sample /\
  NoDup (sniff_delimiters sample) /\
  (forall d, d ∈ sniff_delimiters sample -> length d = 1%nat) /\
  (substring (U ",") sample ->
   sniff_delimiters sample
   = filter (fun d => contains d sample = true) [U ","; [9%N]; U ";"; U "|"]) /\
  (~ substring (U ",") sample ->
   sniff_delimiters sample
   = filter (fun d => contains d sample = true) [[9%N]; U ";"; U "|"] ++ [U ","]).
Proof.
  unfold sniff_delimiters.
  set (cand := [U ","; [9%N]; U ";"; U "|"]).
  set (found := filter (fun d => contains d sample = true) cand).
  assert (forall d, d ∈ found <-> d ∈ cand /\ substring d sample) as Hfound.
  { intros d. unfold found. rewrite list_elem_of_filter, contains_spec. tauto. }
  assert (forall d, d ∈ (if bool_decide (U "," ∈ found) then found
                         else found ++ [U ","]) <->
                    d ∈ cand /\ (substring d sample \/ d = U ",")) as Hmem.
  { intros d. case_bool_decide as Hc.
    - rewrite Hfound. split; [tauto|]. intros [Hd [Hs| ->]]; [done|].
      by apply Hfound.
    - rewrite elem_of_app, list_elem_of_singleton, Hfound. split.
      + intros [[? ?]| ->]; [tauto|]. split; [elem|by right].
      + tauto. }
  split; [exact Hmem|]. split; [|split; [|split; [|split]]].
  - apply Hmem. split; [elem|by right].
  - case_bool_decide as Hc.
    + apply NoDup_filter, candidates_NoDup.
    + apply NoDup_app. split; [apply NoDup_filter, candidates_NoDup|].
      split; [|apply NoDup_singleton].
      intros d Hd ->%list_elem_of_singleton. done.
  - intros d [Hd _]%Hmem. unfold cand in Hd. elem_inv Hd; by subst.
  - intros Hs. rewrite bool_decide_eq_true_2; [done|].
    apply Hfound. split; [elem|done].
  - intros Hs. rewrite bool_decide_eq_false_2.
    + unfold found, cand. rewrite filter_cons_False; [done|].
      by rewrite contains_spec.
    + intros [_ ?]%Hfound. done.
Qed.

Lemma scan_lines_result delimiter : delimiter <> [] ->
  forall ls i0, exists i,
    scan_lines delimiter i0 ls = Some i /\
    (i = 0%nat \/
     exists ln, (i0 <= i)%nat /\ ls !! (i - i0)%nat = Some ln /\
                line_has_keywords delimiter ln).
Proof.
  intros Hd. induction ls as [|l ls IH]; intros i0.
  - exists 0%nat. split; [done|by left].
  - rewrite (scan_lines_unfold _ _ _ _ Hd).
    destruct (line_check delimiter l) eqn:Hl.
    + exists i0. split; [done|]. right. exists l.
      rewrite Nat.sub_diag. split; [lia|]. split; [done|].
      by apply line_check_spec.
    + destruct (IH (S i0)) as (i & Hi & Hcase). exists i. split; [done|].
      destruct Hcase as [->|(ln & Hle & Hlk & Hkw)]; [by left|].
      right. exists ln. split; [lia|]. split; [|done].
      replace (i - i0)%nat with (S (i - S i0)) by lia. done.
Qed.

(** With a non-empty delimiter, so with every delimiter that
    [sniff_delimiters] proposes, [find_header_row] returns an index (it
    does not raise); the index is below 10, and unless it is the default 0
    it is the index of a line of the sample that has the keywords. *)
Theorem find_header_row_returns_valid_index (lines : list pystr) (delimiter : pystr) :
  delimiter <> [] ->
  exists i, find_header_row lines delimiter = Some i /\
    (i < 10)%nat /\
    (i = 0%nat \/
     exists ln, lines !! i = Some ln /\ line_has_keywords delimiter ln).
Proof.
  intros Hd. unfold find_header_row.
  destruct (scan_lines_result delimiter Hd (take 10 lines) 0%nat)
    as (i & Hi & Hcase).
  exists i. split; [done|].
  destruct Hcase as [->|(ln & _ & Hlk & Hkw)]; [split; [lia|by left]|].
  rewrite Nat.sub_0_r in Hlk.
  pose proof (lookup_lt_Some _ _ _ Hlk) as Hlt. rewrite length_take in Hlt.
  split; [lia|]. right. exists ln. split; [|done].
  rewrite lookup_take_lt in Hlk; [done|lia].
Qed.

End Delimiters.

Lemma find_header_row_returns_valid_index_witness :
  exists i, DataLoader.find_header_row (UD := basic_unicode) Samples.sample_lines [9%N] = Some i /\
    (i < 10)%nat /\
    (i = 0%nat \/
     exists ln, Samples.sample_lines !! i = Some ln /\
                Spec.line_has_keywords (UD := basic_unicode) [9%N] ln).
Proof.
  apply (find_header_row_returns_valid_index (UD := basic_unicode)). discriminate.
Defined.


(** ** More on the lag columns *)

Section LagTwo.
Import Pandas Frame Spec.
Local Open Scope Z_scope.

(** In the frame [out], [p2] is the session two sessions before [r]: the
    previous session of the previous session of [r]. *)
Lemma lags_second_previous rows r p p2 :
  StronglySorted chron rows ->
  r ∈ add_lags [] rows ->
  previous_session (add_lags [] rows) p r ->
  previous_session (add_lags [] rows) p2 p ->
  OI_prev2 r = Numpy.int64_of_float (Numpy.float64_of_int (OI (base p2))) /\
  delta_2 r = Numpy.int64_wrap (OI (base r) - OI_prev2 r).
Proof.
  intros Hs Hr (Hp & [Hpc Hpd] & Himm) (Hp2 & [Hp2c Hp2d] & Himm2).
  destruct (out_row_position rows r Hr) as (l1 & l2 & Hrows & Hrl).
  set (b := base r) in *.
  pose proof Hs as Hs'. rewrite Hrows in Hs'.
  destruct (history_spec l1 b l2 Hs') as (HFs & HF & HFd & _).
  set (F := filter (fun x => contract x = contract b) l1) in *.
  assert (forall q, q ∈ add_lags [] rows -> base q ∈ rows) as Hbase.
  { intros q (a1 & a2 & -> & _)%out_row_position. apply elem_of_app. right. elem. }
  assert (forall q, q ∈ add_lags [] rows -> earlier_session q r -> base q ∈ F)
    as HinF.
  { intros q Hq [Hqc Hqd]. apply (earlier_in_history l1 b l2); try done.
    rewrite <- Hrows. by apply Hbase. }
  assert (forall h, h ∈ F -> exists q, q ∈ add_lags [] rows /\ base q = h
                                       /\ earlier_session q r) as Hback.
  { intros h HhF. pose proof (HFd h HhF) as Hhd. apply HF in HhF as [Hhl1 Hhc].
    destruct (base_elem_of_add_lags rows h) as (q & Hq & Hqb).
    { rewrite Hrows. apply elem_of_app. by left. }
    exists q. split; [done|]. split; [done|]. split; by rewrite Hqb. }
  assert (earlier_session p2 r) as Hp2r.
  { split; [by transitivity (contract (base p))|fold b; lia]. }
  pose proof (HinF p Hp (conj Hpc Hpd)) as HpF.
  pose proof (HinF p2 Hp2 Hp2r) as Hp2F.
  assert (OI_prev2 r = Numpy.int64_of_float (Numpy.float64_of_int (OI (base p2))))
    as Hprev.
  { rewrite Hrl. destruct (lagged_columns (reverse l1) b) as (_ & -> & _).
    rewrite filter_reverse. fold F.
    (* the last two elements of the history are [p2] and [p] *)
    destruct (reverse F) as [|h1 [|h2 t]] eqn:Hrev.
    - apply (f_equal reverse) in Hrev. rewrite reverse_involutive in Hrev.
      rewrite Hrev in HpF. by apply elem_of_nil in HpF.
    - apply (f_equal reverse) in Hrev. rewrite reverse_involutive in Hrev.
      change (reverse [h1]) with [h1] in Hrev. rewrite Hrev in HpF, Hp2F.
      apply list_elem_of_singleton in HpF, Hp2F.
      rewrite Hp2F, HpF in Hp2d. lia.
    - simpl. cut (h2 = base p2); [by intros ->|].
      assert (F = reverse t ++ [h2; h1]) as HFeq.
      { rewrite <- (reverse_involutive F), Hrev.
        by rewrite !reverse_cons, <- !app_assoc. }
      assert (Date h2 < Date h1) as H21.
      { rewrite HFeq in HFs. apply StronglySorted_app_1_r in HFs.
        apply StronglySorted_cons in HFs as [Hall _].
        rewrite Forall_forall in Hall. apply Hall. elem. }
      assert (forall x, x ∈ reverse t -> Date x < Date h2) as Ht2.
      { intros x Hx. rewrite HFeq in HFs.
        apply (StronglySorted_app_1_elem_of _ _ _ _ _ HFs Hx). elem. }
      assert (h1 ∈ F /\ h2 ∈ F) as [Hh1F Hh2F].
      { rewrite HFeq. split; apply elem_of_app; right; elem. }
      destruct (Hback h1 Hh1F) as (q1 & Hq1 & Hb1 & He1).
      destruct (Hback h2 Hh2F) as (q2 & Hq2 & Hb2 & He2).
      (* [p] is the last element *)
      assert (base p = h1) as Hp1.
      { pose proof (Himm q1 Hq1 He1) as Hle. rewrite Hb1 in Hle.
        rewrite HFeq in HpF. apply elem_of_app in HpF as [HpF|HpF].
        - specialize (Ht2 _ HpF). lia.
        - elem_inv HpF; [|done]. rewrite HpF in Hle. lia. }
      (* [p2] is the one before *)
      assert (earlier_session q2 p) as He2p.
      { destruct He2 as [Hc2 Hd2]. split; [by transitivity (contract (base r))|].
        rewrite Hb2, Hp1. done. }
      pose proof (Himm2 q2 Hq2 He2p) as Hle2. rewrite Hb2 in Hle2.
      rewrite HFeq in Hp2F. apply elem_of_app in Hp2F as [Hp2F|Hp2F].
      + specialize (Ht2 _ Hp2F). lia.
      + elem_inv Hp2F; [done|]. rewrite Hp2F, <- Hp1 in Hp2d. lia. }
  split; [done|].
  rewrite Hrl. by destruct (lagged_columns (reverse l1) b) as (_ & _ & _ & ->).
Qed.

End LagTwo.

Section FrameInvariants.
Import Pandas Frame Spec.
Local Open Scope Z_scope.

(** The second lag, in the frame of either aggregator: if [p] is the
    session immediately before [r] and [p2] the session immediately before
    [p], all of one (strike, call/put), then OI_prev2 of [r] is the OI of
    [p2] after its passage through a 64-bit float and delta_2 of [r] is the
    64-bit difference of OI and OI_prev2.  Hence delta_2 of [r] is OI of [r]
    minus OI of [p2] whenever OI of [p2] is stored exactly in a 64-bit float
    and the difference fits in 64 bits. *)
Theorem delta_2_is_change_from_two_sessions_back :
  (forall df2 r p p2,
     r ∈ DataLoader.aggregate df2 ->
     previous_session (DataLoader.aggregate df2) p r ->
     previous_session (DataLoader.aggregate df2) p2 p ->
     OI_prev2 r = Numpy.int64_of_float (Numpy.float64_of_int (OI (base p2))) /\
     delta_2 r = Numpy.int64_wrap (OI (base r) - OI_prev2 r) /\
     (exact_in_float64 (OI (base p2)) ->
        OI_prev2 r = OI (base p2) /\
        (Numpy.in_int64 (OI (base r) - OI (base p2)) ->
           delta_2 r = OI (base r) - OI (base p2)))) /\
  (forall df r p p2,
     r ∈ TxoDbUi.aggregate_daily_from_df df ->
     previous_session (TxoDbUi.aggregate_daily_from_df df) p r ->
     previous_session (TxoDbUi.aggregate_daily_from_df df) p2 p ->
     OI_prev2 r = Numpy.int64_of_float (Numpy.float64_of_int (OI (base p2))) /\
     delta_2 r = Numpy.int64_wrap (OI (base r) - OI_prev2 r) /\
     (exact_in_float64 (OI (base p2)) ->
        OI_prev2 r = OI (base p2) /\
        (Numpy.in_int64 (OI (base r) - OI (base p2)) ->
           delta_2 r = OI (base r) - OI (base p2)))).
Proof.
  assert (forall rows r p p2,
    StronglySorted chron rows ->
    r ∈ add_lags [] rows -> previous_session (add_lags [] rows) p r ->
    previous_session (add_lags [] rows) p2 p ->
    Numpy.in_int64 (OI (base p2)) ->
    OI_prev2 r = Numpy.int64_of_float (Numpy.float64_of_int (OI (base p2))) /\
    delta_2 r = Numpy.int64_wrap (OI (base r) - OI_prev2 r) /\
    (exact_in_float64 (OI (base p2)) ->
       OI_prev2 r = OI (base p2) /\
       (Numpy.in_int64 (OI (base r) - OI (base p2)) ->
          delta_2 r = OI (base r) - OI (base p2)))) as Hlag.
  { intros rows r p p2 Hs Hr Hp Hp2 Hrange.
    destruct (lags_second_previous rows r p p2 Hs Hr Hp Hp2) as [H2 Hd].
    split; [done|]. split; [done|]. intros Hex.
    assert (OI_prev2 r = OI (base p2)) as Heq
      by (rewrite H2; by apply round_trip_exact).
    split; [done|]. intros Hfit. rewrite Hd, Heq. by apply int64_wrap_id. }
  split.
  - intros df2 r p p2 Hr Hp Hp2.
    pose proof (loader_row_OI df2 p2 (proj1 Hp2)) as Hoi.
    rewrite loader_aggregate_unfold in Hr, Hp, Hp2.
    apply (Hlag _ r p p2 (loader_chron df2) Hr Hp Hp2).
    rewrite Hoi. apply int64_wrap_in_range.
  - intros df r p p2 Hr Hp Hp2.
    pose proof (db_row_OI df p2 (proj1 Hp2)) as Hoi.
    pose proof (db_aggregate_nonempty df r Hr) as Hne.
    rewrite (db_aggregate_unfold df Hne) in Hr, Hp, Hp2.
    apply (Hlag _ r p p2 (db_chron df) Hr Hp Hp2).
    rewrite Hoi. apply int64_wrap_in_range.
Qed.

Lemma base_add_lags rows : forall above, base <$> add_lags above rows = rows.
Proof.
  induction rows as [|r rows IH]; intros above; [done|].
  simpl. by rewrite IH.
Qed.

Lemma sum_Z_cons x l : sum_Z (x :: l) = x + sum_Z l.
Proof. reflexivity. Qed.

Lemma sum_Z_Permutation l1 l2 : l1 ≡ₚ l2 -> sum_Z l1 = sum_Z l2.
Proof.
  unfold sum_Z.
  induction 1 as [|x l1 l2 _ IH|x y l|l1 l2 l3 _ IH1 _ IH2]; simpl; lia.
Qed.

Lemma sum_Z_pointwise {A} (f g : A -> Z) l :
  sum_Z ((fun k => f k + g k) <$> l) = sum_Z (f <$> l) + sum_Z (g <$> l).
Proof.
  induction l as [|k l IH]; [done|].
  rewrite !fmap_cons, !sum_Z_cons, IH. lia.
Qed.

Lemma sum_Z_zero {A} (l : list A) : sum_Z ((fun _ => 0) <$> l) = 0.
Proof.
  induction l as [|k l IH]; [done|]. by rewrite fmap_cons, sum_Z_cons, IH.
Qed.

Lemma sum_Z_indicator {K} `{EqDecision K} (ks : list K) k0 v :
  NoDup ks -> k0 ∈ ks ->
  sum_Z ((fun k => if decide (k0 = k) then v else 0) <$> ks) = v.
Proof.
  induction 1 as [|k ks Hk Hnd IH]; intros Hin; [by apply elem_of_nil in Hin|].
  rewrite fmap_cons, sum_Z_cons. apply elem_of_cons in Hin as [->|Hin].
  - rewrite decide_True by done.
    assert (sum_Z ((fun k0 => if decide (k = k0) then v else 0) <$> ks) = 0) as ->;
      [|lia].
    clear IH Hnd. induction ks as [|k' ks IH]; [done|].
    rewrite fmap_cons, sum_Z_cons.
    rewrite decide_False; [|intros ->; apply Hk; elem].
    rewrite IH; [done|]. intros H. apply Hk. by apply list_elem_of_further.
  - rewrite decide_False; [|intros ->; done]. by rewrite IH.
Qed.

(** Summing each group and then the group sums gives the sum of all rows. *)
Lemma group_sums_total {R K} `{EqDecision K} (key : R -> K) (oi : R -> Z)
    (ks : list K) (rows : list R) :
  NoDup ks -> (forall x, x ∈ rows -> key x ∈ ks) ->
  sum_Z ((fun k => sum_Z (oi <$> filter (fun x => key x = k) rows)) <$> ks)
  = sum_Z (oi <$> rows).
Proof.
  intros Hnd. induction rows as [|x rows IH]; intros Hin.
  - simpl. apply sum_Z_zero.
  - rewrite fmap_cons, sum_Z_cons.
    rewrite <- IH by (intros y Hy; apply Hin; by apply list_elem_of_further).
    rewrite <- (sum_Z_indicator ks (key x) (oi x) Hnd) at 1 by (apply Hin; elem).
    rewrite <- sum_Z_pointwise. f_equal. apply list_fmap_ext.
    intros i k _. simpl. rewrite filter_cons.
    destruct (decide (key x = k)); [by rewrite fmap_cons, sum_Z_cons|lia].
Qed.

Lemma sum_Z_wrapped l :
  Numpy.int64_wrap (sum_Z (Numpy.int64_wrap <$> l)) = Numpy.int64_wrap (sum_Z l).
Proof.
  induction l as [|x l IH]; [done|].
  rewrite fmap_cons, !sum_Z_cons, int64_wrap_add.
  rewrite (Z.add_comm x), <- int64_wrap_add, IH, int64_wrap_add.
  by rewrite Z.add_comm.
Qed.

Lemma grouped_column {R} (key : R -> Z * Z * pystr) (oi : R -> Z) txt (rows : list R) :
  OI <$> grouped key oi txt rows
  = Numpy.int64_wrap
      <$> ((fun k => sum_Z (oi <$> filter (fun x => key x = k) rows))
             <$> group_keys key rows).
Proof.
  unfold grouped, groupby_agg. rewrite <- !list_fmap_compose.
  apply list_fmap_ext. intros i k _. cbn [compose OI]. apply int64_sum_wrap.
Qed.

Lemma grouped_total {R} (key : R -> Z * Z * pystr) (oi : R -> Z) txt (rows : list R) :
  Numpy.int64_wrap (sum_Z (OI <$> grouped key oi txt rows))
  = Numpy.int64_wrap (sum_Z (oi <$> rows)) /\
  ((forall x, x ∈ rows ->
      Numpy.in_int64 (sum_Z (oi <$> filter (fun y => key y = key x) rows))) ->
   sum_Z (OI <$> grouped key oi txt rows) = sum_Z (oi <$> rows)).
Proof.
  rewrite grouped_column.
  assert (sum_Z ((fun k => sum_Z (oi <$> filter (fun x => key x = k) rows))
                   <$> group_keys key rows) = sum_Z (oi <$> rows)) as Htotal.
  { apply group_sums_total; [apply group_keys_NoDup|].
    intros x Hx. apply elem_of_group_keys. by exists x. }
  split.
  - by rewrite sum_Z_wrapped, Htotal.
  - intros Hfit. rewrite <- Htotal. f_equal.
    rewrite <- list_fmap_compose. apply list_fmap_ext. intros i k Hk.
    apply list_elem_of_lookup_2, elem_of_group_keys in Hk as (x & Hx & <-).
    cbn [compose]. by apply int64_wrap_id, Hfit.
Qed.

Lemma frame_total {R K} `{Lexico K, !StrictOrder (@lexico K _)}
    `{!TrichotomyT (@lexico K _)} `{EqDecision K}
    (skey : agg_row -> K) (key : R -> Z * Z * pystr) oi txt (rows : list R) :
  let out := add_lags [] (sort_values skey (grouped key oi txt rows)) in
  Numpy.int64_wrap (sum_Z ((fun r => OI (base r)) <$> out))
  = Numpy.int64_wrap (sum_Z (oi <$> rows)) /\
  ((forall x, x ∈ rows ->
      Numpy.in_int64 (sum_Z (oi <$> filter (fun y => key y = key x) rows))) ->
   sum_Z ((fun r => OI (base r)) <$> out) = sum_Z (oi <$> rows)).
Proof.
  intros out. unfold out.
  rewrite (list_fmap_compose base OI), base_add_lags.
  rewrite (sum_Z_Permutation _ (OI <$> grouped key oi txt rows)).
  - apply grouped_total.
  - apply fmap_Permutation, sort_values_Permutation.
Qed.

Lemma StronglySorted_fmap_inv {A B} (f : A -> B) (R : relation B) l :
  StronglySorted R (f <$> l) -> StronglySorted (fun a b => R (f a) (f b)) l.
Proof.
  induction l as [|a l IH]; intros Hs; [constructor|].
  rewrite fmap_cons in Hs. apply StronglySorted_cons in Hs as [Hall Hs].
  constructor; [by apply IH|].
  apply Forall_forall. intros b Hb.
  eapply (proj1 (Forall_forall _ _) Hall). by apply list_elem_of_fmap_2.
Qed.

Lemma frame_shape {R K} `{Lexico K, !StrictOrder (@lexico K _)}
    `{!TrichotomyT (@lexico K _)} `{EqDecision K}
    (skey : agg_row -> K) (key : R -> Z * Z * pystr) oi txt (rows : list R) :
  let out := add_lags [] (sort_values skey (grouped key oi txt rows)) in
  NoDup ((fun r => session_key (base r)) <$> out) /\
  StronglySorted (fun a b => lex_le (skey (base a)) (skey (base b))) out /\
  (forall r, r ∈ out -> exists x, x ∈ rows /\ key x = session_key (base r)).
Proof.
  intros out. split; [|split].
  - rewrite (list_fmap_compose base session_key). unfold out.
    rewrite base_add_lags, sort_values_Permutation. apply grouped_NoDup.
  - apply (StronglySorted_fmap_inv base (fun a b => lex_le (skey a) (skey b))).
    unfold out. rewrite base_add_lags. apply sort_values_sorted.
  - intros r Hr. apply (list_elem_of_fmap_2 base) in Hr.
    unfold out in Hr. rewrite base_add_lags, sort_values_Permutation in Hr.
    by apply grouped_elem in Hr as [Hx _].
Qed.

(** Grouping conserves open interest as far as 64-bit sums can: the OI
    column of the frame and the open interest of all cleaned input rows (of
    the selected session for the database frame) have the same sum modulo
    2^64, and the same sum when no session total leaves the 64-bit range.
    The frame has one row per (date, strike, call/put), each coming from an
    input row, and is ordered by the sort columns. *)
Theorem aggregation_conserves_open_interest :
  (forall df2,
     Numpy.int64_wrap (sum_Z ((fun r => OI (base r)) <$> DataLoader.aggregate df2))
     = Numpy.int64_wrap (sum_Z (DataLoader.c_OI <$> df2)) /\
     ((forall x, x ∈ df2 ->
         Numpy.in_int64 (loader_session_OI df2 (DataLoader.group_key x))) ->
      sum_Z ((fun r => OI (base r)) <$> DataLoader.aggregate df2)
      = sum_Z (DataLoader.c_OI <$> df2)) /\
     NoDup ((fun r => session_key (base r)) <$> DataLoader.aggregate df2) /\
     StronglySorted
       (fun a b => lex_le (DataLoader.sort_key (base a)) (DataLoader.sort_key (base b)))
       (DataLoader.aggregate df2) /\
     (forall r, r ∈ DataLoader.aggregate df2 ->
        exists x, x ∈ df2 /\ DataLoader.group_key x = session_key (base r))) /\
  (forall df,
     Numpy.int64_wrap (sum_Z ((fun r => OI (base r)) <$> TxoDbUi.aggregate_daily_from_df df))
     = Numpy.int64_wrap
         (sum_Z (TxoDbUi.OI_for_calc (TxoDbUi.has_nan df) <$> TxoDbUi.select_session df)) /\
     ((forall x, x ∈ TxoDbUi.select_session df ->
         Numpy.in_int64 (db_session_OI df (TxoDbUi.group_key x))) ->
      sum_Z ((fun r => OI (base r)) <$> TxoDbUi.aggregate_daily_from_df df)
      = sum_Z (TxoDbUi.OI_for_calc (TxoDbUi.has_nan df) <$> TxoDbUi.select_session df)) /\
     NoDup ((fun r => session_key (base r)) <$> TxoDbUi.aggregate_daily_from_df df) /\
     StronglySorted
       (fun a b => lex_le (TxoDbUi.sort_key (base a)) (TxoDbUi.sort_key (base b)))
       (TxoDbUi.aggregate_daily_from_df df) /\
     (forall r, r ∈ TxoDbUi.aggregate_daily_from_df df ->
        exists x, x ∈ TxoDbUi.select_session df
                  /\ TxoDbUi.group_key x = session_key (base r))).
Proof.
  split.
  - intros df2. rewrite loader_aggregate_unfold.
    pose proof (frame_total DataLoader.sort_key DataLoader.group_key DataLoader.c_OI
                  (fun g => DataLoader.join_bar (DataLoader.c_orig_OI_str <$> g)) df2)
      as [Hw He].
    split; [exact Hw|]. split; [exact He|]. apply frame_shape.
  - intros df. destruct df as [|x df].
    + cbn. repeat split; try constructor. by intros r ?%elem_of_nil.
    + rewrite (db_aggregate_unfold (x :: df)) by done.
      pose proof (frame_total TxoDbUi.sort_key TxoDbUi.group_key
                    (TxoDbUi.OI_for_calc (TxoDbUi.has_nan (x :: df)))
                    (fun g => default [] (head (TxoDbUi.d_orig_OI_str <$> g)))
                    (TxoDbUi.select_session (x :: df))) as [Hw He].
      split; [exact Hw|]. split; [exact He|]. apply frame_shape.
Qed.

End FrameInvariants.

Section FrameWitnesses.
Import Frame Spec Samples.
Local Open Scope Z_scope.

Lemma delta_2_is_change_from_two_sessions_back_witness :
  delta_2 loader_call_3 = OI (base loader_call_3) - OI (base loader_call_1) /\
  delta_2 db_call_3 = OI (base db_call_3) - OI (base db_call_1).
Proof.
  destruct delta_2_is_change_from_two_sessions_back as (Hl & Hd).
  split.
  - destruct (Hl sample_df2 loader_call_3 loader_call_2 loader_call_1)
      as (_ & _ & Hex).
    + by_compute.
    + split; [by_compute|]. split; [by_compute|]. over_list. by_compute.
    + split; [by_compute|]. split; [by_compute|]. over_list. by_compute.
    + destruct Hex as [_ Hfit]; [reflexivity|]. apply Hfit. by_compute.
  - destruct (Hd sample_df db_call_3 db_call_2 db_call_1) as (_ & _ & Hex).
    + by_compute.
    + split; [by_compute|]. split; [by_compute|]. over_list. by_compute.
    + split; [by_compute|]. split; [by_compute|]. over_list. by_compute.
    + destruct Hex as [_ Hfit]; [reflexivity|]. apply Hfit. by_compute.
Defined.

(** No session total of the sample frames leaves the 64-bit range, so
    their OI columns add up to the open interest of the input. *)
Lemma aggregation_conserves_open_interest_witness :
  sum_Z ((fun r => OI (base r)) <$> DataLoader.aggregate sample_df2)
  = sum_Z (DataLoader.c_OI <$> sample_df2).
Proof.
  destruct aggregation_conserves_open_interest as (Hl & _).
  destruct (Hl sample_df2) as (_ & He & _). apply He. over_list. by_compute.
Defined.

End FrameWitnesses.

(** ** Anomaly entries *)

Section Anomalies.
Import Pandas Frame Spec TxoDbUi.
Local Open Scope Z_scope.

Lemma outside_flag_large atm w r :
  outside_flag atm w r = true -> 400 <= Z.abs (delta_1 r).
Proof.
  unfold outside_flag. destruct atm as [a|]; [|done].
  intros [_ H]%andb_prop. by apply bool_decide_eq_true in H.
Qed.

(** A row of the day is reported exactly when |delta_1| is at least 400 or
    the relative flag fires: the remote flag never adds a row, because it
    needs |delta_1| >= 400 itself.  The level of an entry is 極端, 重大 or 大單
    by the thresholds, and 相對異常 exactly when |delta_1| is below 400; the
    fallback labels 遠端大單 and 異常 are never produced. *)
Theorem anomaly_entry_levels (all_agg : list oi_row) (atm_strike : option Z)
    (strike_window : Z) (r : oi_row) :
  (is_Some (anomaly_of_row all_agg atm_strike strike_window r) <->
   400 <= Z.abs (delta_1 r) \/ rel_flag all_agg r = true) /\
  (forall a, anomaly_of_row all_agg atm_strike strike_window r = Some a ->
     an_strike a = Strike (base r) /\ an_cp a = CP (base r) /\
     an_delta a = delta_1 r /\ an_abs a = Z.abs (delta_1 r) /\
     an_outside a = outside_flag atm_strike strike_window r /\
     (an_level a = "極端" <-> 1200 <= an_abs a) /\
     (an_level a = "重大" <-> 800 <= an_abs a < 1200) /\
     (an_level a = "大單" <-> 400 <= an_abs a < 800) /\
     (an_level a = "相對異常" <-> an_abs a < 400) /\
     an_level a <> "遠端大單" /\ an_level a <> "異常").
Proof.
  unfold anomaly_of_row.
  pose proof (anomaly_level_cases (delta_1 r)) as Hl.
  pose proof (outside_flag_large atm_strike strike_window r) as Ho.
  destruct (anomaly_level (delta_1 r)) as [l|] eqn:Hlev.
  - (* a threshold level *)
    rewrite bool_decide_eq_true_2 by (by eexists). cbn [orb].
    assert (400 <= Z.abs (delta_1 r)) as H400.
    { destruct Hl as [[? Hl]|[[? Hl]|[[? Hl]|[? Hl]]]]; [discriminate|lia..]. }
    split; [split; [by left|by eexists]|].
    intros a [= <-]. cbn [an_strike an_cp an_delta an_abs an_level an_outside].
    do 5 (split; [done|]).
    destruct Hl as [[? Hl]|[[? Hl]|[[? Hl]|[? Hl]]]];
      [discriminate|injection Hl as ->..];
      repeat split; intros; first [lia | discriminate | done].
  - (* below every threshold *)
    assert (Z.abs (delta_1 r) < 400) as H400.
    { destruct Hl as [[? Hl]|[[? Hl]|[[? Hl]|[? Hl]]]]; [done|discriminate..]. }
    rewrite bool_decide_eq_false_2 by (by intros [? ?]). cbn [orb].
    destruct (outside_flag atm_strike strike_window r) eqn:Hout;
      [specialize (Ho eq_refl); lia|]. rewrite orb_false_r.
    destruct (rel_flag all_agg r) eqn:Hrel.
    + split; [split; [by right|by eexists]|].
      intros a [= <-]. cbn [an_strike an_cp an_delta an_abs an_level an_outside].
      do 5 (split; [done|]).
      repeat split; intros; first [lia | discriminate | done].
    + split; [|done]. split; [by intros [? ?]|]. intros [?|?]; [lia|done].
Qed.

End Anomalies.

Section Ranking.
Import Pandas Frame Spec TxoDbUi.
Local Open Scope Z_scope.

Lemma take_short_or_full {A} (n : nat) (l : list A) :
  take n l = l \/ length (take n l) = n.
Proof.
  destruct (decide (length l <= n)%nat) as [Hle|Hgt].
  - left. by apply take_ge.
  - right. rewrite length_take. lia.
Qed.

Lemma insert_reverse_Permutation {A} (key : A -> Z) x l :
  insert_reverse key x l ≡ₚ x :: l.
Proof.
  induction l as [|y l IH]; [done|]. cbn [insert_reverse].
  destruct (key y <=? key x); [done|]. by rewrite IH, Permutation_swap.
Qed.

Lemma sorted_reverse_Permutation {A} (key : A -> Z) l : sorted_reverse key l ≡ₚ l.
Proof.
  unfold sorted_reverse. induction l as [|x l IH]; [done|].
  cbn [foldr]. by rewrite insert_reverse_Permutation, IH.
Qed.

Lemma insert_reverse_sorted {A} (key : A -> Z) x l :
  StronglySorted (fun a b => key b <= key a) l ->
  StronglySorted (fun a b => key b <= key a) (insert_reverse key x l).
Proof.
  induction 1 as [|y l Hl IH Hy]; cbn [insert_reverse].
  - repeat constructor.
  - destruct (Z.leb_spec (key y) (key x)) as [Hle|Hgt].
    + constructor; [by constructor|]. constructor; [done|].
      eapply Forall_impl; [exact Hy|]. intros z Hz. cbn beta in Hz. lia.
    + constructor; [done|]. rewrite insert_reverse_Permutation.
      constructor; [lia|done].
Qed.

Lemma sorted_reverse_sorted {A} (key : A -> Z) l :
  StronglySorted (fun a b => key b <= key a) (sorted_reverse key l).
Proof.
  unfold sorted_reverse. induction l as [|x l IH]; [constructor|].
  cbn [foldr]. by apply insert_reverse_sorted.
Qed.

(** The anomaly list of a day holds at most ten entries, largest |delta_1|
    first; each entry is the entry of a row of the day, and an entry of a row
    of the day is left out only when ten entries at least as large are
    kept. *)
Theorem anomalies_are_the_ten_largest (agg_day all_agg : list oi_row)
    (atm_strike : option Z) (strike_window : Z) :
  let out := anomalies agg_day all_agg atm_strike strike_window in
  (length out <= 10)%nat /\
  StronglySorted (fun a b => an_abs b <= an_abs a) out /\
  (forall a, a ∈ out ->
     exists r, r ∈ agg_day /\
       anomaly_of_row all_agg atm_strike strike_window r = Some a) /\
  (forall r a, r ∈ agg_day ->
     anomaly_of_row all_agg atm_strike strike_window r = Some a ->
     a ∈ out \/
     (length out = 10%nat /\ forall b, b ∈ out -> an_abs a <= an_abs b)).
Proof.
  cbn zeta. unfold anomalies.
  set (found := omap (anomaly_of_row all_agg atm_strike strike_window) agg_day).
  set (S := sorted_reverse an_abs found).
  assert (StronglySorted (fun a b => an_abs b <= an_abs a) S) as Hs.
  { apply sorted_reverse_sorted. }
  assert (forall a, a ∈ S <-> a ∈ found) as HS.
  { intros a. unfold S. by rewrite sorted_reverse_Permutation. }
  split; [|split; [|split]].
  - rewrite length_take. lia.
  - rewrite <- (take_drop 10 S) in Hs. by apply StronglySorted_app_1_l in Hs.
  - intros a Ha. apply elem_of_take in Ha as (i & Ha & _).
    apply list_elem_of_lookup_2, HS in Ha.
    apply list_elem_of_omap in Ha as (r & Hr & Ha). by exists r.
  - intros r a Hr Ha.
    assert (a ∈ S) as HaS.
    { apply HS. apply list_elem_of_omap. by exists r. }
    rewrite <- (take_drop 10 S) in HaS. apply elem_of_app in HaS as [HaS|HaS];
      [by left|right].
    split.
    + destruct (take_short_or_full 10 S) as [Heq|Hlen]; [|done].
      exfalso. apply (f_equal length) in Heq. rewrite length_take in Heq.
      assert (drop 10 S = []) as Hnil.
      { apply drop_ge. lia. }
      rewrite Hnil in HaS. by apply elem_of_nil in HaS.
    + intros b Hb. rewrite <- (take_drop 10 S) in Hs.
      apply (StronglySorted_app_1_elem_of _ _ _ _ _ Hs Hb HaS).
Qed.

End Ranking.

(** ** Performance accounting of the backtest *)

Section Accounting.
Import Backtest Spec Pairing.
Local Open Scope Qc_scope.

Lemma pairs_ind {A} (P : list A -> Prop) :
  P [] -> (forall a, P (a :: [])) -> (forall a b l, P l -> P (a :: b :: l)) ->
  forall l, P l.
Proof.
  intros H0 H1 H2.
  assert (forall l, P l /\ forall a, P (a :: l)) as H.
  { induction l as [|b l [IH1 IH2]]; [by split|]. split; [apply IH2|].
    intros a. by apply H2. }
  intros l. apply H.
Qed.

Lemma aligned_pair_cons2 a b l :
  aligned_pair (a :: b :: l) <->
  (t_type a = "entry" /\ t_type b = "exit") \/ aligned_pair l.
Proof.
  split.
  - intros ([|i] & e & x & He & Hx & Hte & Htx).
    + left. simpl in He, Hx. by injection He as <-; injection Hx as <-.
    + right. exists i, e, x.
      replace (2 * S i)%nat with (S (S (2 * i))) in He by lia.
      replace (2 * S i + 1)%nat with (S (S (2 * i + 1))) in Hx by lia.
      done.
  - intros [[Ha Hb]|(i & e & x & He & Hx & Hte & Htx)].
    + by exists 0%nat, a, b.
    + exists (S i), e, x.
      replace (2 * S i)%nat with (S (S (2 * i))) by lia.
      replace (2 * S i + 1)%nat with (S (S (2 * i + 1))) by lia.
      done.
Qed.

Lemma pair_trades_nonempty commission trades : forall equity,
  pair_trades commission trades equity <> [] <-> aligned_pair trades.
Proof.
  induction trades as [|a|a b l IH] using pairs_ind; intros equity.
  - split; [done|]. intros (i & e & x & He & _). by rewrite lookup_nil in He.
  - split; [done|]. intros (i & e & x & _ & Hx & _).
    destruct i; simpl in Hx; [done|]. by rewrite lookup_nil in Hx.
  - rewrite aligned_pair_cons2. cbn [pair_trades].
    destruct (String.eqb_spec (t_type a) "entry") as [Ha|Ha];
      destruct (String.eqb_spec (t_type b) "exit") as [Hb|Hb]; cbn [andb].
    + split; [by left|done].
    + rewrite IH. split; [by right|]. by intros [[_ ?]|?].
    + rewrite IH. split; [by right|]. by intros [[? _]|?].
    + rewrite IH. split; [by right|]. by intros [[? _]|?].
Qed.

Lemma pair_trades_length commission trades : forall equity,
  (2 * length (pair_trades commission trades equity) <= length trades)%nat.
Proof.
  induction trades as [|a|a b l IH] using pairs_ind; intros equity;
    [simpl; lia..|].
  cbn [pair_trades].
  destruct (_ && _); cbn [length]; [specialize (IH (equity +
    ((if String.eqb (t_position a) "long" then t_price b - t_price a
      else t_price a - t_price b) - (t_price a + t_price b) * commission)))|
    specialize (IH equity)]; lia.
Qed.

(** Every record carries the net result of its own pair, and the equity
    after it is the equity before it plus that result. *)
Lemma pair_trades_chain commission trades : forall equity i r,
  pair_trades commission trades equity !! i = Some r ->
  r_pnl r =
    (if String.eqb (r_position r) "long"
     then r_exit_price r - r_entry_price r
     else r_entry_price r - r_exit_price r)
    - (r_entry_price r + r_exit_price r) * commission /\
  exists prev,
    (equity :: (r_cumulative_equity <$> pair_trades commission trades equity)) !! i
      = Some prev /\
    r_cumulative_equity r = prev + r_pnl r.
Proof.
  induction trades as [|a|a b l IH] using pairs_ind; intros equity i r;
    [cbn [pair_trades]; by rewrite lookup_nil..|].
  cbn [pair_trades]. destruct (_ && _); [|apply IH].
  destruct i as [|i].
  - intros [= <-]. cbn. split; [done|]. by eexists.
  - intros Hr. cbn [lookup list_lookup] in Hr.
    destruct (IH _ _ _ Hr) as [H1 H2]. split; [exact H1|].
    rewrite fmap_cons. exact H2.
Qed.

Lemma sum_Qc_cons x l : sum_Qc (x :: l) = x + sum_Qc l.
Proof. reflexivity. Qed.

Lemma sum_nonneg (l : list Qc) : Forall (fun x => 0 <= x) l -> 0 <= sum_Qc l.
Proof.
  induction 1 as [|x l Hx _ IH]; [apply Qcle_refl|].
  rewrite sum_Qc_cons. apply Qcle_trans with (0 + 0); [|by apply Qcplus_le_compat].
  rewrite Qcplus_0_l. apply Qcle_refl.
Qed.

Lemma filter_two_lengths {A} (P Q : A -> Prop) `{!forall x, Decision (P x)}
    `{!forall x, Decision (Q x)} (l : list A) :
  (forall x, P x -> Q x -> False) ->
  (length (filter P l) + length (filter Q l) <= length l)%nat.
Proof.
  intros HPQ. induction l as [|x l IH]; [done|].
  rewrite !filter_cons.
  destruct (decide (P x)); destruct (decide (Q x)); cbn [length];
    [by exfalso; eauto|lia..].
Qed.

(** The calculator returns a result exactly when some entry is immediately
    followed by an exit at an even position of the list: the drawdown
    division cannot fail, the peak being at least the initial 100000. *)
Theorem performance_needs_an_aligned_pair (commission : Qc) (trades : list trade) :
  is_Some (calculate_performance commission trades) <-> aligned_pair trades.
Proof.
  rewrite <- (pair_trades_nonempty commission trades initial_equity).
  unfold calculate_performance.
  destruct (Nat.ltb_spec (length trades) 2) as [Hlt|Hge].
  - split; [by intros [? ?]|]. intros Hne. exfalso.
    pose proof (pair_trades_length commission trades initial_equity) as Hlen.
    destruct (pair_trades commission trades initial_equity); [done|].
    cbn [length] in Hlen. lia.
  - destruct (pair_trades commission trades initial_equity) as [|r0 recs] eqn:Hp.
    + split; [by intros [? ?]|done].
    + destruct (calculate_max_drawdown_spec initial_equity
                  (r_cumulative_equity <$> r0 :: recs) initial_equity_pos)
        as (v & Hv & _).
      change (map r_cumulative_equity (r0 :: recs))
        with (r_cumulative_equity <$> r0 :: recs).
      rewrite Hv. split; [done|]. by eexists.
Qed.

Lemma calculate_performance_fields commission trades perf :
  calculate_performance commission trades = Some perf ->
  let recs := pair_trades commission trades initial_equity in
  let curve := initial_equity :: map r_cumulative_equity recs in
  total_trades perf = length recs /\
  winning_trades perf = length (filter (fun r => 0 < r_pnl r) recs) /\
  losing_trades perf = length (filter (fun r => r_pnl r < 0) recs) /\
  total_profit perf = sum_Qc (map r_pnl (filter (fun r => 0 < r_pnl r) recs)) /\
  total_loss perf = Qcabs (sum_Qc (map r_pnl (filter (fun r => r_pnl r < 0) recs))) /\
  calculate_max_drawdown curve = Some (max_drawdown perf) /\
  final_equity perf = List.last curve initial_equity /\
  total_return perf = (List.last curve initial_equity - initial_equity) / initial_equity /\
  equity_curve perf = curve /\
  trade_records perf = recs.
Proof.
  unfold calculate_performance.
  destruct (length trades <? 2)%nat; [done|].
  destruct (pair_trades commission trades initial_equity) as [|r0 recs']; [done|].
  destruct (calculate_max_drawdown _) as [dd|]; [|done].
  intros H. injection H as <-. cbv zeta. repeat split; reflexivity.
Qed.

(** The books of a returned result are consistent: one curve point per
    trade after the initial equity, each point the previous one plus the
    trade's net result, the final equity the last point of the curve, the
    total return taken from it, totals that are not negative, and no more
    trades than pairs of list entries. *)
Theorem performance_books_balance (commission : Qc) (trades : list trade)
    (perf : performance) :
  calculate_performance commission trades = Some perf ->
  total_trades perf = length (trade_records perf) /\
  length (equity_curve perf) = S (total_trades perf) /\
  (2 * total_trades perf <= length trades)%nat /\
  (winning_trades perf + losing_trades perf <= total_trades perf)%nat /\
  0 <= total_profit perf /\ 0 <= total_loss perf /\
  total_return perf = (final_equity perf - initial_equity) / initial_equity /\
  equity_curve perf !! 0%nat = Some initial_equity /\
  List.last (equity_curve perf) initial_equity = final_equity perf /\
  (forall i r, trade_records perf !! i = Some r ->
     equity_curve perf !! S i = Some (r_cumulative_equity r) /\
     (exists prev, equity_curve perf !! i = Some prev /\
                   r_cumulative_equity r = prev + r_pnl r) /\
     r_pnl r =
       (if String.eqb (r_position r) "long"
        then r_exit_price r - r_entry_price r
        else r_entry_price r - r_exit_price r)
       - (r_entry_price r + r_exit_price r) * commission).
Proof.
  intros Hperf.
  destruct (calculate_performance_fields _ _ _ Hperf)
    as (Ht & Hwn & Hln & Htp & Htl & _ & Hfe & Htr & Hec & Hrec).
  pose proof (pair_trades_length commission trades initial_equity) as Hlen.
  pose proof (pair_trades_chain commission trades initial_equity) as Hchain.
  set (recs := pair_trades commission trades initial_equity) in *.
  set (wins := filter (fun r => 0 < r_pnl r) recs) in *.
  set (losses := filter (fun r => r_pnl r < 0) recs) in *.
  assert (0 <= sum_Qc (map r_pnl wins)) as Hw.
  { apply sum_nonneg, Forall_forall. intros x (r & -> & Hr)%list_elem_of_fmap.
    apply list_elem_of_filter in Hr as [Hr _]. by apply Qclt_le_weak. }
  assert (length wins + length losses <= length recs)%nat as Hwl.
  { apply filter_two_lengths. intros x H1 H2.
    apply (Qc_lt_irrefl 0). by eapply Qclt_trans. }
  rewrite Ht, Hwn, Hln, Htp, Htl, Hfe, Htr, Hec, Hrec.
  split; [done|]. split; [by rewrite length_cons, length_map|].
  split; [exact Hlen|]. split; [exact Hwl|]. split; [exact Hw|].
  split; [apply Qcabs_nonneg|].
  split; [done|]. split; [done|]. split; [done|].
  intros i r Hr. destruct (Hchain i r Hr) as [H1 H2]. split; [|by split].
  change ((r_cumulative_equity <$> recs) !! i = Some (r_cumulative_equity r)).
  by rewrite list_lookup_fmap, Hr.
Qed.

End Accounting.

Section AccountingWitness.
Import Backtest Spec Samples.
Local Open Scope Qc_scope.

Lemma performance_books_balance_witness :
  exists perf,
    calculate_performance (Q2Qc 0) sample_trades = Some perf /\
    List.last (equity_curve perf) initial_equity = final_equity perf /\
    length (equity_curve perf) = S (total_trades perf).
Proof.
  destruct (calculate_performance (Q2Qc 0) sample_trades) as [perf|] eqn:Hp;
    [|vm_compute in Hp; discriminate].
  exists perf. split; [reflexivity|].
  pose proof (performance_books_balance (Q2Qc 0) sample_trades perf Hp) as H.
  split; [apply H|apply H].
Defined.

End AccountingWitness.

Section FlatDrawdown.
Import Backtest Spec Pairing.
Local Open Scope Qc_scope.

Lemma is_max_of_exists (l : list Qc) : l <> [] -> exists p, is_max_of l p.
Proof.
  induction l as [|x l IH]; [done|]. intros _.
  destruct l as [|y l].
  - exists x. split; [elem|]. intros z Hz.
    apply list_elem_of_singleton in Hz as ->. apply Qcle_refl.
  - destruct IH as (p & Hp & Hm); [done|].
    destruct (Qclt_le_dec p x) as [Hlt|Hle].
    + exists x. split; [elem|]. intros z Hz.
      apply elem_of_cons in Hz as [->|Hz]; [apply Qcle_refl|].
      apply Qclt_le_weak. eapply Qcle_lt_trans; [by apply Hm|done].
    + exists p. split; [by apply list_elem_of_further|]. intros z Hz.
      apply elem_of_cons in Hz as [->|Hz]; [done|by apply Hm].
Qed.

Lemma div_zero_numerator (a p : Qc) : 0 < p -> a / p = 0 -> a = 0.
Proof.
  intros Hp H. assert (p <> 0) as Hne.
  { intros ->. by apply Qc_lt_irrefl in Hp. }
  rewrite <- (Qcmult_div_r a p Hne), H. ring.
Qed.

Lemma div_nonneg (a p : Qc) : 0 < p -> 0 <= a -> 0 <= a / p.
Proof.
  intros Hp Ha. assert (p <> 0) as Hne.
  { intros ->. by apply Qc_lt_irrefl in Hp. }
  apply (Qcmult_lt_0_le_reg_r _ _ p Hp).
  rewrite Qcmult_0_l. unfold Qcdiv. rewrite <- Qcmult_assoc, Qcmult_inv_l by done.
  by rewrite Qcmult_1_r.
Qed.

(** On a curve that starts with a positive equity the reported maximum
    drawdown is 0 exactly when the curve never falls. *)
Theorem max_drawdown_zero_iff_never_falls (e0 : Qc) (r : list Qc) :
  0 < e0 ->
  calculate_max_drawdown (e0 :: r) = Some 0 <-> never_falls (e0 :: r).
Proof.
  intros Hpos.
  destruct (calculate_max_drawdown_spec e0 r Hpos) as (v & Hv & Hnn & Hub & Hat).
  rewrite Hv. split.
  - intros [= ->] i j a b Hij Ha Hb.
    destruct (is_max_of_exists (take (S j) (e0 :: r))) as (p & Hp); [done|].
    assert (0 < p) as Hppos.
    { eapply Qclt_le_trans; [exact Hpos|]. apply Hp. simpl. elem. }
    assert ((p - b) / p <= 0) as Hdd.
    { apply (Hub j). by exists b, p. }
    assert (0 <= p - b) as Hpb.
    { apply -> Qcle_minus_iff. apply Hp. apply list_elem_of_lookup.
      exists j. rewrite lookup_take_lt by lia. done. }
    assert (p - b = 0) as Heq.
    { apply (div_zero_numerator _ p Hppos). apply Qcle_antisym; [done|].
      by apply div_nonneg. }
    assert (p = b) as -> by (rewrite <- (Qcplus_0_l b), <- Heq; ring).
    apply Hp. apply list_elem_of_lookup. exists i. rewrite lookup_take_lt by lia. done.
  - intros Hnf. f_equal. destruct Hat as (i & e & p & Hi & [Hp Hm] & ->).
    apply list_elem_of_lookup in Hp as (k & Hk).
    assert (k < S i)%nat as Hki.
    { apply lookup_lt_Some in Hk. rewrite length_take in Hk. lia. }
    rewrite lookup_take_lt in Hk by lia.
    assert (p <= e) as H1 by (apply (Hnf k i); [lia|done..]).
    assert (e <= p) as H2.
    { apply Hm. apply list_elem_of_lookup. exists i. rewrite lookup_take_lt by lia. done. }
    rewrite (Qcle_antisym _ _ H1 H2). unfold Qcdiv.
    replace (e - e) with 0 by ring. ring.
Qed.

End FlatDrawdown.

Section FlatDrawdownWitness.
Import Backtest Spec Pairing.
Local Open Scope Qc_scope.

Lemma max_drawdown_zero_iff_never_falls_witness :
  calculate_max_drawdown [Q2Qc 100; Q2Qc 100; Q2Qc 120]%list = Some 0 <->
  never_falls [Q2Qc 100; Q2Qc 100; Q2Qc 120]%list.
Proof.
  apply (max_drawdown_zero_iff_never_falls (Q2Qc 100) [Q2Qc 100; Q2Qc 120]%list).
  reflexivity.
Defined.

End FlatDrawdownWitness.

(** ** Soundness of the symbol extraction *)

Section PatternSoundness.
Import Extractor Spec Matching.
Context {UD : UnicodeData}.

Lemma extract_header_sound cols : forall i info,
  extract_header_from i cols = Some info ->
  found_in info = "header" /\
  exists (j : nat) s, column_index info = (i + j)%nat /\
    cols !! j = Some (CStr s) /\ original_text info = Some s /\
    read_from s info /\
    Forall (fun c => yields c = false) (take j cols).
Proof.
  induction cols as [|col cols IH]; intros i info; [done|].
  cbn [extract_header_from].
  assert (extract_header_from (S i) cols = Some info -> yields col = false ->
    found_in info = "header" /\
    exists (j : nat) s, column_index info = (i + j)%nat /\
      (col :: cols) !! j = Some (CStr s) /\ original_text info = Some s /\
      read_from s info /\
      Forall (fun c => yields c = false) (take j (col :: cols))) as Hnext.
  { intros H Hy. destruct (IH _ _ H) as (Hf & j & s & Hj & Hs & Ho & Hr & Hbefore).
    split; [done|]. exists (S j), s. split; [lia|]. split; [done|].
    split; [done|]. split; [done|]. cbn [take]. by constructor. }
  destruct col as [s|repr]; [|intros H; by apply Hnext].
  destruct (re_search s) as [[g1 g2]|] eqn:Hre;
    [|intros H; apply Hnext; [done|]; cbn [yields]; by rewrite Hre].
  destruct (_is_valid_tw_stock_symbol (strip g1)) eqn:Hv;
    [|intros H; apply Hnext; [done|]; cbn [yields]; by rewrite Hre].
  intros [= <-]. cbn [found_in column_index original_text]. split; [done|].
  exists 0%nat, s. split; [lia|]. split; [done|]. split; [done|].
  split; [|constructor].
  unfold read_from. cbn [symbol chinese_name].
  by apply (match_strips s g1 g2).
Qed.

Lemma extract_data_sound cols : forall i info,
  extract_data_from i cols = Some info ->
  found_in info = "data" /\ original_text info = None /\
  exists (j : nat) s, column_index info = (i + j)%nat /\
    cols !! j = Some (CStr s) /\
    read_from s info /\
    Forall (fun c => yields c = false) (take j cols).
Proof.
  induction cols as [|col cols IH]; intros i info; [done|].
  cbn [extract_data_from].
  assert (extract_data_from (S i) cols = Some info -> yields col = false ->
    found_in info = "data" /\ original_text info = None /\
    exists (j : nat) s, column_index info = (i + j)%nat /\
      (col :: cols) !! j = Some (CStr s) /\
      read_from s info /\
      Forall (fun c => yields c = false) (take j (col :: cols))) as Hnext.
  { intros H Hy. destruct (IH _ _ H) as (Hf & Ho & j & s & Hj & Hs & Hr & Hbefore).
    split; [done|]. split; [done|]. exists (S j), s. split; [lia|]. split; [done|].
    split; [done|]. cbn [take]. by constructor. }
  destruct col as [s|repr]; [|intros H; by apply Hnext].
  destruct (re_search s) as [[g1 g2]|] eqn:Hre;
    [|intros H; apply Hnext; [done|]; cbn [yields]; by rewrite Hre].
  destruct (_is_valid_tw_stock_symbol (strip g1)) eqn:Hv;
    [|intros H; apply Hnext; [done|]; cbn [yields]; by rewrite Hre].
  intros [= <-]. cbn [found_in column_index original_text]. split; [done|].
  split; [done|].
  exists 0%nat, s. split; [lia|]. split; [done|].
  split; [|constructor].
  unfold read_from. cbn [symbol chinese_name].
  by apply (match_strips s g1 g2).
Qed.

(** A symbol record returned for a header row or a data row points at a
    string cell of that row, the first cell that yields a symbol; the cell
    matches the pattern, with the returned symbol as its code and the
    returned name as its ideographs.  A header record keeps the cell as
    [original_text]; a data record has none. *)
Theorem extracted_symbol_is_read_from_its_cell (row : list cell) (info : symbol_info) :
  (_extract_symbol_from_header row = Some info ->
     found_in info = "header" /\
     exists s, row !! column_index info = Some (CStr s) /\
       original_text info = Some s /\ read_from s info /\
       Forall (fun c => yields c = false) (take (column_index info) row)) /\
  (_extract_symbol_from_data row = Some info ->
     found_in info = "data" /\ original_text info = None /\
     exists s, row !! column_index info = Some (CStr s) /\
       read_from s info /\
       Forall (fun c => yields c = false) (take (column_index info) row)).
Proof.
  split.
  - intros (Hf & j & s & Hj & Hs & Ho & Hr & Hb)%extract_header_sound.
    simpl in Hj. rewrite Hj. split; [done|]. by exists s.
  - intros (Hf & Ho & j & s & Hj & Hs & Hr & Hb)%extract_data_sound.
    simpl in Hj. rewrite Hj. split; [done|]. split; [done|]. by exists s.
Qed.

End PatternSoundness.

Section SymbolShape.
Import Extractor Spec Matching.
Context {UD : UnicodeData}.

Lemma newline_classes : isdecimal 10%N = false /\ is_ascii_letter 10%N = false.
Proof. split; [|done]. by rewrite isdecimal_ascii. Qed.

Lemma at_end_cases rest : at_end rest = true <-> rest = [] \/ rest = [10%N].
Proof.
  destruct rest as [|c [|d rest]]; simpl.
  - split; [by left|done].
  - rewrite N.eqb_eq. split; [intros ->; by right|by intros [|[= ->]]].
  - split; [done|by intros [|]].
Qed.

Lemma symbol_format_shape symbol :
  symbol_format symbol = true <->
  exists ds ls, ds <> [] /\
    Forall (fun c => isdecimal c = true) ds /\
    Forall (fun c => is_ascii_letter c = true) ls /\
    (symbol = ds ++ ls \/ symbol = ds ++ ls ++ [10%N]).
Proof.
  unfold symbol_format. rewrite bool_decide_eq_true. split.
  - intros [[] (k & Hk & Hin)%first_down_Some].
    apply first_down_Some in Hin as (m & Hm & Hend).
    destruct (at_end (drop (k + m) symbol)) eqn:He; [|done].
    apply at_end_cases in He.
    destruct (take_in_run isdecimal symbol k) as [Hds Hdl]; [lia|].
    destruct (take_in_run is_ascii_letter (drop k symbol) m) as [Hls Hll]; [lia|].
    exists (take k symbol), (take m (drop k symbol)).
    split; [intros H0; rewrite H0 in Hdl; simpl in Hdl; lia|].
    split; [done|]. split; [done|].
    assert (symbol = take k symbol ++ take m (drop k symbol) ++ drop (k + m) symbol)
      as Hsplit.
    { rewrite <- drop_drop, take_drop, take_drop. done. }
    destruct He as [He|He]; rewrite He in Hsplit.
    + left. by rewrite app_nil_r in Hsplit.
    + by right.
  - intros (ds & ls & Hne & Hds & Hls & [->| ->]).
    + pose proof (symbol_format_code ds ls Hds Hne Hls) as H.
      unfold symbol_format in H. by apply bool_decide_eq_true in H.
    + destruct newline_classes as [Hnd Hnl].
      exists tt. rewrite run_app; [|done|].
      * apply first_down_hit; [destruct ds; [done|simpl; lia]|].
        rewrite drop_app_length. rewrite run_app; [|done|done].
        apply first_down_hit; [lia|].
        rewrite app_assoc, <- length_app, drop_app_length. done.
      * apply head_outside_app; [|done].
        eapply Forall_class_impl; [|exact Hls]. apply letter_not_decimal.
Qed.

(** The validity check accepts exactly the texts of 4 to 6 characters made
    of one or more decimal digits followed by ASCII letters, a final
    newline allowed (and counted in the length): a 3-character code is
    refused although the length guard lets it through. *)
Theorem valid_symbol_shape (symbol : pystr) :
  _is_valid_tw_stock_symbol symbol = true <->
  (4 <= length symbol <= 6)%nat /\
  exists ds ls, ds <> [] /\
    Forall (fun c => isdecimal c = true) ds /\
    Forall (fun c => is_ascii_letter c = true) ls /\
    (symbol = ds ++ ls \/ symbol = ds ++ ls ++ [10%N]).
Proof.
  rewrite <- symbol_format_shape. unfold _is_valid_tw_stock_symbol.
  destruct (Nat.ltb_spec (length symbol) 3) as [H3|H3]; cbn [orb].
  { split; [done|]. intros [? _]. lia. }
  destruct (Nat.ltb_spec 6 (length symbol)) as [H6|H6].
  { split; [done|]. intros [? _]. lia. }
  destruct (symbol_format symbol); cbn [negb]; [|split; [done|by intros [_ ?]]].
  case_bool_decide as Hin.
  - split; [|done]. intros _. split; [|done]. elem_inv Hin; lia.
  - split; [done|]. intros [Hlen _]. exfalso. apply Hin.
    assert (length symbol = 4 \/ length symbol = 5 \/ length symbol = 6)%nat
      as [->|[->| ->]] by lia; elem.
Qed.

End SymbolShape.

Section SoundnessWitness.
Import Extractor Spec Matching MoreSamples.

Lemma extracted_symbol_is_read_from_its_cell_witness :
  found_in named_info = "header" /\
  exists s, named_row !! column_index named_info = Some (CStr s) /\
    original_text named_info = Some s /\ read_from s named_info /\
    Forall (fun c => yields c = false) (take (column_index named_info) named_row).
Proof.
  apply (proj1 (extracted_symbol_is_read_from_its_cell (UD := basic_unicode)
                  named_row named_info)).
  vm_compute. reflexivity.
Defined.

End SoundnessWitness.

(** ** Numeric data rows and the header choice *)

Section NumericRows.
Import Extractor Spec Matching.
Context {UD : UnicodeData}.

Lemma numeric_char_ascii c : numeric_char c = true -> (c < 128)%N.
Proof.
  unfold numeric_char, ascii_digit, in_range.
  rewrite !orb_true_iff, andb_true_iff, !N.eqb_eq, !N.leb_le. lia.
Qed.

Lemma numeric_char_lower c : numeric_char c = true -> ascii_lower_cp c = c.
Proof.
  unfold numeric_char, ascii_lower_cp, ascii_digit, in_range.
  rewrite !orb_true_iff, andb_true_iff, !N.eqb_eq, !N.leb_le. intros H.
  destruct (N.leb_spec 65 c), (N.leb_spec c 90); simpl; try done. lia.
Qed.

Lemma numeric_text_chars s : numeric_text s = true ->
  Forall (fun c => numeric_char c = true) s /\
  exists c, c ∈ s /\ ascii_digit c = true.
Proof.
  unfold numeric_text. rewrite andb_true_iff, forallb_forall, existsb_exists.
  intros [Hall (c & Hc & Hd)]. split.
  - apply Forall_forall. intros x Hx. apply Hall. by apply list_elem_of_In.
  - exists c. split; [by apply list_elem_of_In|done].
Qed.

Lemma numeric_text_lower s : numeric_text s = true -> lower s = s.
Proof.
  intros [Hs _]%numeric_text_chars. rewrite lower_basic_text.
  - induction Hs as [|c s Hc _ IH]; [done|].
    rewrite fmap_cons, IH. by rewrite numeric_char_lower.
  - eapply Forall_impl; [exact Hs|]. intros c Hc. unfold basic.
    apply orb_true_iff. left. apply N.ltb_lt. by apply numeric_char_ascii.
Qed.

Lemma any_in_numeric kws text :
  foreign_to_numbers kws = true ->
  Forall (fun c => numeric_char c = true) text ->
  any_in kws text = false.
Proof.
  unfold foreign_to_numbers, any_in. rewrite forallb_forall. intros Hk Ht.
  apply not_true_is_false. rewrite existsb_exists.
  intros (kw & Hkw & (pre & post & ->)%contains_spec).
  specialize (Hk kw Hkw). destruct kw as [|c kw]; [done|].
  apply Forall_app in Ht as [_ Ht]. apply Forall_app in Ht as [Ht _].
  apply Forall_cons in Ht as [Hc _]. by rewrite Hc in Hk.
Qed.

Lemma keyword_lists_foreign :
  foreign_to_numbers stock_keywords = true /\
  foreign_to_numbers option_future_keywords = true /\
  foreign_to_numbers non_column_keywords = true.
Proof. by vm_compute. Qed.

Lemma digits_remain s :
  Forall (fun c => numeric_char c = true) s ->
  Forall (fun c => isdigit c = true)
    (remove_char 45%N (remove_char 44%N (remove_char 46%N s))).
Proof.
  intros Hs. apply Forall_forall. intros c Hc. unfold remove_char in Hc.
  apply list_elem_of_filter in Hc as [H45 Hc].
  apply list_elem_of_filter in Hc as [H44 Hc].
  apply list_elem_of_filter in Hc as [H46 Hc].
  rewrite Forall_forall in Hs. specialize (Hs c Hc).
  rewrite isdigit_ascii by by apply numeric_char_ascii.
  unfold numeric_char in Hs. rewrite !orb_true_iff, !N.eqb_eq in Hs.
  by destruct Hs as [[[?|?]|?]|?].
Qed.

Lemma digit_survives s c : c ∈ s -> ascii_digit c = true ->
  c ∈ remove_char 45%N (remove_char 44%N (remove_char 46%N s)).
Proof.
  intros Hc Hd. unfold remove_char.
  assert (c <> 45 /\ c <> 44 /\ c <> 46)%N as (H45 & H44 & H46).
  { unfold ascii_digit, in_range in Hd.
    rewrite andb_true_iff, !N.leb_le in Hd. lia. }
  by repeat (apply list_elem_of_filter; split; [done|]).
Qed.

Lemma numeric_text_isdigit s : numeric_text s = true ->
  str_isdigit (remove_char 45%N (remove_char 44%N (remove_char 46%N s))) = true.
Proof.
  intros (Hs & c & Hc & Hd)%numeric_text_chars.
  pose proof (digits_remain s Hs) as Hall.
  pose proof (digit_survives s c Hc Hd) as Hin.
  unfold str_isdigit.
  destruct (remove_char 45%N (remove_char 44%N (remove_char 46%N s))) as [|x l];
    [by apply elem_of_nil in Hin|].
  apply forallb_forall. intros y Hy. rewrite Forall_forall in Hall.
  apply Hall. by apply list_elem_of_In.
Qed.

(** A plain number adds nothing to the score, and takes one point away
    when it is longer than 12 characters. *)
Lemma score_step_numeric score text : numeric_text text = true ->
  score_step score text = (if (length text <=? 12)%nat then score else score - 1)%Z.
Proof.
  intros Ht. pose proof (numeric_text_chars _ Ht) as [Hs _].
  destruct keyword_lists_foreign as (H1 & H2 & H3).
  unfold score_step.
  rewrite (any_in_numeric _ _ H1 Hs), (any_in_numeric _ _ H2 Hs),
    (any_in_numeric _ _ H3 Hs), (numeric_text_isdigit _ Ht).
  rewrite orb_true_r. cbn [negb]. rewrite andb_true_r.
  destruct (length text <=? 12)%nat; lia.
Qed.

Lemma foldl_score_numeric texts : Forall (fun t => numeric_text t = true) texts ->
  forall score, (foldl score_step score texts <= score)%Z.
Proof.
  induction 1 as [|t texts Ht _ IH]; intros score; [simpl; lia|].
  cbn [foldl]. etrans; [apply IH|]. rewrite (score_step_numeric _ _ Ht).
  destruct (length t <=? 12)%nat; lia.
Qed.

Lemma numeric_row_score row : numeric_cells row -> _calculate_data_score row = 0%Z.
Proof.
  intros Hrow. unfold _calculate_data_score. destruct row as [|c row]; [done|].
  assert (Forall (fun t => numeric_text t = true)
            ((fun col => lower (str col)) <$> c :: row)) as Ht.
  { apply Forall_fmap. eapply Forall_impl; [exact Hrow|]. intros x Hx. simpl.
    by rewrite (numeric_text_lower _ Hx). }
  pose proof (foldl_score_numeric _ Ht 0%Z). lia.
Qed.

(** A first data row made of plain numbers scores 0, so it never takes the
    place of the header: the first line stays the header, whatever it
    holds, and no row is skipped. *)
Theorem numeric_data_row_never_displaces_header (chunk_df : chunk) :
  numeric_cells (first_data_row chunk_df) ->
  _calculate_data_score (first_data_row chunk_df) = 0%Z /\
  data_start_index (_process_data_chunk_fast chunk_df) = 0%nat /\
  column_names (_process_data_chunk_fast chunk_df) = lowered_set (columns chunk_df).
Proof.
  intros Hrow. pose proof (numeric_row_score _ Hrow) as H0. split; [done|].
  destruct (process_header chunk_df) as [Hi Hn]. cbv zeta in Hi, Hn.
  rewrite Hi, Hn, score_second_row_eq, H0.
  pose proof (score_nonneg (columns chunk_df)).
  assert ((if (_calculate_data_score (columns chunk_df) <? 3)%Z then 0 else 0)%Z = 0%Z)
    as -> by by destruct (_calculate_data_score (columns chunk_df) <? 3)%Z.
  by rewrite bool_decide_eq_true_2.
Qed.

End NumericRows.

Section NumericRowsWitness.
Import Extractor Spec Matching MoreSamples.

Lemma numeric_data_row_never_displaces_header_witness :
  _calculate_data_score (UD := basic_unicode) (first_data_row priced_chunk) = 0%Z /\
  data_start_index (_process_data_chunk_fast (UD := basic_unicode) priced_chunk) = 0%nat /\
  column_names (_process_data_chunk_fast (UD := basic_unicode) priced_chunk)
    = lowered_set (UD := basic_unicode) (columns priced_chunk).
Proof.
  apply (numeric_data_row_never_displaces_header (UD := basic_unicode) priced_chunk).
  unfold numeric_cells. by_compute.
Defined.

End NumericRowsWitness.

(** ** The session choice of the database aggregator *)

Section SessionChoice.
Import Pandas Frame Spec TxoDbUi.
Local Open Scope Z_scope.

Lemma select_session_regular df x :
  x ∈ df -> d_session x = U "一般" ->
  select_session df = filter (fun r => d_session r = U "一般") df.
Proof.
  intros Hx Hs. unfold select_session.
  assert (x ∈ filter (fun r => d_session r = U "一般") df) as Hin
    by by apply list_elem_of_filter.
  destruct (filter (fun r => d_session r = U "一般") df); [|done].
  by apply elem_of_nil in Hin.
Qed.

Lemma filter_none {A} (P : A -> Prop) `{!forall x, Decision (P x)} (l : list A) :
  (forall x, x ∈ l -> ~ P x) -> filter P l = [].
Proof.
  induction l as [|a l IH]; intros Hl; [done|].
  rewrite filter_cons_False by (apply Hl; elem).
  apply IH. intros x Hx. apply Hl. by apply list_elem_of_further.
Qed.

(** The choice is made once for the whole frame, not per day: as soon as
    one row of the regular session exists, every other row is left out, so
    every row of the frame comes from a regular row and a day with only
    after-hours rows has no row in it; the frame is the frame of the
    regular rows alone when the left-out rows do not change the type of the
    open-interest column (a NaN among them makes it a float column).  A
    frame made of after-hours and unmarked rows only is used whole. *)
Theorem regular_session_rows_shadow_the_rest (df : list db_row) :
  (forall x, x ∈ df -> d_session x = U "一般" ->
     select_session df = filter (fun r => d_session r = U "一般") df /\
     (has_nan df = has_nan (filter (fun r => d_session r = U "一般") df) ->
      aggregate_daily_from_df df
        = aggregate_daily_from_df (filter (fun r => d_session r = U "一般") df)) /\
     forall r, r ∈ aggregate_daily_from_df df ->
       exists y, y ∈ df /\ d_session y = U "一般" /\
                 group_key y = session_key (base r)) /\
  ((forall x, x ∈ df -> d_session x ∈ [U "-"; U "盤後"; U "後市"; []]) ->
     select_session df = df).
Proof.
  split.
  - intros x Hx Hs. pose proof (select_session_regular df x Hx Hs) as Hsel.
    assert (x ∈ filter (fun r => d_session r = U "一般") df) as Hin
      by by apply list_elem_of_filter.
    split; [done|]. split.
    + intros Hnan. rewrite !db_aggregate_unfold.
      * rewrite Hsel, <- Hnan. f_equal. f_equal. f_equal. symmetry.
        rewrite (select_session_regular _ x Hin Hs). apply filter_twice.
      * intros H0. rewrite H0 in Hin. by apply elem_of_nil in Hin.
      * intros ->. by apply elem_of_nil in Hx.
    + intros r Hr.
      pose proof (db_aggregate_nonempty df r Hr) as Hne.
      rewrite (db_aggregate_unfold df Hne) in Hr.
      destruct (frame_shape TxoDbUi.sort_key TxoDbUi.group_key
                  (TxoDbUi.OI_for_calc (TxoDbUi.has_nan df))
                  (fun g => default [] (head (TxoDbUi.d_orig_OI_str <$> g)))
                  (TxoDbUi.select_session df)) as (_ & _ & Hfrom).
      destruct (Hfrom r Hr) as (y & Hy & Hkey). rewrite Hsel in Hy.
      apply list_elem_of_filter in Hy as [Hys Hy]. by exists y.
  - intros Hall. unfold select_session.
    assert (filter (fun r => d_session r = U "一般") df = []) as ->.
    { apply filter_none. intros x Hx Hs.
      specialize (Hall x Hx). rewrite Hs in Hall. revert Hall. by_compute. }
    assert (filter (fun r => d_session r ∉ [U "-"; U "盤後"; U "後市"; []]) df = [])
      as ->; [|done].
    apply filter_none. intros x Hx Hs. by apply Hs, Hall.
Qed.

End SessionChoice.

Section SessionChoiceWitness.
Import Pandas Frame Spec TxoDbUi Samples.

Lemma regular_session_rows_shadow_the_rest_witness :
  select_session sample_df = filter (fun r => d_session r = U "一般") sample_df /\
  aggregate_daily_from_df sample_df
    = aggregate_daily_from_df (filter (fun r => d_session r = U "一般") sample_df) /\
  forall r, r ∈ aggregate_daily_from_df sample_df ->
    exists y, y ∈ sample_df /\ d_session y = U "一般" /\
              group_key y = session_key (base r).
Proof.
  destruct (proj1 (regular_session_rows_shadow_the_rest sample_df)
              (db_row 2 17000 "買權" (Some 300%Z) "一般")) as (Hsel & Hagg & Hfrom).
  - unfold sample_df. elem.
  - reflexivity.
  - split; [exact Hsel|]. split; [|exact Hfrom]. apply Hagg. reflexivity.
Defined.

End SessionChoiceWitness.


(** ** The clean-up of numeric text in the downloader *)

Section CleaningChain.
Import Cleaning.

Lemma marks : U "," = [44%N] /\ U "▼" = [9660%N] /\ U "▲" = [9650%N] /\
  U "%" = [37%N] /\ U " " = [32%N] /\ U "--" = [45%N; 45%N] /\ U "-" = [45%N].
Proof. by vm_compute. Qed.

Lemma replace_one_char (a : codepoint) (new s : list codepoint) :
  str_replace [a] new s = s ≫= (fun c => if (a =? c)%N then new else [c]).
Proof.
  unfold str_replace. induction s as [|c s IH]; [done|].
  cbn [replace_go startswith length Nat.sub]. rewrite andb_true_r, bind_cons, <- IH.
  by destruct (a =? c)%N.
Qed.

Lemma remove_one_char (a : codepoint) (s : list codepoint) :
  str_replace [a] [] s = filter (fun c => c <> a) s.
Proof.
  rewrite replace_one_char. induction s as [|c s IH]; [done|].
  rewrite bind_cons, IH.
  destruct (N.eqb_spec a c) as [->|Hne].
  - by rewrite filter_cons_False by (intros H; by apply H).
  - by rewrite filter_cons_True by (by intros ->).
Qed.

(** Taking out the pairs of [-] first does not change what is left once
    every [-] is taken out. *)
Lemma pairs_then_singles (s : list codepoint) :
  filter (fun c => c <> 45%N) (replace_go [45%N; 45%N] [] 0 s)
    = filter (fun c => c <> 45%N) s /\
  filter (fun c => c <> 45%N) (replace_go [45%N; 45%N] [] 1 s)
    = filter (fun c => c <> 45%N) (tail s).
Proof.
  induction s as [|c s [IH0 IH1]]; [done|]. split; [|exact IH0].
  cbn [replace_go startswith length Nat.sub]. unfold codepoint in *.
  destruct (N.eqb_spec 45 c) as [<-|Hc]; cbn [andb].
  - destruct s as [|d s]; cbn [startswith].
    + cbn [replace_go]. done.
    + rewrite andb_true_r. destruct (N.eqb_spec 45 d) as [<-|Hd].
      * cbn [app]. etrans; [exact IH1|]. cbn [tail].
        by rewrite !filter_cons_False by (intros H; by apply H).
      * rewrite filter_cons_False by (intros H; by apply H).
        rewrite (filter_cons_False _ 45%N) by (intros H; by apply H). exact IH0.
  - rewrite (filter_cons_True _ c s) by congruence.
    etrans; [apply filter_cons_True; congruence|]. f_equal. exact IH0.
Qed.

Lemma falling_mark_stage (t : list N) :
  filter (fun c : N => c <> 45%N /\ c <> 32%N /\ c <> 37%N /\ c <> 9650%N)
    (t ≫= (fun c : N => if (9660 =? c)%N then [45%N] else [c]))
  = filter (fun c : N => c <> 45%N /\ c <> 32%N /\ c <> 37%N /\ c <> 9650%N
                         /\ c <> 9660%N) t.
Proof.
  induction t as [|c t IH]; [done|].
  rewrite bind_cons, filter_app, IH. clear IH.
  rewrite (filter_cons (fun c : N => c <> 45%N /\ c <> 32%N /\ c <> 37%N
                                      /\ c <> 9650%N /\ c <> 9660%N) c t).
  destruct (N.eqb_spec 9660 c) as [<-|Hc].
  - rewrite decide_False by (intros (_ & _ & _ & _ & H); by apply H).
    rewrite filter_cons_False; [done|]. intros (H & _). by apply H.
  - rewrite (filter_cons _ c []), filter_nil.
    destruct (decide (c <> 45%N /\ c <> 32%N /\ c <> 37%N /\ c <> 9650%N))
      as [Hk|Hk].
    + rewrite decide_True; [done|]. destruct Hk as (?&?&?&?). repeat split; congruence.
    + rewrite decide_False; [done|]. intros (?&?&?&?&?). apply Hk. by repeat split.
Qed.

Lemma clean_numeric_text_eq (s : list codepoint) :
  clean_numeric_text s = filter (fun c => c ∉ dropped_chars) s.
Proof.
  unfold clean_numeric_text. destruct marks as (-> & -> & -> & -> & -> & -> & ->).
  cbv zeta. rewrite (remove_one_char 45%N). unfold str_replace at 1.
  etrans; [apply (proj1 (pairs_then_singles _))|].
  rewrite !remove_one_char, replace_one_char. unfold codepoint in *.
  rewrite !list_filter_filter.
  etrans; [apply (list_filter_iff _
             (fun c : N => c <> 45%N /\ c <> 32%N /\ c <> 37%N /\ c <> 9650%N));
           intros c; tauto|].
  etrans; [apply falling_mark_stage|].
  rewrite list_filter_filter. apply list_filter_iff. intros c.
  unfold dropped_chars. split.
  - intros ((H1 & H2 & H3 & H4 & H5) & H6) Hc. elem_inv Hc; done.
  - intros Hc. repeat split; intros ->; apply Hc; elem.
Qed.

(** The clean-up of a numeric text cell takes out exactly the commas, the
    direction marks, the percent signs, the spaces and every minus sign,
    and changes nothing else.  The direction of a change is lost with it:
    a falling mark, a rising mark or a minus sign in front of a text give the
    same cleaned text as the text alone, and no cleaned text holds a minus
    sign. *)
Theorem cleaning_drops_the_sign (s : list codepoint) :
  clean_numeric_text s = filter (fun c => c ∉ dropped_chars) s /\
  (45%N ∉ clean_numeric_text s) /\
  clean_numeric_text (U "▼" ++ s) = clean_numeric_text s /\
  clean_numeric_text (U "▲" ++ s) = clean_numeric_text s /\
  clean_numeric_text (U "-" ++ s) = clean_numeric_text s /\
  clean_numeric_text (clean_numeric_text s) = clean_numeric_text s.
Proof.
  rewrite !clean_numeric_text_eq. destruct marks as (_ & -> & -> & _ & _ & _ & ->).
  split; [done|]. split.
  { intros [Hc _]%list_elem_of_filter. apply Hc. unfold dropped_chars. elem. }
  cbn [app].
  repeat split;
    try (apply filter_cons_False; intros H; apply H; unfold dropped_chars; elem).
  apply filter_twice.
Qed.

End CleaningChain.

(** ** What the batch insert of the extractor stores *)

Section BatchInsert.
Import Sql FinancialDatabase.

(** [batch_insert_options_fast] returns 0 and leaves [options_raw] as it
    was, whatever list it is given: [PRAGMA synchronous = OFF] comes after
    [BEGIN TRANSACTION], SQLite refuses to change the safety level inside
    a transaction, and the [except] branch returns 0 before the
    [INSERT OR IGNORE] is reached.  So does the import of a chunk. *)
Theorem batch_insert_stores_nothing (tbl : table) :
  Sqlite.begin_transaction (Sqlite.connect tbl) ≫= Sqlite.pragma_synchronous = None /\
  (forall options_list, batch_insert_options_fast tbl options_list = (tbl, 0%nat)) /\
  (forall now filename chunk_rows,
     _import_as_options now filename tbl chunk_rows = (tbl, 0%nat)).
Proof.
  split; [done|]. split.
  - apply batch_insert_outcome.
  - intros now filename chunk_rows. apply import_as_options_outcome.
Qed.

End BatchInsert.

(** ** When the downloader's save goes through *)

Section SaveOutcome.
Import Sql Downloader Spec.

Lemma to_sql_is_Some clock df : forall k db,
  is_Some (to_sql clock k db df) <->
  Forall (fun r => constraints_ok r = true) df /\
  NoDup (unique_key <$> df) /\
  (forall r, r ∈ df -> unique_key r ∉ (unique_key ∘ data) <$> rows db).
Proof.
  induction df as [|r df IH]; intros k db; cbn [to_sql].
  - split; [|by eexists]. intros _. split; [constructor|].
    split; [constructor|]. by intros r ?%elem_of_nil.
  - destruct (insert (clock k) db r) as [db1|] eqn:Hi.
    + assert (is_Some (insert (clock k) db r)) as [Hok Hkey]%insert_test
        by by eexists.
      apply insert_Some in Hi as (Hrows & _).
      rewrite IH, Hrows, Forall_cons, (fmap_cons unique_key r df), NoDup_cons, fmap_app.
      change ((unique_key ∘ data)
                <$> [{| id := last_id db + 1; created_time := clock k; data := r |}])
        with [unique_key r].
      split.
      * intros (Hc & Hnd & Hfresh). split; [done|]. split; [split; [|done]|].
        -- intros (r' & Hk & Hr')%list_elem_of_fmap.
           apply (Hfresh r' Hr'). apply elem_of_app. right. rewrite <- Hk. elem.
        -- intros r' [->|Hr']%elem_of_cons; [done|].
           intros Hin. apply (Hfresh r' Hr'), elem_of_app. by left.
      * intros ([_ Hc] & [Hr Hnd] & Hfresh). split; [done|]. split; [done|].
        intros r' Hr' [Hin|Hin]%elem_of_app.
        -- by apply (Hfresh r' (list_elem_of_further _ _ _ Hr')).
        -- apply list_elem_of_singleton in Hin. apply Hr. rewrite <- Hin.
           by apply list_elem_of_fmap_2.
    + split; [by intros [? ?]|]. intros (Hc & Hnd & Hfresh). exfalso.
      assert (is_Some (insert (clock k) db r)) as [? ?]; [|congruence].
      apply insert_test. apply Forall_cons in Hc as [Hc _]. split; [done|].
      apply Hfresh. elem.
Qed.

(** The save returns [True] exactly when the frame is not empty, no key
    column of it is NULL, no two of its rows share a natural key and none
    shares one with a stored row of another trade date; otherwise it returns
    [False] and the database is as before. *)
Theorem save_succeeds_iff (clock : nat -> pystr) (db : database)
    (df : list txo_row) (date : pystr) :
  ((保存到數據庫 clock db df date).2 = true <->
   df <> [] /\
   Forall (fun r => constraints_ok r = true) df /\
   NoDup (unique_key <$> df) /\
   (forall r old, r ∈ df -> old ∈ rows db ->
      trade_date (data old) <> PStr (dashed date) ->
      unique_key r <> unique_key (data old))) /\
  ((保存到數據庫 clock db df date).2 = false ->
   (保存到數據庫 clock db df date).1 = db).
Proof.
  destruct df as [|r0 df]; [split; [split; [done|by intros [? _]]|done]|].
  rewrite save_unfold by done. set (frame := r0 :: df).
  pose proof (to_sql_is_Some clock frame 0 (delete_date (PStr (dashed date)) db))
    as Hiff.
  assert ((forall r, r ∈ frame ->
             unique_key r ∉ (unique_key ∘ data)
               <$> rows (delete_date (PStr (dashed date)) db)) <->
          (forall r old, r ∈ frame -> old ∈ rows db ->
             trade_date (data old) <> PStr (dashed date) ->
             unique_key r <> unique_key (data old))) as Hkeys.
  { unfold delete_date. cbn [rows]. split.
    - intros Hfresh r old Hr Hold Hd Hk. apply (Hfresh r Hr).
      apply list_elem_of_fmap. exists old. split; [done|].
      by apply list_elem_of_filter.
    - intros Hfresh r Hr (old & Hk & [Hd Hold]%list_elem_of_filter)%list_elem_of_fmap.
      by apply (Hfresh r old). }
  destruct (to_sql clock 0 (delete_date (PStr (dashed date)) db) frame) as [t|].
  - split; [|done]. split; [intros _|done]. split; [done|].
    destruct (proj1 Hiff) as (Hc & Hnd & Hfresh); [by eexists|].
    split; [done|]. split; [done|]. by apply Hkeys.
  - split; [|done]. split; [done|]. intros (_ & Hc & Hnd & Hfresh).
    destruct (proj2 Hiff) as [? ?]; [|done].
    split; [done|]. split; [done|]. by apply Hkeys.
Qed.

End SaveOutcome.

Section SaveOutcomeWitness.
Import Sql Downloader.

Lemma save_succeeds_iff_witness :
  (Downloader.保存到數據庫 Samples.evening Samples.stored_db Samples.revised_frame
     (U "2024/01/02")).2 = true.
Proof.
  apply (proj1 (save_succeeds_iff Samples.evening Samples.stored_db
                  Samples.revised_frame (U "2024/01/02"))).
  split; [done|]. split; [by repeat constructor|]. split.
  - apply NoDup_singleton.
  - intros r old Hr Hold Hd. unfold Samples.revised_frame in Hr.
    unfold Samples.stored_db in Hold. cbn [rows] in Hold.
    elem_inv Hr. elem_inv Hold; subst r old.
    + exfalso. apply Hd. by vm_compute.
    + by vm_compute.
Defined.

End SaveOutcomeWitness.
